(** * migrateToken.js: migration of NFT collections from the mainnet mirror
      node to testnet.

    A shallow embedding of [src/migrateToken.js].  The script is a linear
    orchestration of calls to the mirror node (read side) and to the ledger
    client (write side); the embedding makes the outside world explicit as a
    record of oracles that answer from the history of what the script did so
    far, and the script itself a computation in a small state-and-abort
    monad whose state is that history. *)

From Stdlib Require Import List String Ascii ZArith Lia Bool Arith.
From Stdlib Require DecimalString.
From Stdlib Require Import ZifyNat.
From Equations Require Import Equations.
Import ListNotations.

Local Open Scope Z_scope.

(* ===================================================================== *)
(** ** Byte buffers: the two conversions the script applies to metadata   *)
(* ===================================================================== *)

(** [Buffer.from(s, 'base64')], [buf.toString('utf-8')] and
    [Buffer.from(str)] are built-ins of the runtime.  Bytes are integers in
    [0, 256); a JavaScript string is the list of its UTF-16 code units. *)

Module Buffer.

Definition byte := Z.
Definition bytes := list byte.
Definition code_unit := Z.
Definition jsstring := list code_unit.

Definition between (lo hi x : Z) : bool := (lo <=? x) && (x <=? hi).

(** *** base64 *)

(** Value of one character of the transport text: both the standard and the
    URL-safe alphabets are accepted. *)
Definition unbase64 (c : ascii) : option Z :=
  let n := Z.of_nat (nat_of_ascii c) in
  if between 65 90 n then Some (n - 65)
  else if between 97 122 n then Some (n - 71)
  else if between 48 57 n then Some (n + 4)
  else if (n =? 43) || (n =? 45) then Some 62
  else if (n =? 47) || (n =? 95) then Some 63
  else None.

(** The decoder is lenient: it stops at the first padding character and
    steps over characters that belong to neither alphabet. *)
Fixpoint sextets (s : string) : list Z :=
  match s with
  | EmptyString => []
  | String c rest =>
      if Ascii.eqb c "="%char then []
      else match unbase64 c with
           | Some v => v :: sextets rest
           | None => sextets rest
           end
  end.

Fixpoint group_bytes (l : list Z) : bytes :=
  match l with
  | a :: b :: c :: d :: rest =>
      Z.lor (Z.shiftl (Z.land a 63) 2) (Z.shiftr (Z.land b 48) 4)
      :: Z.lor (Z.shiftl (Z.land b 15) 4) (Z.shiftr (Z.land c 60) 2)
      :: Z.lor (Z.shiftl (Z.land c 3) 6) (Z.land d 63)
      :: group_bytes rest
  | [a; b; c] =>
      [ Z.lor (Z.shiftl (Z.land a 63) 2) (Z.shiftr (Z.land b 48) 4);
        Z.lor (Z.shiftl (Z.land b 15) 4) (Z.shiftr (Z.land c 60) 2) ]
  | [a; b] =>
      [ Z.lor (Z.shiftl (Z.land a 63) 2) (Z.shiftr (Z.land b 48) 4) ]
  | _ => []
  end.

(** [Buffer.from(s, 'base64')] *)
Definition from_base64 (s : string) : bytes := group_bytes (sextets s).

(** *** UTF-8 decoding, [buf.toString('utf-8')] *)

(** The decoder is the state machine of the Encoding Standard: an
    ill-formed sequence yields one U+FFFD per maximal subpart and the byte
    that ended it is looked at again from the initial state.  A byte order
    mark is kept. *)
Record utf8_state := mk_utf8_state {
  code_point : Z;
  bytes_seen : Z;
  bytes_needed : Z;
  lower_boundary : Z;
  upper_boundary : Z
}.

Definition utf8_init : utf8_state := mk_utf8_state 0 0 0 128 191.

Definition replacement : Z := 65533.

(** One byte seen while no sequence is open: the code points to emit and
    the next state. *)
Definition utf8_lead (b : byte) : list Z * utf8_state :=
  if between 0 127 b then ([b], utf8_init)
  else if between 194 223 b then
    ([], mk_utf8_state (Z.land b 31) 0 1 128 191)
  else if between 224 239 b then
    ([], mk_utf8_state (Z.land b 15) 0 2
           (if b =? 224 then 160 else 128)
           (if b =? 237 then 159 else 191))
  else if between 240 244 b then
    ([], mk_utf8_state (Z.land b 7) 0 3
           (if b =? 240 then 144 else 128)
           (if b =? 244 then 143 else 191))
  else ([replacement], utf8_init).

Definition utf8_handler (st : utf8_state) (b : byte) : list Z * utf8_state :=
  if bytes_needed st =? 0 then utf8_lead b
  else if negb (between (lower_boundary st) (upper_boundary st) b) then
    let '(out, st') := utf8_lead b in (replacement :: out, st')
  else
    let cp := Z.lor (Z.shiftl (code_point st) 6) (Z.land b 63) in
    if bytes_seen st + 1 =? bytes_needed st then ([cp], utf8_init)
    else ([], mk_utf8_state cp (bytes_seen st + 1) (bytes_needed st) 128 191).

Fixpoint utf8_run (st : utf8_state) (bs : bytes) : list Z :=
  match bs with
  | [] => if bytes_needed st =? 0 then [] else [replacement]
  | b :: rest =>
      let '(out, st') := utf8_handler st b in out ++ utf8_run st' rest
  end.

(** Code units of one code point: a surrogate pair above the basic plane. *)
Definition code_units_of (cp : Z) : jsstring :=
  if cp <? 65536 then [cp]
  else [ 55296 + Z.shiftr (cp - 65536) 10; 56320 + Z.land (cp - 65536) 1023 ].

Definition to_utf8_string (bs : bytes) : jsstring :=
  flat_map code_units_of (utf8_run utf8_init bs).

(** *** UTF-8 encoding, [Buffer.from(str)] *)

Definition encode_code_point (cp : Z) : bytes :=
  if cp <? 128 then [cp]
  else if cp <? 2048 then
    [ Z.lor 192 (Z.shiftr cp 6); Z.lor 128 (Z.land cp 63) ]
  else if cp <? 65536 then
    [ Z.lor 224 (Z.shiftr cp 12);
      Z.lor 128 (Z.land (Z.shiftr cp 6) 63);
      Z.lor 128 (Z.land cp 63) ]
  else
    [ Z.lor 240 (Z.shiftr cp 18);
      Z.lor 128 (Z.land (Z.shiftr cp 12) 63);
      Z.lor 128 (Z.land (Z.shiftr cp 6) 63);
      Z.lor 128 (Z.land cp 63) ].

Definition is_high_surrogate (u : code_unit) : bool := between 55296 56319 u.
Definition is_low_surrogate (u : code_unit) : bool := between 56320 57343 u.

(** A surrogate pair is one code point; a surrogate on its own is written
    as U+FFFD. *)
Fixpoint from_string (s : jsstring) : bytes :=
  match s with
  | [] => []
  | u :: rest =>
      if is_high_surrogate u then
        match rest with
        | v :: rest' =>
            if is_low_surrogate v then
              encode_code_point
                (65536 + Z.shiftl (u - 55296) 10 + (v - 56320))
              ++ from_string rest'
            else encode_code_point replacement ++ from_string rest
        | [] => encode_code_point replacement
        end
      else if is_low_surrogate u then
        encode_code_point replacement ++ from_string rest
      else encode_code_point u ++ from_string rest
  end.

(** *** Well-formed UTF-8 (Unicode, table 3-7) *)

Fixpoint well_formed_utf8 (bs : bytes) : bool :=
  match bs with
  | [] => true
  | b0 :: r0 =>
      if between 0 127 b0 then well_formed_utf8 r0
      else if between 194 223 b0 then
        match r0 with
        | b1 :: r1 => between 128 191 b1 && well_formed_utf8 r1
        | _ => false
        end
      else if between 224 239 b0 then
        match r0 with
        | b1 :: b2 :: r2 =>
            between (if b0 =? 224 then 160 else 128)
                    (if b0 =? 237 then 159 else 191) b1
            && between 128 191 b2 && well_formed_utf8 r2
        | _ => false
        end
      else if between 240 244 b0 then
        match r0 with
        | b1 :: b2 :: b3 :: r3 =>
            between (if b0 =? 240 then 144 else 128)
                    (if b0 =? 244 then 143 else 191) b1
            && between 128 191 b2 && between 128 191 b3
            && well_formed_utf8 r3
        | _ => false
        end
      else false
  end.

End Buffer.

(* ===================================================================== *)
(** ** Values exchanged with the outside                                  *)
(* ===================================================================== *)

Infix "+++" := String.append (right associativity, at level 60).

(** What the field [max_supply] of a token description holds: a string,
    as the mirror node documents it, [null], or nothing when the field is
    absent. *)
Inductive jsvalue :=
| JUndefined
| JNull
| JString (s : string).

(** Numbers are doubles: not a number, an infinity, or
    [mantissa * 2 ^ exponent] with its sign.  Zero has mantissa 0 and
    exponent 0.  Any other number has [2 ^ 52 <= mantissa < 2 ^ 53] and
    [-1074 <= exponent <= 971], or is subnormal: [0 < mantissa < 2 ^ 52]
    and [exponent = -1074]. *)
Inductive jsnumber :=
| NaN
| Infinity (negative : bool)
| Double (negative : bool) (mantissa : Z) (exponent : Z).

(** The integer nearest to [p / q], the even one when two are as near. *)
Definition round_half_even (p q : Z) : Z :=
  let d := p / q in
  let r := 2 * (p mod q) in
  if r <? q then d
  else if q <? r then d + 1
  else if Z.even d then d else d + 1.

(** The [b] with [2 ^ b <= p / q < 2 ^ (b + 1)], for positive [p] and [q]. *)
Definition binade (p q : Z) : Z :=
  let b := Z.log2 p - Z.log2 q in
  if q * 2 ^ Z.max b 0 <=? p * 2 ^ Z.max (- b) 0 then b else b - 1.

(** The double nearest to [p / q], for [0 <= p] and [0 < q], the one with
    an even mantissa when two are as near: what the runtime makes of the
    mathematical value of a numeric literal.  Values too small become 0,
    values too large an infinity. *)
Definition round_to_double (negative : bool) (p q : Z) : jsnumber :=
  if p =? 0 then Double negative 0 0
  else
    let e := Z.max (binade p q - 52) (-1074) in
    let m := round_half_even (p * 2 ^ Z.max (- e) 0) (q * 2 ^ Z.max e 0) in
    if m =? 0 then Double negative 0 0
    else if m =? 2 ^ 53 then
      if 971 <? e + 1 then Infinity negative
      else Double negative (2 ^ 52) (e + 1)
    else
      if 971 <? e then Infinity negative else Double negative m e.

(** The double nearest to [mantissa * 10 ^ exponent]. *)
Definition decimal_to_double (negative : bool) (mantissa exponent : Z)
  : jsnumber :=
  if 0 <=? exponent then round_to_double negative (mantissa * 10 ^ exponent) 1
  else round_to_double negative mantissa (10 ^ (- exponent)).

(** The integer that a number is, when it is one. *)
Definition integer_value (x : jsnumber) : option Z :=
  match x with
  | Double negative mantissa exponent =>
      let sign := if negative then -1 else 1 in
      if 0 <=? exponent then Some (sign * (mantissa * 2 ^ exponent))
      else if mantissa mod 2 ^ (- exponent) =? 0
           then Some (sign * (mantissa / 2 ^ (- exponent)))
           else None
  | _ => None
  end.

(** White space among the code units below 256: the space, the controls
    from the tabulation to the carriage return, the no-break space. *)
Definition is_space (c : ascii) : bool :=
  let n := Z.of_nat (nat_of_ascii c) in
  (n =? 32) || Buffer.between 9 13 n || (n =? 160).

Fixpoint trim_start (s : string) : string :=
  match s with
  | String c rest => if is_space c then trim_start rest else s
  | EmptyString => EmptyString
  end.

Fixpoint trim_end (s : string) : string :=
  match s with
  | EmptyString => EmptyString
  | String c rest =>
      match trim_end rest with
      | EmptyString => if is_space c then EmptyString
                       else String c EmptyString
      | rest' => String c rest'
      end
  end.

(** Value of a digit in a radix up to sixteen. *)
Definition digit_value (radix : Z) (c : ascii) : option Z :=
  let n := Z.of_nat (nat_of_ascii c) in
  let v := if Buffer.between 48 57 n then n - 48
           else if Buffer.between 97 102 n then n - 87
           else if Buffer.between 65 70 n then n - 55
           else radix in
  if v <? radix then Some v else None.

(** The longest run of decimal digits at the start of [s]: the value it
    gives to [acc], its length added to [count], and what follows. *)
Fixpoint read_digits (s : string) (acc : Z) (count : nat)
  : Z * nat * string :=
  match s with
  | EmptyString => (acc, count, s)
  | String c rest =>
      match digit_value 10 c with
      | Some v => read_digits rest (10 * acc + v) (S count)
      | None => (acc, count, s)
      end
  end.

(** A text made of digits of the radix only. *)
Fixpoint radix_value (radix : Z) (s : string) (acc : Z) : option Z :=
  match s with
  | EmptyString => Some acc
  | String c rest =>
      match digit_value radix c with
      | Some v => radix_value radix rest (radix * acc + v)
      | None => None
      end
  end.

Definition radix_literal (radix : Z) (s : string) : jsnumber :=
  match s with
  | EmptyString => NaN
  | _ => match radix_value radix s 0 with
         | Some v => round_to_double false v 1
         | None => NaN
         end
  end.

(** Digits, a fraction and an exponent, with a digit before or after the
    point: mantissa and exponent. *)
Definition decimal_literal (s : string) : option (Z * Z) :=
  let '(whole, n_whole, s1) := read_digits s 0 0 in
  let '(mantissa, n_fraction, s2) :=
    match s1 with
    | String c rest =>
        if Ascii.eqb c "." then read_digits rest whole 0
        else (whole, 0%nat, s1)
    | EmptyString => (whole, 0%nat, s1)
    end in
  if (n_whole + n_fraction =? 0)%nat then None
  else
    match s2 with
    | EmptyString => Some (mantissa, - Z.of_nat n_fraction)
    | String c rest =>
        if Ascii.eqb c "e" || Ascii.eqb c "E" then
          let '(minus, rest') :=
            match rest with
            | String sign r =>
                if Ascii.eqb sign "-" then (true, r)
                else if Ascii.eqb sign "+" then (false, r)
                else (false, rest)
            | EmptyString => (false, rest)
            end in
          let '(e, n_e, s3) := read_digits rest' 0 0 in
          match n_e, s3 with
          | S _, EmptyString =>
              Some (mantissa, (if minus then - e else e) - Z.of_nat n_fraction)
          | _, _ => None
          end
        else None
    end.

Definition signed_literal (negative : bool) (s : string) : jsnumber :=
  if String.eqb s "Infinity" then Infinity negative
  else match decimal_literal s with
       | Some (mantissa, exponent) =>
           decimal_to_double negative mantissa exponent
       | None => NaN
       end.

(** The number a string stands for: white space around it is dropped,
    the empty text is 0, a radix prefix takes no sign. *)
Definition string_to_number (s : string) : jsnumber :=
  let text := trim_end (trim_start s) in
  match text with
  | EmptyString => Double false 0 0
  | String c rest =>
      if Ascii.eqb c "0" then
        match rest with
        | String r digits =>
            if Ascii.eqb r "x" || Ascii.eqb r "X" then radix_literal 16 digits
            else if Ascii.eqb r "o" || Ascii.eqb r "O" then radix_literal 8 digits
            else if Ascii.eqb r "b" || Ascii.eqb r "B" then radix_literal 2 digits
            else signed_literal false text
        | EmptyString => signed_literal false text
        end
      else if Ascii.eqb c "-" then signed_literal true rest
      else if Ascii.eqb c "+" then signed_literal false rest
      else signed_literal false text
  end.

(** [Number(v)] *)
Definition Number (v : jsvalue) : jsnumber :=
  match v with
  | JUndefined => NaN
  | JNull => Double false 0 0
  | JString s => string_to_number s
  end.

(** The text of a list of decimal digits, and the integer it spells. *)
Definition digit_char (d : Z) : ascii := ascii_of_nat (48 + Z.to_nat d).

Fixpoint digits_text (ds : list Z) : string :=
  match ds with
  | [] => EmptyString
  | d :: rest => String (digit_char d) (digits_text rest)
  end.

Definition digits_value (ds : list Z) : Z :=
  fold_left (fun acc d => 10 * acc + d) ds 0.

(** The characters that the texts of numbers are made of: white space,
    the digits of the radixes up to sixteen, and the other characters of
    the prefixes, of the point, of the signs and of the word Infinity. *)
Definition numeric_char (c : ascii) : bool :=
  let n := Z.of_nat (nat_of_ascii c) in
  is_space c
  || Buffer.between 48 57 n || Buffer.between 97 102 n
  || Buffer.between 65 70 n
  || existsb (Ascii.eqb c)
       ["x"; "X"; "o"; "O"; "."; "+"; "-"; "I"; "n"; "i"; "t"; "y"]%char.

(** [x > 0] on numbers: false on NaN. *)
Definition gt0 (x : jsnumber) : bool :=
  match x with
  | NaN => false
  | Infinity negative => negb negative
  | Double negative mantissa _ => negb negative && (0 <? mantissa)
  end.

Definition show_Z (n : Z) : string :=
  DecimalString.NilZero.string_of_int (Z.to_int n).

Definition show_nat (n : nat) : string := show_Z (Z.of_nat n).

(** A value inside a template literal. *)
Definition show_jsvalue (v : jsvalue) : string :=
  match v with
  | JUndefined => "undefined"
  | JNull => "null"
  | JString s => s
  end.

Definition newline : string := String (ascii_of_nat 10) EmptyString.

(** [s.split(',')] for a one-character separator. *)
Fixpoint split (sep : ascii) (s : string) : list string :=
  match s with
  | EmptyString => [EmptyString]
  | String c rest =>
      if Ascii.eqb c sep then EmptyString :: split sep rest
      else match split sep rest with
           | hd :: tl => String c hd :: tl
           | [] => [String c EmptyString]
           end
  end.

(** [arr.includes(x)] on strings. *)
Definition includes (x : string) (arr : list string) : bool :=
  existsb (String.eqb x) arr.

(** [arr.slice(b, e)] for indices that are not negative. *)
Definition slice {A} (b e : nat) (l : list A) : list A :=
  firstn (e - b) (skipn b l).

(** [arr.filter((x, index) => f x index)] *)
Fixpoint filter_from {A} (f : A -> nat -> bool) (index : nat) (l : list A)
  : list A :=
  match l with
  | [] => []
  | x :: rest =>
      if f x index then x :: filter_from f (S index) rest
      else filter_from f (S index) rest
  end.

Definition filter_index {A} (f : A -> nat -> bool) (l : list A) : list A :=
  filter_from f 0%nat l.

(** *** The mirror node *)

(** The fee schedule of a token description.  The script only asks whether
    each field is there: an array counts as true even when it is empty. *)
Record custom_fees_json := {
  royalty_fees : option (list Z);
  fixed_fees : option (list Z)
}.

(** The fields of a token description that [getTokenDetails] copies. *)
Record token_details := {
  symbol : string;
  name : string;
  max_supply : jsvalue;
  type : string;
  custom_fees : option custom_fees_json;
  memo : string
}.

(** One entry of a page of NFTs; the metadata is base64 text. *)
Record nft := {
  serial_number : Z;
  nft_metadata : string;
  deleted : bool
}.

(** A page: its entries and [links.next], [None] for [null]. *)
Record nfts_page := {
  nfts : list nft;
  links_next : option string
}.

(** *** The ledger client *)

Inductive token_supply_type := Finite | Infinite.

(** A royalty fee; a field is [None] until its setter is called. *)
Record custom_royalty_fee := {
  numerator : option Z;
  denominator : option Z;
  feeCollectorAccountId : option string;
  fallbackFee : option Z
}.

Record token_create_transaction := {
  tokenName : string;
  tokenSymbol : string;
  tokenMemo : string;
  initialSupply : Z;
  treasuryAccountId : string;
  autoRenewAccountId : string;
  supplyKey : string;
  create_maxTransactionFee : Z;
  maxSupply : option jsnumber;
  supplyType : token_supply_type;
  customFees : list custom_royalty_fee
}.

Record token_mint_transaction := {
  mint_tokenId : string;
  mint_metadata : list Buffer.bytes;
  mint_maxTransactionFee : Z;
  mint_signer : string
}.

Record token_burn_transaction := {
  burn_tokenId : string;
  burn_serials : list Z;
  burn_signer : string
}.

(** *** What the script does, in order *)

Inductive event :=
| ConsoleLog (line : string)
| ConsoleError (line : string)
| SaveKeyToFile (tokens : list string) (key : string)
| MirrorGet (url : string)
| TokenCreate (tx : token_create_transaction)
| TokenMint (tx : token_mint_transaction)
| TokenBurn (tx : token_burn_transaction).

Definition history := list event.

(** Answer of the mirror node to one request. *)
Inductive response (A : Type) :=
| Failed (err : string)
| Replied (data : A).
Arguments Failed {A} err.
Arguments Replied {A} data.

(** Fate of one transaction: signing or submission rejects, the receipt
    query rejects, or a receipt comes back. *)
Inductive submitted (R : Type) :=
| ExecuteRejected (err : string)
| ReceiptRejected (err : string)
| Receipt (r : R).
Arguments ExecuteRejected {R} err.
Arguments ReceiptRejected {R} err.
Arguments Receipt {R} r.

Record mint_receipt := { receipt_serials : list Z }.

(** The outside world: every answer may depend on all that happened
    before the request.  The last three fields belong to the ledger's
    library: the texts for which [AccountId.fromString] and
    [PrivateKey.fromStringED25519] return rather than throw, and the key
    that [PrivateKey.generate] makes. *)
Record world := {
  get_token : history -> string -> response token_details;
  get_nfts : history -> string -> response nfts_page;
  create_token : history -> token_create_transaction -> submitted string;
  mint_token : history -> token_mint_transaction -> submitted mint_receipt;
  burn_token : history -> token_burn_transaction -> submitted string;
  accepts_account_id : string -> bool;
  accepts_private_key : string -> bool;
  generated_key : string
}.

Record environment := {
  ACCOUNT_ID : option string;
  PRIVATE_KEY : option string;
  SUPPLY_KEY_env : option string
}.

(** Truth value of an environment variable: unset and empty are false. *)
Definition truthy (v : option string) : bool :=
  match v with
  | Some s => negb (String.eqb s "")
  | None => false
  end.

Definition MIRROR_NODE : string := "https://mainnet-public.mirrornode.hedera.com".
Definition MAX_TX_FEE : Z := 80.
Definition batchSize : nat := 10.

Definition testnetOperatorId (env : environment) : string :=
  match ACCOUNT_ID env with Some a => a | None => "" end.

Definition SUPPLY_KEY (w : world) (env : environment) : string :=
  match SUPPLY_KEY_env env with
  | Some k => if truthy (Some k) then k else generated_key w
  | None => generated_key w
  end.

(* ===================================================================== *)
(** ** The monad of the script                                            *)
(* ===================================================================== *)

Inductive error :=
| TypeError (msg : string)
| Error (msg : string)
| Rejection (msg : string).

Definition show_error (e : error) : string :=
  match e with
  | TypeError msg => "TypeError: " +++ msg
  | Error msg => "Error: " +++ msg
  | Rejection msg => msg
  end.

(** How a computation ends: with a value, with an exception on its way up,
    with [process.exit], or still running when the fuel of the
    pagination loop is spent. *)
Inductive outcome (A : Type) :=
| Done (a : A)
| Thrown (e : error)
| Exited (code : Z)
| OutOfFuel.
Arguments Done {A} a.
Arguments Thrown {A} e.
Arguments Exited {A} code.
Arguments OutOfFuel {A}.

Definition M (A : Type) : Type := history -> outcome A * history.

Definition ret {A} (a : A) : M A := fun h => (Done a, h).

Definition bind {A B} (m : M A) (k : A -> M B) : M B :=
  fun h =>
    match m h with
    | (Done a, h') => k a h'
    | (Thrown e, h') => (Thrown e, h')
    | (Exited c, h') => (Exited c, h')
    | (OutOfFuel, h') => (OutOfFuel, h')
    end.

Notation "x <- m ;; k" := (bind m (fun x => k))
  (at level 61, m at next level, right associativity).
Notation "m ;; k" := (bind m (fun _ => k))
  (at level 61, right associativity).

Definition throw {A} (e : error) : M A := fun h => (Thrown e, h).
Definition process_exit {A} (code : Z) : M A := fun h => (Exited code, h).
Definition out_of_fuel {A} : M A := fun h => (OutOfFuel, h).
Definition emit (e : event) : M unit := fun h => (Done tt, h ++ [e]).
Definition console_log (line : string) : M unit := emit (ConsoleLog line).
Definition console_error (line : string) : M unit := emit (ConsoleError line).

(** A request is recorded, then answered from the history before it. *)
Definition ask {A} (e : event) (answer : history -> A) : M A :=
  fun h => (Done (answer h), h ++ [e]).

(* ===================================================================== *)
(** ** The script                                                         *)
(* ===================================================================== *)

(** *** [saveKeyToFile] *)

(** The file is written behind the script's back; what counts here is that
    the call is made, and with which token list.  The lines that the
    callbacks of the write and of the read print once the file system has
    answered, at a time that the script does not control, are not part of
    the history. *)
Definition saveKeyToFile (w : world) (env : environment) (tokens : list string)
  : M unit :=
  emit (SaveKeyToFile tokens (SUPPLY_KEY w env)).

(** *** [getTokenDetails] *)

Definition getTokenDetails (w : world) (_tokenId : string)
  : M (option token_details) :=
  let url := MIRROR_NODE +++ "/api/v1/tokens/" +++ _tokenId in
  r <- ask (MirrorGet url) (fun h => get_token w h url) ;;
  match r with
  | Replied jsonResponse =>
      ret (Some {| symbol := symbol jsonResponse;
                   name := name jsonResponse;
                   max_supply := max_supply jsonResponse;
                   type := type jsonResponse;
                   custom_fees := custom_fees jsonResponse;
                   memo := memo jsonResponse |})
  | Failed err => console_error err ;; ret None
  end.

(** *** The token-creation request *)

Definition royalty_part (env : environment) (cf : custom_fees_json)
  : option custom_royalty_fee :=
  match royalty_fees cf with
  | Some _ =>
      Some {| numerator := Some 1; denominator := Some 100;
              feeCollectorAccountId := Some (testnetOperatorId env);
              fallbackFee := None |}
  | None => None
  end.

Definition fixed_part (env : environment) (cf : custom_fees_json)
  (fee : option custom_royalty_fee) : option custom_royalty_fee :=
  match fixed_fees cf with
  | Some _ =>
      let fee' :=
        match fee with
        | Some f => f
        | None => {| numerator := None; denominator := None;
                     feeCollectorAccountId := Some (testnetOperatorId env);
                     fallbackFee := None |}
        end in
      Some {| numerator := numerator fee'; denominator := denominator fee';
              feeCollectorAccountId := feeCollectorAccountId fee';
              fallbackFee := Some 1 |}
  | None => fee
  end.

Definition migrated_fees (env : environment) (cf : option custom_fees_json)
  : list custom_royalty_fee :=
  match cf with
  | Some cf =>
      match fixed_part env cf (royalty_part env cf) with
      | Some fee => [fee]
      | None => []
      end
  | None => []
  end.

Definition tokenCreateTx (w : world) (env : environment)
  (tokenDetails : token_details) : token_create_transaction :=
  let supply := Number (max_supply tokenDetails) in
  {| tokenName := name tokenDetails;
     tokenSymbol := symbol tokenDetails;
     tokenMemo := memo tokenDetails;
     initialSupply := 0;
     treasuryAccountId := testnetOperatorId env;
     autoRenewAccountId := testnetOperatorId env;
     supplyKey := SUPPLY_KEY w env;
     create_maxTransactionFee := MAX_TX_FEE;
     maxSupply := if gt0 supply then Some supply else None;
     supplyType := if gt0 supply then Finite else Infinite;
     customFees := migrated_fees env (custom_fees tokenDetails) |}.

Definition execute_create (w : world) (tx : token_create_transaction)
  : M string :=
  r <- ask (TokenCreate tx) (fun h => create_token w h tx) ;;
  match r with
  | ExecuteRejected err => throw (Rejection err)
  | ReceiptRejected err =>
      console_log err ;; console_log "Token Create **FAILED*" ;;
      process_exit 1
  | Receipt tokenId => ret tokenId
  end.

(** *** The inventory: three arrays filled side by side *)

Record inventory := {
  serials : list Z;
  metadata : list Buffer.jsstring;
  deleteIds : list bool
}.

Definition empty_inventory : inventory :=
  {| serials := []; metadata := []; deleteIds := [] |}.

(** Body of [for (const nft of jsonResponse.nfts)]. *)
Definition push_nft (inv : inventory) (n : nft) : inventory :=
  {| serials := serials inv ++ [serial_number n];
     metadata := metadata inv
                 ++ [Buffer.to_utf8_string (Buffer.from_base64 (nft_metadata n))];
     deleteIds := deleteIds inv ++ [deleted n] |}.

(** One turn of the [do ... while (route != null)] loop: the value of
    [route] after it, and the arrays. *)
Definition fetch_page (w : world) (route : string) (inv : inventory)
  : M (option string * inventory) :=
  let url := MIRROR_NODE +++ route in
  r <- ask (MirrorGet url) (fun h => get_nfts w h url) ;;
  match r with
  | Replied jsonResponse =>
      ret (links_next jsonResponse, fold_left push_nft (nfts jsonResponse) inv)
  | Failed err => console_error err ;; ret (Some route, inv)
  end.

Fixpoint fetch_loop (fuel : nat) (w : world) (route : string) (inv : inventory)
  : M inventory :=
  match fuel with
  | O => out_of_fuel
  | S fuel' =>
      s <- fetch_page w route inv ;;
      match s with
      | (Some route', inv') => fetch_loop fuel' w route' inv'
      | (None, inv') => ret inv'
      end
  end.

Definition reverse_all (inv : inventory) : inventory :=
  {| serials := rev (serials inv);
     metadata := rev (metadata inv);
     deleteIds := rev (deleteIds inv) |}.

(** *** Minting in batches *)

(** [for (let j = i; j < i + batchSize && j < serials.length; j++)]: the
    payloads added to the mint request so far; [metadata[j]] out of range
    is [undefined], which [Buffer.from] refuses. *)
Equations? addMetadata (inv : inventory) (i j : nat) (acc : list Buffer.bytes)
  : option (list Buffer.bytes) by wf (i + batchSize - j)%nat lt :=
  addMetadata inv i j acc with lt_dec j (i + batchSize) => {
    | left _ with lt_dec j (List.length (serials inv)) => {
        | left _ with nth_error (metadata inv) j => {
            | Some m :=
                addMetadata inv i (S j) (acc ++ [Buffer.from_string m]);
            | None := None };
        | right _ := Some acc };
    | right _ := Some acc }.
Proof. lia. Qed.

Definition execute_mint (w : world) (tx : token_mint_transaction)
  : M mint_receipt :=
  r <- ask (TokenMint tx) (fun h => mint_token w h tx) ;;
  match r with
  | ExecuteRejected err => throw (Rejection err)
  | ReceiptRejected err =>
      console_log err ;; console_log "Token Mint **FAILED**" ;;
      process_exit 1
  | Receipt mintReceipt => ret mintReceipt
  end.

Definition execute_burn (w : world) (tx : token_burn_transaction)
  : M string :=
  r <- ask (TokenBurn tx) (fun h => burn_token w h tx) ;;
  match r with
  | ExecuteRejected err => throw (Rejection err)
  | ReceiptRejected err =>
      console_log err ;; console_log "Token Burn **FAILED**" ;;
      process_exit 1
  | Receipt status => ret status
  end.

(** The serials handed to the burn request of the batch that starts at
    [i]. *)
Definition toDelete (inv : inventory) (i : nat) : list Z :=
  let deleteSlice := slice i (i + batchSize) (deleteIds inv) in
  let serialSlice := slice i (i + batchSize) (serials inv) in
  filter_index (fun _ index => nth index deleteSlice false) serialSlice.

(** Body of the outer loop, for the batch that starts at [i]. *)
Definition mint_batch (w : world) (env : environment) (newToken : string)
  (inv : inventory) (i : nat) : M unit :=
  match addMetadata inv i i [] with
  | None =>
      throw (TypeError "The first argument must be of type string or an instance of Buffer, ArrayBuffer, or Array or an Array-like Object. Received undefined")
  | Some payloads =>
      mintReceipt <-
        execute_mint w {| mint_tokenId := newToken;
                          mint_metadata := payloads;
                          mint_maxTransactionFee := MAX_TX_FEE;
                          mint_signer := SUPPLY_KEY w env |} ;;
      console_log ("Minted "
                   +++ show_nat (List.length (receipt_serials mintReceipt))
                   +++ " NFTs") ;;
      let toDelete := toDelete inv i in
      if (0 <? List.length toDelete)%nat then
        status <-
          execute_burn w {| burn_tokenId := newToken;
                            burn_serials := toDelete;
                            burn_signer := SUPPLY_KEY w env |} ;;
        console_log ("Burnt " +++ show_nat (List.length toDelete) +++ " NFTs ["
                     +++ String.concat ", " (map show_Z toDelete)
                     +++ "]: " +++ status)
      else ret tt
  end.

(** [for (let i = 0; i < serials.length; i += batchSize)] *)
Equations? mint_loop (w : world) (env : environment) (newToken : string)
  (inv : inventory) (i : nat) (h : history)
  : outcome unit * history by wf (List.length (serials inv) - i)%nat lt :=
  mint_loop w env newToken inv i h with lt_dec i (List.length (serials inv)) => {
    | left _ with mint_batch w env newToken inv i h => {
        | (Done _, h') := mint_loop w env newToken inv (i + batchSize) h';
        | (Thrown e, h') := (Thrown e, h');
        | (Exited c, h') := (Exited c, h');
        | (OutOfFuel, h') := (OutOfFuel, h') };
    | right _ := (Done tt, h) }.
Proof. unfold batchSize. lia. Qed.

(** *** One token, then all of them *)

Definition migrated_line (token newToken : string) : string :=
  "Mainnet Token " +++ token +++ " migrated to Testnet " +++ newToken.

(** Body of [for (const token of tokenList)]; the result is [strOutput]
    after it. *)
Definition migrate_token (fuel : nat) (w : world) (env : environment)
  (token : string) (strOutput : list string) : M (list string) :=
  tokenDetails <- getTokenDetails w token ;;
  match tokenDetails with
  | None =>
      console_error ("Token " +++ token +++ " not found on mirror node") ;;
      ret strOutput
  | Some tokenDetails =>
      if negb (String.eqb (type tokenDetails) "NON_FUNGIBLE_UNIQUE") then
        console_error ("Token " +++ token
          +++ " is not an NFT. Only NFTs are not supported for migration") ;;
        ret strOutput
      else
        console_log ("Migrating token " +++ token
          +++ " named " +++ name tokenDetails
          +++ " with symbol " +++ symbol tokenDetails
          +++ " and supply " +++ show_jsvalue (max_supply tokenDetails)) ;;
        newToken <- execute_create w (tokenCreateTx w env tokenDetails) ;;
        console_log ("Token " +++ token +++ " created with ID " +++ newToken) ;;
        inv <- fetch_loop fuel w
                 ("/api/v1/tokens/" +++ token +++ "/nfts?limit=100")
                 empty_inventory ;;
        console_log ("Found " +++ show_nat (List.length (serials inv))
                     +++ " NFTs to migrate") ;;
        mint_loop w env newToken (reverse_all inv) 0 ;;
        ret (strOutput ++ [migrated_line token newToken])
  end.

Fixpoint migrate_tokens (fuel : nat) (w : world) (env : environment)
  (tokenList : list string) (strOutput : list string) : M (list string) :=
  match tokenList with
  | [] => ret strOutput
  | token :: rest =>
      strOutput' <- migrate_token fuel w env token strOutput ;;
      migrate_tokens fuel w env rest strOutput'
  end.

(** *** [main] and the top level *)

(** What [main] does once [tokenList] is known to be non-empty. *)
Definition migration (fuel : nat) (w : world) (env : environment)
  (tokenList : list string) : M unit :=
  (if negb (truthy (SUPPLY_KEY_env env)) then
     console_log "No supply key provided. Generating a new one and saving it to file" ;;
     saveKeyToFile w env tokenList
   else ret tt) ;;
  strOutput <- migrate_tokens fuel w env tokenList [] ;;
  console_log "Migration complete" ;;
  console_log (String.concat newline strOutput).

Definition main (fuel : nat) (w : world) (env : environment)
  (argv : list string) : M unit :=
  if includes "-h" argv then
    console_log "Usage: node migrateToken.js <tokenList>" ;;
    console_log "tokenList: a comma separated list of token IDs to migrate to testnet"
  else
    match nth_error argv 2 with
    | None =>
        throw (TypeError "Cannot read properties of undefined (reading 'split')")
    | Some arg =>
        let tokenList := split "," arg in
        if (List.length tokenList =? 0)%nat then throw (Error "Token list is empty")
        else migration fuel w env tokenList
    end.

(** Where the process stands when the script has nothing left to run: it
    has ended with a status, after a failure that nobody caught or a call
    of [process.exit]; or [main] has settled and the process lives on, held
    by the ledger client, since nothing in the script ends it; or the
    pagination loop is still turning when the fuel is spent. *)
Inductive ending :=
| Exits (code : Z)
| StaysAlive
| Unfinished.

(** Lines 19 to 24: both operator variables are set, and the library reads
    the account and the key they hold. *)
Definition operator_accepted (w : world) (env : environment) : bool :=
  match ACCOUNT_ID env, PRIVATE_KEY env with
  | Some account, Some key =>
      accepts_account_id w account && accepts_private_key w key
  | _, _ => false
  end.

(** Line 32: a supply key from the environment is read by the library; a
    generated one needs no reading. *)
Definition supply_key_accepted (w : world) (env : environment) : bool :=
  match SUPPLY_KEY_env env with
  | Some key => if truthy (Some key) then accepts_private_key w key else true
  | None => true
  end.

(** The process: how it ends and what it did.  A missing operator variable
    is thrown at the top level, and so is an account or a key that the
    library does not read: nobody catches these, and the process ends with
    status 1 before [main] is called.  A failure of [main] is caught by the
    handler attached to it, which prints it. *)
Definition script (fuel : nat) (w : world) (env : environment)
  (argv : list string) : ending * history :=
  if operator_accepted w env && supply_key_accepted w env then
    match main fuel w env argv [] with
    | (Done _, h) => (StaysAlive, h)
    | (Thrown err, h) => (StaysAlive, h ++ [ConsoleError (show_error err)])
    | (Exited code, h) => (Exits code, h)
    | (OutOfFuel, h) => (Unfinished, h)
    end
  else (Exits 1, []).

(* ===================================================================== *)
(** ** Reading a history                                                  *)
(* ===================================================================== *)

Fixpoint mint_requests (h : history) : list token_mint_transaction :=
  match h with
  | [] => []
  | TokenMint tx :: rest => tx :: mint_requests rest
  | _ :: rest => mint_requests rest
  end.

Fixpoint burn_requests (h : history) : list token_burn_transaction :=
  match h with
  | [] => []
  | TokenBurn tx :: rest => tx :: burn_requests rest
  | _ :: rest => burn_requests rest
  end.

Fixpoint mirror_requests (h : history) : list string :=
  match h with
  | [] => []
  | MirrorGet url :: rest => url :: mirror_requests rest
  | _ :: rest => mirror_requests rest
  end.

(** The payload lists of the mint requests, in the order they were sent. *)
Definition minted_batches (h : history) : list (list Buffer.bytes) :=
  map mint_metadata (mint_requests h).

Definition is_ledger_event (e : event) : bool :=
  match e with
  | TokenCreate _ | TokenMint _ | TokenBurn _ => true
  | _ => false
  end.

(** A computation only ever adds to the history. *)
Definition extends {A} (m : M A) : Prop :=
  forall h, exists h', snd (m h) = h ++ h'.

(* ===================================================================== *)
(** ** Notions the specification speaks of                                *)
(* ===================================================================== *)

(** The arrays that hold the records [rs], one entry per record. *)
Definition stored (rs : list nft) : inventory :=
  {| serials := map serial_number rs;
     metadata :=
       map (fun n => Buffer.to_utf8_string (Buffer.from_base64 (nft_metadata n)))
           rs;
     deleteIds := map deleted rs |}.

(** [tracks inv rs]: the script has brought the three arrays to [inv], and
    the source NFTs they stand for are, in the order of the arrays, [rs].
    The arrays start empty, one record at a time is pushed, and they are
    reversed. *)
Inductive tracks : inventory -> list nft -> Prop :=
| tracks_empty : tracks empty_inventory []
| tracks_push inv rs n : tracks inv rs -> tracks (push_nft inv n) (rs ++ [n])
| tracks_reverse inv rs : tracks inv rs -> tracks (reverse_all inv) (rev rs).

(** The records of a page, none when the request failed. *)
Definition page_records (r : response nfts_page) : list nft :=
  match r with
  | Replied jsonResponse => nfts jsonResponse
  | Failed _ => []
  end.

(** The entries of [xs] at the positions where [flags] is true. *)
Definition at_flagged_positions {A} (xs : list A) (flags : list bool)
  : list A :=
  map fst (filter snd (combine xs flags)).

(** The ledger never refuses a mint or a burn. *)
Definition always_receipts (w : world) : Prop :=
  (forall h tx, exists r, mint_token w h tx = Receipt r)
  /\ (forall h tx, exists r, burn_token w h tx = Receipt r).

(** The page behind [url] cannot be fetched, whenever it is asked for. *)
Definition page_always_fails (w : world) (url : string) : Prop :=
  forall h, exists err, get_nfts w h url = Failed err.

(** Code points of the two-, three- and four-byte forms, and the bounds on
    the second byte that go with the first. *)
Definition cp2 (b0 b1 : Z) : Z := (b0 mod 32) * 64 + b1 mod 64.
Definition cp3 (b0 b1 b2 : Z) : Z :=
  ((b0 mod 16) * 64 + b1 mod 64) * 64 + b2 mod 64.
Definition cp4 (b0 b1 b2 b3 : Z) : Z :=
  (((b0 mod 8) * 64 + b1 mod 64) * 64 + b2 mod 64) * 64 + b3 mod 64.
Definition lead3_lo (b0 : Z) : Z := if b0 =? 224 then 160 else 128.
Definition lead3_hi (b0 : Z) : Z := if b0 =? 237 then 159 else 191.
Definition lead4_lo (b0 : Z) : Z := if b0 =? 240 then 144 else 128.
Definition lead4_hi (b0 : Z) : Z := if b0 =? 244 then 143 else 191.

(* ===================================================================== *)
(** ** Requests and batches, named                                        *)
(* ===================================================================== *)

(** The text of one record's metadata, as the arrays hold it. *)
Definition decoded (n : nft) : Buffer.jsstring :=
  Buffer.to_utf8_string (Buffer.from_base64 (nft_metadata n)).

(** The mint request that [mint_batch] builds around [payloads]. *)
Definition mint_request (w : world) (env : environment) (newToken : string)
  (payloads : list Buffer.bytes) : token_mint_transaction :=
  {| mint_tokenId := newToken; mint_metadata := payloads;
     mint_maxTransactionFee := MAX_TX_FEE; mint_signer := SUPPLY_KEY w env |}.

(** The burn request that [mint_batch] builds around [burnt]. *)
Definition burn_request (w : world) (env : environment) (newToken : string)
  (burnt : list Z) : token_burn_transaction :=
  {| burn_tokenId := newToken; burn_serials := burnt;
     burn_signer := SUPPLY_KEY w env |}.

(** Payloads of the batch that starts at [i], when the arrays are as long
    as each other. *)
Definition batch_payloads (inv : inventory) (i : nat) : list Buffer.bytes :=
  map Buffer.from_string (slice i (i + batchSize) (metadata inv)).

(** Burn requests of the batch that starts at [i]: one, or none. *)
Definition batch_burns (w : world) (env : environment) (newToken : string)
  (inv : inventory) (i : nat) : list token_burn_transaction :=
  if (0 <? List.length (toDelete inv i))%nat
  then [burn_request w env newToken (toDelete inv i)] else [].

(** Values taken by [i]: 0, 10, 20, ... below the number of records. *)
Definition batch_starts (n : nat) : list nat :=
  map (fun k => (batchSize * k)%nat) (seq 0 ((n + 9) / 10)).

(** The same, for a loop that is already at [i]. *)
Definition starts_from (n i : nat) : list nat :=
  map (fun k => (i + batchSize * k)%nat) (seq 0 ((n - i + 9) / 10)).

(* ===================================================================== *)
(** ** Concrete worlds                                                    *)
(* ===================================================================== *)

Module Scenario.

Local Open Scope string_scope.

Fixpoint lookup {A} (key : string) (table : list (string * A)) : option A :=
  match table with
  | [] => None
  | (k, v) :: rest => if String.eqb k key then Some v else lookup key rest
  end.

Fixpoint minted_before (tokenId : string) (h : history) : nat :=
  match h with
  | [] => 0
  | TokenMint tx :: rest =>
      ((if String.eqb (mint_tokenId tx) tokenId
        then List.length (mint_metadata tx) else 0)
       + minted_before tokenId rest)%nat
  | _ :: rest => minted_before tokenId rest
  end.

(** Three ED25519 private keys in the text form that the library prints
    and reads. *)
Definition operator_key : string :=
  "302e020100300506032b657004220420db484b828e64b2d8f12ce3c0a0e93a0b8cce7af1bb8f39c97732394482538e10".
Definition supply_key : string :=
  "302e020100300506032b6570042204208776c6b831a1b61ac10dac0304a2843de4716f54b1919bb91a2685d0fe3f3048".
Definition fresh_key : string :=
  "302e020100300506032b65700422042091132178e72057a1d7528025956fe39b0b847f200ab59b2fdd367017f3087137".

(** A mirror node that serves fixed tables and a ledger that numbers the
    NFTs of each token 1, 2, 3, ... in the order they are minted, and that
    names the tokens it creates 0.0.1001, 0.0.1002, ...  Its library reads
    the account 0.0.2 and the first two of the keys above. *)
Definition table_world (tokens : list (string * token_details))
  (pages : list (string * nfts_page)) : world :=
  {| get_token := fun _ url =>
       match lookup url tokens with
       | Some d => Replied d
       | None => Failed "Request failed with status code 404"%string
       end;
     get_nfts := fun _ url =>
       match lookup url pages with
       | Some p => Replied p
       | None => Failed "Request failed with status code 404"%string
       end;
     create_token := fun h _ =>
       Receipt ("0.0." +++
         show_nat (1001 + List.length (filter is_ledger_event h)));
     mint_token := fun h tx =>
       Receipt {| receipt_serials :=
         map Z.of_nat
           (seq (S (minted_before (mint_tokenId tx) h))
                (List.length (mint_metadata tx))) |};
     burn_token := fun _ _ => Receipt "SUCCESS"%string;
     accepts_account_id := fun text => String.eqb text "0.0.2";
     accepts_private_key := fun text =>
       String.eqb text operator_key || String.eqb text supply_key;
     generated_key := fresh_key |}.

Definition offline : world := table_world [] [].

Definition env : environment :=
  {| ACCOUNT_ID := Some "0.0.2";
     PRIVATE_KEY := Some operator_key;
     SUPPLY_KEY_env := Some supply_key |}.

Definition foo : token_details :=
  {| symbol := "FOO"; name := "Foo"; max_supply := JString "0";
     type := "NON_FUNGIBLE_UNIQUE"; custom_fees := None; memo := "" |}.

Definition token_url (token : string) : string :=
  MIRROR_NODE +++ "/api/v1/tokens/" +++ token.

Definition nfts_url (token : string) : string :=
  MIRROR_NODE +++ "/api/v1/tokens/" +++ token +++ "/nfts?limit=100".

(** Token 0.0.111 of the specification's scenario: no NFT at all. *)
Definition empty_collection : world :=
  table_world [(token_url "0.0.111", foo)]
    [(nfts_url "0.0.111", {| nfts := []; links_next := None |})].

(** A collection whose only NFT carries serial 7 and was deleted. *)
Definition lone_deleted : nft :=
  {| serial_number := 7; nft_metadata := "aGVsbG8="; deleted := true |}.

Definition one_deleted : world :=
  table_world [(token_url "0.0.111", foo)]
    [(nfts_url "0.0.111", {| nfts := [lone_deleted]; links_next := None |})].

(** An NFT whose metadata is the single byte 0xFF. *)
Definition binary_nft : nft :=
  {| serial_number := 1; nft_metadata := "/w=="; deleted := false |}.

(** Twenty-five NFTs, serials 25 down to 1, none deleted. *)
Definition numbered (k : nat) : nft :=
  {| serial_number := Z.of_nat k; nft_metadata := "aGVsbG8=";
     deleted := false |}.

Definition twenty_five : list nft := map numbered (rev (seq 1 25)).



(** The same world, except that every token created gets the name [id]. *)
Definition issuing (id : string) (w : world) : world :=
  {| get_token := get_token w;
     get_nfts := get_nfts w;
     create_token := fun _ _ => Receipt id;
     mint_token := mint_token w;
     burn_token := burn_token w;
     accepts_account_id := accepts_account_id w;
     accepts_private_key := accepts_private_key w;
     generated_key := generated_key w |}.

(** Command lines: without an argument, and with a token list. *)
Definition argv_bare : list string := ["node"; "migrateToken.js"].

Definition argv_with (tokenList : string) : list string :=
  ["node"; "migrateToken.js"; tokenList].

(** An environment without a supply key. *)
Definition env_without_key : environment :=
  {| ACCOUNT_ID := Some "0.0.2";
     PRIVATE_KEY := Some operator_key;
     SUPPLY_KEY_env := None |}.

(** An environment whose operator key is cut short. *)
Definition env_with_short_key : environment :=
  {| ACCOUNT_ID := Some "0.0.2";
     PRIVATE_KEY := Some "302e020100300506032b6570";
     SUPPLY_KEY_env := Some supply_key |}.

(** The same world, except that every creation request is answered with
    [answer]. *)
Definition answering (answer : submitted string) (w : world) : world :=
  {| get_token := get_token w;
     get_nfts := get_nfts w;
     create_token := fun _ _ => answer;
     mint_token := mint_token w;
     burn_token := burn_token w;
     accepts_account_id := accepts_account_id w;
     accepts_private_key := accepts_private_key w;
     generated_key := generated_key w |}.

(** The same world, except that each page of NFTs fails the first [k] times
    it is asked for. *)
Definition flaky (k : nat) (w : world) : world :=
  {| get_token := get_token w;
     get_nfts := fun h url =>
       if (List.length (filter (String.eqb url) (mirror_requests h)) <? k)%nat
       then Failed "socket hang up"
       else get_nfts w h url;
     create_token := create_token w;
     mint_token := mint_token w;
     burn_token := burn_token w;
     accepts_account_id := accepts_account_id w;
     accepts_private_key := accepts_private_key w;
     generated_key := generated_key w |}.

(** Three NFTs on two pages, the second one deleted. *)
Definition third : nft :=
  {| serial_number := 3; nft_metadata := "Yw=="; deleted := false |}.
Definition second : nft :=
  {| serial_number := 2; nft_metadata := "Yg=="; deleted := true |}.
Definition first : nft :=
  {| serial_number := 1; nft_metadata := "YQ=="; deleted := false |}.

Definition next_route : string :=
  "/api/v1/tokens/0.0.111/nfts?limit=100&serialnumber=lt:2".

Definition newest_page : nfts_page :=
  {| nfts := [third; second]; links_next := Some next_route |}.
Definition oldest_page : nfts_page :=
  {| nfts := [first]; links_next := None |}.

Definition two_pages : world :=
  table_world [(token_url "0.0.111", foo)]
    [(nfts_url "0.0.111", newest_page);
     (MIRROR_NODE +++ next_route, oldest_page)].

(** The description [foo] with another maximal supply. *)
Definition capped (cap : string) : token_details :=
  {| symbol := "FOO"; name := "Foo"; max_supply := JString cap;
     type := "NON_FUNGIBLE_UNIQUE"; custom_fees := None; memo := "" |}.


End Scenario.

(* ===================================================================== *)
(** ** The key file                                                       *)
(* ===================================================================== *)

(** The name that [saveKeyToFile] gives to the file.  [iso] is the text
    that [toISOString] gives for the time of the call. *)

(** [s.replaceAll(from, to)] for one character. *)
Fixpoint replaceAll (from to : ascii) (s : string) : string :=
  match s with
  | EmptyString => EmptyString
  | String c rest =>
      String (if Ascii.eqb c from then to else c) (replaceAll from to rest)
  end.

(** [iso.split('.')[0].replaceAll(':', '-')] *)
Definition timestamp (iso : string) : string :=
  replaceAll ":" "-" (hd EmptyString (split "." iso)).

Definition filename (iso : string) : string :=
  "./migration-keys-" +++ timestamp iso +++ ".txt".

(** Whether a character occurs in a string. *)
Fixpoint occurs (c : ascii) (s : string) : bool :=
  match s with
  | EmptyString => false
  | String c' rest => Ascii.eqb c' c || occurs c rest
  end.

(* ===================================================================== *)
(** ** Properties of a whole run                                          *)
(* ===================================================================== *)

(** The lines printed before [process.exit(1)]. *)
Definition failure_line (line : string) : Prop :=
  line = "Token Create **FAILED*"%string
  \/ line = "Token Mint **FAILED**"%string
  \/ line = "Token Burn **FAILED**"%string.

(** How a computation may end, given what it added to the history: with a
    value that satisfies [V]; with the rejection of the ledger request that
    it has just sent; with status 1, having just printed an error and a
    failure line. *)
Definition ends_well {A} (V : A -> Prop) (o : outcome A) (evs : list event)
  : Prop :=
  match o with
  | Done a => V a
  | Thrown e =>
      exists msg pre request,
        e = Rejection msg /\ evs = pre ++ [request]
        /\ is_ledger_event request = true
  | Exited code =>
      code = 1
      /\ exists pre err line,
           evs = pre ++ [ConsoleLog err; ConsoleLog line] /\ failure_line line
  | OutOfFuel => True
  end.

(** [keeps P V m]: from any history, [m] adds events that all satisfy [P]
    and ends well. *)
Definition keeps {A} (P : event -> Prop) (V : A -> Prop) (m : M A) : Prop :=
  forall h, exists evs,
    snd (m h) = h ++ evs /\ Forall P evs /\ ends_well V (fst (m h)) evs.

Definition anything {A} (_ : A) : Prop := True.

(** What holds of every event of a migration, once the key is known. *)
Definition orderly (w : world) (env : environment) (e : event) : Prop :=
  match e with
  | SaveKeyToFile _ _ => False
  | TokenCreate tx =>
      initialSupply tx = 0
      /\ create_maxTransactionFee tx = MAX_TX_FEE
      /\ treasuryAccountId tx = testnetOperatorId env
      /\ autoRenewAccountId tx = testnetOperatorId env
      /\ supplyKey tx = SUPPLY_KEY w env
  | TokenMint tx =>
      (1 <= List.length (mint_metadata tx) <= batchSize)%nat
      /\ mint_maxTransactionFee tx = MAX_TX_FEE
      /\ mint_signer tx = SUPPLY_KEY w env
      /\ Forall (fun payload => Buffer.well_formed_utf8 payload = true)
                (mint_metadata tx)
  | TokenBurn tx =>
      (1 <= List.length (burn_serials tx) <= batchSize)%nat
      /\ burn_signer tx = SUPPLY_KEY w env
  | _ => True
  end.

(** Events after the creation of a token: orderly, and no creation. *)
Definition routine (w : world) (env : environment) (e : event) : Prop :=
  match e with
  | TokenCreate _ => False
  | _ => orderly w env e
  end.

(** Events of a run: orderly, or the saving of a generated key. *)
Definition expected (w : world) (env : environment) (e : event) : Prop :=
  orderly w env e
  \/ (truthy (SUPPLY_KEY_env env) = false
      /\ exists tokens, e = SaveKeyToFile tokens (generated_key w)).

(** The shape shared by the three submissions to the ledger. *)
Definition submit {R} (request : event) (answer : history -> submitted R)
  (line : string) : M R :=
  r <- ask request answer ;;
  match r with
  | ExecuteRejected err => throw (Rejection err)
  | ReceiptRejected err =>
      console_log err ;; console_log line ;; process_exit 1
  | Receipt x => ret x
  end.

(** [main] after the key has been dealt with. *)
Definition epilogue (fuel : nat) (w : world) (env : environment)
  (tokenList : list string) : M unit :=
  strOutput <- migrate_tokens fuel w env tokenList [] ;;
  console_log "Migration complete" ;;
  console_log (String.concat newline strOutput).

(** What [main] does first when it generates the key. *)
Definition key_notice (tokenList : list string) (key : string) : list event :=
  [ConsoleLog "No supply key provided. Generating a new one and saving it to file";
   SaveKeyToFile tokenList key].

(** The line that announces the migration of a token. *)
Definition migrating_line (token : string) (d : token_details) : string :=
  "Migrating token " +++ token +++ " named " +++ name d
  +++ " with symbol " +++ symbol d
  +++ " and supply " +++ show_jsvalue (max_supply d).


(** *** Pagination *)

(** [served w route pages]: from [route] on, the mirror node serves
    [pages], each naming the route of the next and the last naming none. *)
Fixpoint served (w : world) (route : string) (pages : list nfts_page) : Prop :=
  match pages with
  | [] => False
  | page :: rest =>
      (forall h, get_nfts w h (MIRROR_NODE +++ route) = Replied page)
      /\ match rest with
         | [] => links_next page = None
         | _ :: _ =>
             exists route', links_next page = Some route' /\ served w route' rest
         end
  end.

(** The routes that the pages name as their successors. *)
Definition next_routes (pages : list nfts_page) : list string :=
  flat_map (fun page => match links_next page with
                        | Some route => [route]
                        | None => []
                        end) pages.

Definition page_requests (routes : list string) : list event :=
  map (fun route => MirrorGet (MIRROR_NODE +++ route)) routes.

(** What failed requests for [url] leave in the history. *)
Definition retries (url : string) (errs : list string) : list event :=
  flat_map (fun err => [MirrorGet url; ConsoleError err]) errs.

(** *** Counting creations *)

Definition is_creation (e : event) : bool :=
  match e with TokenCreate _ => true | _ => false end.

Definition creations (evs : list event) : nat :=
  List.length (filter is_creation evs).

(** [accounts m Q]: from any history, when [m] ends with a value, the value
    and the events added satisfy [Q]. *)
Definition accounts {A} (m : M A) (Q : A -> list event -> Prop) : Prop :=
  forall h, exists evs,
    snd (m h) = h ++ evs
    /\ forall a, fst (m h) = Done a -> Q a evs.

(** *** Decoded text *)

(** Code points that are not surrogates. *)
Definition scalar (cp : Z) : Prop :=
  0 <= cp < 55296 \/ 57344 <= cp < 1114112.

(** States of the UTF-8 decoder between two bytes: no sequence is open, or
    the bytes seen so far bound the code point that is being built. *)
Definition decoding (st : Buffer.utf8_state) : Prop :=
  let c := Buffer.code_point st in
  let lo := Buffer.lower_boundary st in
  let hi := Buffer.upper_boundary st in
  Buffer.bytes_needed st = 0
  \/ (Buffer.bytes_needed st = 1 /\ Buffer.bytes_seen st = 0
      /\ 2 <= c <= 31 /\ lo = 128 /\ hi = 191)
  \/ (Buffer.bytes_needed st = 2 /\ Buffer.bytes_seen st = 0
      /\ 0 <= c <= 15 /\ 128 <= lo /\ hi <= 191
      /\ (c = 0 -> lo = 160) /\ (c = 13 -> hi = 159))
  \/ (Buffer.bytes_needed st = 2 /\ Buffer.bytes_seen st = 1
      /\ 32 <= c <= 1023 /\ (c < 864 \/ 895 < c) /\ lo = 128 /\ hi = 191)
  \/ (Buffer.bytes_needed st = 3 /\ Buffer.bytes_seen st = 0
      /\ 0 <= c <= 4 /\ 128 <= lo /\ hi <= 191
      /\ (c = 0 -> lo = 144) /\ (c = 4 -> hi = 143))
  \/ (Buffer.bytes_needed st = 3 /\ Buffer.bytes_seen st = 1
      /\ 16 <= c <= 271 /\ lo = 128 /\ hi = 191)
  \/ (Buffer.bytes_needed st = 3 /\ Buffer.bytes_seen st = 2
      /\ 1024 <= c <= 17407 /\ lo = 128 /\ hi = 191).

(** The text of the arrays is decoded text. *)
Definition holds_text (inv : inventory) : Prop :=
  List.length (metadata inv) = List.length (serials inv)
  /\ Forall (fun text => exists bs, text = Buffer.to_utf8_string bs)
            (metadata inv).

(* ===================================================================== *)
(** ** The conversions on examples                                        *)
(* ===================================================================== *)

Example from_base64_hello :
  Buffer.from_base64 "aGVsbG8=" = [104; 101; 108; 108; 111].
Proof. reflexivity. Qed.

Example to_utf8_string_euro :
  Buffer.to_utf8_string [226; 130; 172; 240; 159; 152; 128]
  = [8364; 55357; 56832].
Proof. reflexivity. Qed.

Example from_string_euro :
  Buffer.from_string [8364; 55357; 56832]
  = [226; 130; 172; 240; 159; 152; 128].
Proof. reflexivity. Qed.

Example to_utf8_string_truncated :
  Buffer.to_utf8_string [226; 130; 65; 255] = [65533; 65; 65533].
Proof. reflexivity. Qed.

Example split_commas : split "," "a,,b," = ["a"; ""; "b"; ""]%string.
Proof. reflexivity. Qed.

Example Number_examples :
  Number (JString "12") = Double false (3 * 2 ^ 51) (-49)
  /\ integer_value (Number (JString "12")) = Some 12
  /\ integer_value (Number (JString " 1.50e3 ")) = Some 1500
  /\ integer_value (Number (JString "-7")) = Some (-7)
  /\ integer_value (Number (JString "0x1F")) = Some 31
  /\ Number (JString "") = Double false 0 0
  /\ Number (JString "0.1") = Double false 7205759403792794 (-56)
  /\ Number (JString "Infinity") = Infinity false
  /\ Number (JString "abc") = NaN
  /\ Number (JString "1e") = NaN
  /\ Number (JString ".") = NaN
  /\ Number (JString "-0x10") = NaN
  /\ Number (JString "1 2") = NaN.
Proof. vm_compute. repeat split. Qed.

(** Rounding: below the smallest double, above the largest, between two
    doubles, and at the edges of the subnormal range. *)
Example Number_rounding :
  Number (JString "1e-400") = Double false 0 0
  /\ Number (JString "1e400") = Infinity false
  /\ integer_value (Number (JString "9007199254740993"))
     = Some 9007199254740992
  /\ integer_value (Number (JString "9007199254740995"))
     = Some 9007199254740996
  /\ Number (JString "5e-324") = Double false 1 (-1074)
  /\ Number (JString "2e-324") = Double false 0 0
  /\ Number (JString "1.7976931348623157e308")
     = Double false (2 ^ 53 - 1) 971
  /\ Number (JString "1.7976931348623159e308") = Infinity false
  /\ Number (JString "2.2250738585072014e-308")
     = Double false (2 ^ 52) (-1074).
Proof. vm_compute. repeat split. Qed.

(* ===================================================================== *)
(** ** UTF-8: decoding and encoding again                                 *)
(* ===================================================================== *)

Module BufferFacts.
Import Buffer.

Lemma land_shiftl_low (a b k : Z) :
  0 <= k -> 0 <= b < 2 ^ k -> Z.land (Z.shiftl a k) b = 0.
Proof.
  intros Hk Hb. apply Z.bits_inj'. intros n Hn.
  rewrite Z.land_spec, Z.bits_0.
  destruct (Z.lt_ge_cases n k) as [Hlt | Hge].
  - rewrite Z.shiftl_spec_low by assumption. reflexivity.
  - replace (Z.testbit b n) with false; [apply andb_false_r |].
    symmetry. destruct (Z.eq_dec b 0) as [-> | Hnz]; [apply Z.bits_0 |].
    apply Z.bits_above_log2; [lia |].
    apply Z.log2_lt_pow2; [lia |].
    apply Z.lt_le_trans with (2 ^ k); [lia |].
    apply Z.pow_le_mono_r; lia.
Qed.

Lemma lor_shiftl_low (a b k : Z) :
  0 <= k -> 0 <= b < 2 ^ k -> Z.lor (Z.shiftl a k) b = a * 2 ^ k + b.
Proof.
  intros Hk Hb.
  pose proof (Z.add_lor_land (Z.shiftl a k) b) as H.
  rewrite land_shiftl_low in H by assumption.
  rewrite Z.shiftl_mul_pow2 in * by assumption. lia.
Qed.

Lemma lor_const (c a b k : Z) :
  0 <= k -> c = a * 2 ^ k -> 0 <= b < 2 ^ k -> Z.lor c b = c + b.
Proof.
  intros Hk -> Hb. rewrite <- (Z.shiftl_mul_pow2 a k) by assumption.
  rewrite lor_shiftl_low by assumption.
  rewrite Z.shiftl_mul_pow2 by assumption. reflexivity.
Qed.

Lemma land_low (a k : Z) : 0 <= k -> Z.land a (2 ^ k - 1) = a mod 2 ^ k.
Proof.
  intros Hk. rewrite <- Z.land_ones by assumption.
  rewrite Z.ones_equiv. reflexivity.
Qed.

Lemma land_63 a : Z.land a 63 = a mod 64.
Proof. apply (land_low a 6). lia. Qed.
Lemma land_31 a : Z.land a 31 = a mod 32.
Proof. apply (land_low a 5). lia. Qed.
Lemma land_15 a : Z.land a 15 = a mod 16.
Proof. apply (land_low a 4). lia. Qed.
Lemma land_7 a : Z.land a 7 = a mod 8.
Proof. apply (land_low a 3). lia. Qed.
Lemma land_1023 a : Z.land a 1023 = a mod 1024.
Proof. apply (land_low a 10). lia. Qed.

Lemma shiftr_6 a : Z.shiftr a 6 = a / 64.
Proof. apply (Z.shiftr_div_pow2 a 6). lia. Qed.
Lemma shiftr_10 a : Z.shiftr a 10 = a / 1024.
Proof. apply (Z.shiftr_div_pow2 a 10). lia. Qed.
Lemma shiftr_12 a : Z.shiftr a 12 = a / 4096.
Proof. apply (Z.shiftr_div_pow2 a 12). lia. Qed.
Lemma shiftr_18 a : Z.shiftr a 18 = a / 262144.
Proof. apply (Z.shiftr_div_pow2 a 18). lia. Qed.
Lemma shiftl_10 a : Z.shiftl a 10 = a * 1024.
Proof. apply (Z.shiftl_mul_pow2 a 10). lia. Qed.

Lemma lor_shiftl_6 a b : 0 <= b < 64 -> Z.lor (Z.shiftl a 6) b = a * 64 + b.
Proof. intros H. apply (lor_shiftl_low a b 6); lia. Qed.

Lemma lor_128 b : 0 <= b < 64 -> Z.lor 128 b = 128 + b.
Proof. intros H. apply (lor_const 128 2 b 6); lia. Qed.
Lemma lor_192 b : 0 <= b < 64 -> Z.lor 192 b = 192 + b.
Proof. intros H. apply (lor_const 192 3 b 6); lia. Qed.
Lemma lor_224 b : 0 <= b < 32 -> Z.lor 224 b = 224 + b.
Proof. intros H. apply (lor_const 224 7 b 5); lia. Qed.
Lemma lor_240 b : 0 <= b < 16 -> Z.lor 240 b = 240 + b.
Proof. intros H. apply (lor_const 240 15 b 4); lia. Qed.

Lemma between_spec lo hi x : between lo hi x = true <-> lo <= x <= hi.
Proof. unfold between. rewrite andb_true_iff, !Z.leb_le. tauto. Qed.

Lemma between_false lo hi x : between lo hi x = false <-> (x < lo \/ hi < x).
Proof.
  unfold between. rewrite andb_false_iff, !Z.leb_gt. tauto.
Qed.


Ltac Zify.zify_post_hook ::= Z.to_euclidean_division_equations.

Ltac split_tests :=
  repeat match goal with
  | |- context [between ?lo ?hi ?x] =>
      let E := fresh "E" in
      destruct (between lo hi x) eqn:E;
      [apply between_spec in E | apply between_false in E];
      try (exfalso; lia)
  | |- context [Z.eqb ?x ?y] =>
      destruct (Z.eqb_spec x y); try (exfalso; lia)
  | |- context [Z.ltb ?x ?y] =>
      destruct (Z.ltb_spec x y); try (exfalso; lia)
  end.

Ltac run_steps :=
  repeat (progress
    (cbn [bytes_needed bytes_seen code_point lower_boundary upper_boundary
          Z.eqb Z.add Pos.eqb Pos.add Pos.succ negb app];
     split_tests)).

Ltac to_arith :=
  rewrite ?land_63, ?land_31, ?land_15, ?land_7, ?land_1023,
    ?shiftr_6, ?shiftr_10, ?shiftr_12, ?shiftr_18, ?shiftl_10;
  repeat (rewrite lor_shiftl_6 by lia).


Lemma run_ascii b rest :
  0 <= b <= 127 -> utf8_run utf8_init (b :: rest) = b :: utf8_run utf8_init rest.
Proof.
  intros H. cbn [utf8_run]. unfold utf8_handler, utf8_lead.
  cbn [bytes_needed utf8_init Z.eqb]. split_tests. reflexivity.
Qed.

Lemma run_2 b0 b1 rest :
  194 <= b0 <= 223 -> 128 <= b1 <= 191 ->
  utf8_run utf8_init (b0 :: b1 :: rest) = cp2 b0 b1 :: utf8_run utf8_init rest.
Proof.
  intros H0 H1. cbn [utf8_run]. unfold utf8_handler at 1, utf8_lead.
  cbn [bytes_needed utf8_init Z.eqb]. split_tests.
  unfold utf8_handler.
  cbn [bytes_needed bytes_seen code_point lower_boundary upper_boundary
       Z.eqb Z.add Pos.eqb negb].
  split_tests. cbn [negb app]. to_arith. reflexivity.
Qed.


Lemma run_3 b0 b1 b2 rest :
  224 <= b0 <= 239 -> lead3_lo b0 <= b1 <= lead3_hi b0 -> 128 <= b2 <= 191 ->
  utf8_run utf8_init (b0 :: b1 :: b2 :: rest)
  = cp3 b0 b1 b2 :: utf8_run utf8_init rest.
Proof.
  unfold lead3_lo, lead3_hi.
  intros H0 H1 H2. cbn [utf8_run]. unfold utf8_handler at 1, utf8_lead.
  cbn [bytes_needed utf8_init Z.eqb]. split_tests.
  all: unfold utf8_handler; run_steps; to_arith; reflexivity.
Qed.

Lemma run_4 b0 b1 b2 b3 rest :
  240 <= b0 <= 244 -> lead4_lo b0 <= b1 <= lead4_hi b0 ->
  128 <= b2 <= 191 -> 128 <= b3 <= 191 ->
  utf8_run utf8_init (b0 :: b1 :: b2 :: b3 :: rest)
  = cp4 b0 b1 b2 b3 :: utf8_run utf8_init rest.
Proof.
  unfold lead4_lo, lead4_hi.
  intros H0 H1 H2 H3. cbn [utf8_run]. unfold utf8_handler at 1, utf8_lead.
  cbn [bytes_needed utf8_init Z.eqb]. split_tests.
  all: unfold utf8_handler; run_steps; to_arith; reflexivity.
Qed.

Lemma encode_2 b0 b1 :
  194 <= b0 <= 223 -> 128 <= b1 <= 191 ->
  128 <= cp2 b0 b1 < 2048 /\ encode_code_point (cp2 b0 b1) = [b0; b1].
Proof.
  intros H0 H1. unfold cp2, encode_code_point.
  split; [lia |]. split_tests. to_arith.
  rewrite lor_192, lor_128 by lia. f_equal; [lia | f_equal; lia].
Qed.

Lemma encode_3 b0 b1 b2 :
  224 <= b0 <= 239 -> lead3_lo b0 <= b1 <= lead3_hi b0 -> 128 <= b2 <= 191 ->
  (2048 <= cp3 b0 b1 b2 < 55296 \/ 57344 <= cp3 b0 b1 b2 < 65536)
  /\ encode_code_point (cp3 b0 b1 b2) = [b0; b1; b2].
Proof.
  unfold lead3_lo, lead3_hi.
  intros H0 H1 H2.
  assert (Hb1 : 128 <= b1 <= 191 /\ (b0 = 224 -> 160 <= b1)
                /\ (b0 = 237 -> b1 <= 159))
    by (revert H1; split_tests; lia).
  clear H1. unfold cp3, encode_code_point.
  split; [lia |]. split_tests. to_arith.
  rewrite lor_224, !lor_128 by lia.
  f_equal; [lia | f_equal; [lia | f_equal; lia]].
Qed.

Lemma encode_4 b0 b1 b2 b3 :
  240 <= b0 <= 244 -> lead4_lo b0 <= b1 <= lead4_hi b0 ->
  128 <= b2 <= 191 -> 128 <= b3 <= 191 ->
  65536 <= cp4 b0 b1 b2 b3 < 1114112
  /\ encode_code_point (cp4 b0 b1 b2 b3) = [b0; b1; b2; b3].
Proof.
  unfold lead4_lo, lead4_hi.
  intros H0 H1 H2 H3.
  assert (Hb1 : 128 <= b1 <= 191 /\ (b0 = 240 -> 144 <= b1)
                /\ (b0 = 244 -> b1 <= 143))
    by (revert H1; split_tests; lia).
  clear H1. unfold cp4, encode_code_point.
  split; [lia |]. split_tests. to_arith.
  rewrite lor_240, !lor_128 by lia.
  f_equal; [lia | f_equal; [lia | f_equal; [lia | f_equal; lia]]].
Qed.

Lemma from_string_bmp cp l :
  0 <= cp < 55296 \/ 57344 <= cp < 65536 ->
  from_string (code_units_of cp ++ l) = encode_code_point cp ++ from_string l.
Proof.
  intros H. unfold code_units_of. split_tests. cbn [app from_string].
  unfold is_high_surrogate, is_low_surrogate. split_tests. reflexivity.
Qed.

Lemma from_string_astral cp l :
  65536 <= cp < 1114112 ->
  from_string (code_units_of cp ++ l) = encode_code_point cp ++ from_string l.
Proof.
  intros H. unfold code_units_of. split_tests. cbn [app from_string].
  unfold is_high_surrogate, is_low_surrogate. to_arith. split_tests.
  f_equal. f_equal. lia.
Qed.

Lemma to_utf8_string_cons cp bs rest :
  utf8_run utf8_init bs = cp :: utf8_run utf8_init rest ->
  to_utf8_string bs = code_units_of cp ++ to_utf8_string rest.
Proof. unfold to_utf8_string. intros ->. reflexivity. Qed.

Lemma encode_ascii b : 0 <= b <= 127 -> encode_code_point b = [b].
Proof. intros H. unfold encode_code_point. split_tests. reflexivity. Qed.

Lemma round_trip_bounded (n : nat) :
  forall bs, (List.length bs <= n)%nat -> well_formed_utf8 bs = true ->
  from_string (to_utf8_string bs) = bs.
Proof.
  induction n as [| n IH]; intros bs Hlen Hwf.
  - destruct bs; [reflexivity | cbn in Hlen; lia].
  - destruct bs as [| b0 r0]; [reflexivity |].
    cbn [well_formed_utf8] in Hwf. cbn [List.length] in Hlen.
    destruct (between 0 127 b0) eqn:A; [apply between_spec in A |].
    { rewrite (to_utf8_string_cons b0 _ r0) by (apply run_ascii; lia).
      rewrite from_string_bmp, encode_ascii by lia.
      cbn [app]. f_equal. apply IH; [lia | assumption]. }
    destruct (between 194 223 b0) eqn:B; [apply between_spec in B |].
    { destruct r0 as [| b1 r1]; [discriminate |].
      apply andb_true_iff in Hwf as [H1 Hwf]. apply between_spec in H1.
      cbn [List.length] in Hlen.
      destruct (encode_2 b0 b1 B H1) as [Hr He].
      rewrite (to_utf8_string_cons (cp2 b0 b1) _ r1) by (apply run_2; lia).
      rewrite from_string_bmp, He by lia.
      cbn [app]. do 2 f_equal. apply IH; [lia | assumption]. }
    destruct (between 224 239 b0) eqn:C; [apply between_spec in C |].
    { destruct r0 as [| b1 [| b2 r2]]; try discriminate.
      apply andb_true_iff in Hwf as [Hwf' Hwf].
      apply andb_true_iff in Hwf' as [H1 H2].
      apply between_spec in H1, H2. cbn [List.length] in Hlen.
      destruct (encode_3 b0 b1 b2 C H1 H2) as [Hr He].
      rewrite (to_utf8_string_cons (cp3 b0 b1 b2) _ r2)
        by (apply run_3; assumption).
      rewrite from_string_bmp, He by lia.
      cbn [app]. do 3 f_equal. apply IH; [lia | assumption]. }
    destruct (between 240 244 b0) eqn:D; [apply between_spec in D |].
    { destruct r0 as [| b1 [| b2 [| b3 r3]]]; try discriminate.
      apply andb_true_iff in Hwf as [Hwf' Hwf].
      apply andb_true_iff in Hwf' as [Hwf' H3].
      apply andb_true_iff in Hwf' as [H1 H2].
      apply between_spec in H1, H2, H3. cbn [List.length] in Hlen.
      destruct (encode_4 b0 b1 b2 b3 D H1 H2 H3) as [Hr He].
      rewrite (to_utf8_string_cons (cp4 b0 b1 b2 b3) _ r3)
        by (apply run_4; assumption).
      rewrite from_string_astral, He by lia.
      cbn [app]. do 4 f_equal. apply IH; [lia | assumption]. }
    discriminate.
Qed.

Lemma utf8_round_trip bs :
  well_formed_utf8 bs = true -> from_string (to_utf8_string bs) = bs.
Proof. apply (round_trip_bounded (List.length bs)). lia. Qed.
End BufferFacts.

(* ===================================================================== *)
(** ** UTF-8: what the decoder gives and what the encoder makes of it     *)
(* ===================================================================== *)

Module Utf8Output.
Import Buffer.
Import BufferFacts.

Lemma scalar_replacement : scalar replacement.
Proof. unfold scalar, replacement. lia. Qed.

Lemma lead_decoding b :
  Forall scalar (fst (utf8_lead b)) /\ decoding (snd (utf8_lead b)).
Proof.
  unfold utf8_lead, decoding, scalar. split_tests; cbn [fst snd];
    cbn [bytes_needed bytes_seen code_point lower_boundary upper_boundary
         utf8_init];
    to_arith;
    (split; [first [apply Forall_nil
                   | apply Forall_cons;
                     [unfold replacement; lia | apply Forall_nil]] |]);
    split_tests; lia.
Qed.

Lemma continuation_value c b :
  128 <= b <= 191 ->
  Z.lor (Z.shiftl c 6) (Z.land b 63) = c * 64 + (b - 128).
Proof.
  intros H. rewrite land_63. rewrite lor_shiftl_6 by lia. lia.
Qed.

Lemma handler_decoding st b :
  decoding st ->
  Forall scalar (fst (utf8_handler st b)) /\ decoding (snd (utf8_handler st b)).
Proof.
  intros H. unfold utf8_handler.
  destruct (Z.eqb_spec (bytes_needed st) 0) as [E | E]; [apply lead_decoding |].
  destruct (between (lower_boundary st) (upper_boundary st) b) eqn:B;
    cbn [negb].
  - apply between_spec in B.
    destruct st as [c seen needed lo hi]. unfold decoding in H.
    cbn [bytes_needed bytes_seen code_point lower_boundary upper_boundary]
      in *.
    assert (Hb : 128 <= b <= 191) by lia.
    rewrite (continuation_value c b Hb).
    destruct H as [H | [H | [H | [H | [H | [H | H]]]]]];
      try contradiction;
      destruct H as (-> & -> & H); cbn [Z.add Z.eqb Pos.eqb Pos.add];
      cbn [fst snd]; unfold decoding, scalar;
      cbn [bytes_needed bytes_seen code_point lower_boundary upper_boundary
           utf8_init];
      (split; [first [apply Forall_nil
                     | apply Forall_cons; [lia | apply Forall_nil]]
             | lia]).
  - destruct (lead_decoding b) as [F D].
    destruct (utf8_lead b) as [out st']. cbn [fst snd] in *.
    split; [constructor; [apply scalar_replacement | exact F] | exact D].
Qed.

Lemma run_decoding bs : forall st,
  decoding st -> Forall scalar (utf8_run st bs).
Proof.
  induction bs as [| b bs IH]; intros st H; cbn [utf8_run].
  - destruct (bytes_needed st =? 0);
      [apply Forall_nil
      | apply Forall_cons; [apply scalar_replacement | apply Forall_nil]].
  - destruct (handler_decoding st b H) as [F D].
    destruct (utf8_handler st b) as [out st']. cbn [fst snd] in *.
    apply Forall_app. split; [exact F | apply IH, D].
Qed.

Lemma decoding_init : decoding utf8_init.
Proof. left. reflexivity. Qed.

Lemma well_formed_encoded cp rest :
  scalar cp ->
  well_formed_utf8 (encode_code_point cp ++ rest) = well_formed_utf8 rest.
Proof.
  unfold scalar, encode_code_point. intros H.
  destruct (Z.ltb_spec cp 128); [| destruct (Z.ltb_spec cp 2048);
    [| destruct (Z.ltb_spec cp 65536)]]; cbn [app well_formed_utf8]; to_arith.
  - split_tests; reflexivity.
  - rewrite lor_192, lor_128 by lia. split_tests; reflexivity.
  - rewrite lor_224, !lor_128 by lia.
    destruct (Z.eqb_spec (224 + cp / 4096) 224);
      destruct (Z.eqb_spec (224 + cp / 4096) 237);
      split_tests; reflexivity.
  - rewrite lor_240, !lor_128 by lia.
    destruct (Z.eqb_spec (240 + cp / 262144) 240);
      destruct (Z.eqb_spec (240 + cp / 262144) 244);
      split_tests; reflexivity.
Qed.

Lemma from_string_scalars cps :
  Forall scalar cps ->
  from_string (flat_map code_units_of cps) = flat_map encode_code_point cps.
Proof.
  induction 1 as [| cp cps Hcp _ IH]; [reflexivity |].
  cbn [flat_map]. unfold scalar in Hcp.
  destruct (Z.ltb_spec cp 65536).
  - rewrite from_string_bmp by lia. now rewrite IH.
  - rewrite from_string_astral by lia. now rewrite IH.
Qed.

Lemma well_formed_scalars cps :
  Forall scalar cps -> well_formed_utf8 (flat_map encode_code_point cps) = true.
Proof.
  induction 1 as [| cp cps Hcp _ IH]; [reflexivity |].
  cbn [flat_map]. now rewrite well_formed_encoded.
Qed.

Lemma recoded_is_well_formed bs :
  well_formed_utf8 (from_string (to_utf8_string bs)) = true.
Proof.
  unfold to_utf8_string.
  pose proof (run_decoding bs utf8_init decoding_init) as H.
  rewrite (from_string_scalars _ H). apply well_formed_scalars, H.
Qed.

End Utf8Output.


(** ** The monad *)

Lemma bind_Done {A B} (m : M A) (k : A -> M B) h a h' :
  m h = (Done a, h') -> bind m k h = k a h'.
Proof. unfold bind. intros ->. reflexivity. Qed.

Lemma ask_run {A} e (answer : history -> A) h :
  ask e answer h = (Done (answer h), h ++ [e]).
Proof. reflexivity. Qed.

Lemma emit_run e h : emit e h = (Done tt, h ++ [e]).
Proof. reflexivity. Qed.

Lemma extends_ret {A} (a : A) : extends (ret a).
Proof. intros h. exists []. cbn. now rewrite app_nil_r. Qed.

Lemma extends_throw {A} e : extends (@throw A e).
Proof. intros h. exists []. cbn. now rewrite app_nil_r. Qed.

Lemma extends_process_exit {A} c : extends (@process_exit A c).
Proof. intros h. exists []. cbn. now rewrite app_nil_r. Qed.

Lemma extends_out_of_fuel {A} : extends (@out_of_fuel A).
Proof. intros h. exists []. cbn. now rewrite app_nil_r. Qed.

Lemma extends_emit e : extends (emit e).
Proof. intros h. exists [e]. reflexivity. Qed.

Lemma extends_ask {A} e (answer : history -> A) : extends (ask e answer).
Proof. intros h. exists [e]. reflexivity. Qed.

Lemma extends_bind {A B} (m : M A) (k : A -> M B) :
  extends m -> (forall a, extends (k a)) -> extends (bind m k).
Proof.
  intros Hm Hk h. unfold bind. destruct (Hm h) as [h1 E1].
  destruct (m h) as [[a | e | c |] h0]; cbn in E1; subst h0;
    try (exists h1; reflexivity).
  destruct (Hk a (h ++ h1)) as [h2 E2]. exists (h1 ++ h2).
  rewrite E2. now rewrite app_assoc.
Qed.

Ltac extends_steps :=
  repeat first
    [ apply extends_bind; [| intros ?]
    | apply extends_ret | apply extends_throw | apply extends_process_exit
    | apply extends_out_of_fuel | apply extends_emit | apply extends_ask
    | match goal with
      | |- extends (match ?x with _ => _ end) => destruct x
      | |- extends (if ?x then _ else _) => destruct x
      end ].

Lemma extends_getTokenDetails w t : extends (getTokenDetails w t).
Proof. unfold getTokenDetails, console_error. extends_steps. Qed.

Lemma extends_execute_create w tx : extends (execute_create w tx).
Proof. unfold execute_create, console_log. extends_steps. Qed.

Lemma extends_execute_mint w tx : extends (execute_mint w tx).
Proof. unfold execute_mint, console_log. extends_steps. Qed.

Lemma extends_execute_burn w tx : extends (execute_burn w tx).
Proof. unfold execute_burn, console_log. extends_steps. Qed.

Lemma extends_fetch_page w route inv : extends (fetch_page w route inv).
Proof. unfold fetch_page, console_error. extends_steps. Qed.

Lemma extends_fetch_loop fuel w : forall route inv,
  extends (fetch_loop fuel w route inv).
Proof.
  induction fuel as [| fuel IH]; intros route inv; cbn [fetch_loop].
  - apply extends_out_of_fuel.
  - apply extends_bind; [apply extends_fetch_page |].
    intros [[route' |] inv']; [apply IH | apply extends_ret].
Qed.

Lemma extends_mint_batch w env tok inv i : extends (mint_batch w env tok inv i).
Proof.
  unfold mint_batch, console_log.
  destruct (addMetadata inv i i []); [| apply extends_throw].
  apply extends_bind; [apply extends_execute_mint | intros r].
  extends_steps.
Qed.

Lemma mint_loop_step w env tok inv i h :
  mint_loop w env tok inv i h
  = if (i <? List.length (serials inv))%nat
    then bind (mint_batch w env tok inv i)
              (fun _ => mint_loop w env tok inv (i + batchSize)) h
    else (Done tt, h).
Proof.
  rewrite mint_loop_equation_1. unfold mint_loop_unfold_clause_1.
  destruct (lt_dec i (List.length (serials inv))) as [Hlt | Hge].
  - rewrite (proj2 (Nat.ltb_lt _ _) Hlt).
    unfold bind, mint_loop_unfold_clause_1_clause_1.
    destruct (mint_batch w env tok inv i h) as [[[] | e | c |] h']; reflexivity.
  - rewrite (proj2 (Nat.ltb_nlt _ _) Hge). reflexivity.
Qed.

(** ** Slices *)

Lemma slice_nil {A} b e : @slice A b e [] = [].
Proof. unfold slice. rewrite skipn_nil. apply firstn_nil. Qed.

Lemma slice_beyond {A} b e (l : list A) :
  (e <= b \/ List.length l <= b)%nat -> slice b e l = [].
Proof.
  unfold slice. intros [H | H].
  - replace (e - b)%nat with 0%nat by lia. reflexivity.
  - rewrite skipn_all2 by assumption. apply firstn_nil.
Qed.

Lemma skipn_nth_error {A} (l : list A) : forall j x,
  nth_error l j = Some x -> skipn j l = x :: skipn (S j) l.
Proof.
  induction l as [| y l IH]; intros [| j] x H; try discriminate.
  - cbn in H. injection H as ->. reflexivity.
  - cbn in H. cbn [skipn]. rewrite (IH j x H). reflexivity.
Qed.

Lemma slice_cons {A} (l : list A) j e x :
  nth_error l j = Some x -> (j < e)%nat ->
  slice j e l = x :: slice (S j) e l.
Proof.
  intros H Hlt. unfold slice. rewrite (skipn_nth_error l j x H).
  replace (e - j)%nat with (S (e - S j)) by lia. reflexivity.
Qed.

Lemma slice_map {A B} (f : A -> B) b e l :
  slice b e (map f l) = map f (slice b e l).
Proof. unfold slice. now rewrite skipn_map, firstn_map. Qed.

Lemma slice_length {A} b e (l : list A) :
  List.length (slice b e l) = Nat.min (e - b) (List.length l - b).
Proof. unfold slice. now rewrite length_firstn, length_skipn. Qed.

Lemma slice_shift {A} b e k (l : list A) :
  slice (k + b) (k + e) l = slice b e (skipn k l).
Proof.
  unfold slice. rewrite skipn_skipn. f_equal; [lia | f_equal; lia].
Qed.

(** ** The inner loop *)

Lemma addMetadata_step inv i j acc :
  addMetadata inv i j acc
  = if ((j <? i + batchSize) && (j <? List.length (serials inv)))%nat
    then match nth_error (metadata inv) j with
         | Some m => addMetadata inv i (S j) (acc ++ [Buffer.from_string m])
         | None => None
         end
    else Some acc.
Proof.
  rewrite addMetadata_equation_1. unfold addMetadata_unfold_clause_1.
  destruct (lt_dec j (i + batchSize)) as [H1 | H1].
  - rewrite (proj2 (Nat.ltb_lt _ _) H1).
    unfold addMetadata_unfold_clause_1_clause_1.
    destruct (lt_dec j (List.length (serials inv))) as [H2 | H2].
    + rewrite (proj2 (Nat.ltb_lt _ _) H2). cbn [andb].
      unfold addMetadata_unfold_clause_1_clause_1_clause_1.
      destruct (nth_error (metadata inv) j); reflexivity.
    + rewrite (proj2 (Nat.ltb_nlt _ _) H2). reflexivity.
  - rewrite (proj2 (Nat.ltb_nlt _ _) H1). reflexivity.
Qed.

Lemma addMetadata_slice inv i (n : nat) : forall j acc,
  List.length (metadata inv) = List.length (serials inv) ->
  (i + batchSize - j <= n)%nat ->
  addMetadata inv i j acc
  = Some (acc ++ map Buffer.from_string (slice j (i + batchSize) (metadata inv))).
Proof.
  induction n as [| n IH]; intros j acc Hlen Hn; rewrite addMetadata_step.
  - rewrite (proj2 (Nat.ltb_nlt j (i + batchSize)%nat)) by lia. cbn [andb].
    rewrite slice_beyond by lia. cbn. now rewrite app_nil_r.
  - destruct (Nat.ltb_spec j (i + batchSize)) as [H1 | H1]; cbn [andb].
    2:{ rewrite slice_beyond by lia. cbn. now rewrite app_nil_r. }
    destruct (Nat.ltb_spec j (List.length (serials inv))) as [H2 | H2].
    2:{ rewrite slice_beyond by lia. cbn. now rewrite app_nil_r. }
    destruct (nth_error (metadata inv) j) as [m |] eqn:E.
    + rewrite IH by (assumption || lia).
      rewrite (slice_cons _ _ _ _ E H1). cbn [map].
      rewrite <- app_assoc. reflexivity.
    + apply nth_error_None in E. lia.
Qed.

Lemma addMetadata_batch inv i :
  List.length (metadata inv) = List.length (serials inv) ->
  addMetadata inv i i [] = Some (batch_payloads inv i).
Proof.
  intros Hlen. apply (addMetadata_slice inv i (i + batchSize - i) i []);
    [assumption | lia].
Qed.

(** ** The burn set *)

Lemma filter_from_shift {A} (f : A -> nat -> bool) (xs : list A) : forall k,
  filter_from f (S k) xs = filter_from (fun x index => f x (S index)) k xs.
Proof.
  induction xs as [| x xs IH]; intros k; [reflexivity |].
  cbn [filter_from]. rewrite IH. reflexivity.
Qed.

Lemma filter_from_none {A} (f : A -> nat -> bool) (xs : list A) : forall k,
  (forall x index, f x index = false) -> filter_from f k xs = [].
Proof.
  induction xs as [| x xs IH]; intros k H; [reflexivity |].
  cbn [filter_from]. rewrite H. apply IH, H.
Qed.

Lemma filter_index_flagged {A} (xs : list A) : forall flags,
  filter_index (fun _ index => nth index flags false) xs
  = at_flagged_positions xs flags.
Proof.
  unfold filter_index, at_flagged_positions.
  induction xs as [| x xs IH]; intros flags; [reflexivity |].
  destruct flags as [| f flags].
  - apply filter_from_none. intros _ [| index]; reflexivity.
  - cbn [filter_from nth combine filter snd].
    rewrite filter_from_shift. cbn [nth]. rewrite IH.
    destruct f; reflexivity.
Qed.

Lemma toDelete_flagged inv i :
  toDelete inv i
  = at_flagged_positions (slice i (i + batchSize) (serials inv))
                         (slice i (i + batchSize) (deleteIds inv)).
Proof.
  unfold toDelete. apply filter_index_flagged.
Qed.

(** ** One batch *)

Lemma mint_requests_app h1 h2 :
  mint_requests (h1 ++ h2) = mint_requests h1 ++ mint_requests h2.
Proof.
  induction h1 as [| [] h1 IH]; cbn; rewrite ?IH; reflexivity.
Qed.

Lemma burn_requests_app h1 h2 :
  burn_requests (h1 ++ h2) = burn_requests h1 ++ burn_requests h2.
Proof.
  induction h1 as [| [] h1 IH]; cbn; rewrite ?IH; reflexivity.
Qed.

Lemma minted_batches_app h1 h2 :
  minted_batches (h1 ++ h2) = minted_batches h1 ++ minted_batches h2.
Proof. unfold minted_batches. now rewrite mint_requests_app, map_app. Qed.

Ltac flatten_history :=
  repeat rewrite <- app_assoc; cbn [app].

Lemma mint_batch_requests w env tok inv i h payloads r :
  addMetadata inv i i [] = Some payloads ->
  mint_token w h (mint_request w env tok payloads) = Receipt r ->
  exists evs,
    snd (mint_batch w env tok inv i h) = h ++ evs
    /\ mint_requests evs = [mint_request w env tok payloads]
    /\ burn_requests evs = batch_burns w env tok inv i.
Proof.
  intros Hadd Hmint. unfold mint_batch, batch_burns. rewrite Hadd.
  unfold execute_mint, bind at 1 2, ask. fold (mint_request w env tok payloads).
  rewrite Hmint. unfold console_log, emit, bind at 1.
  destruct (0 <? List.length (toDelete inv i))%nat.
  - unfold execute_burn, bind, ask, ret, throw, process_exit, console_log, emit.
    fold (burn_request w env tok (toDelete inv i)).
    destruct (burn_token w _ _); cbn [snd]; flatten_history;
      eexists; (split; [reflexivity | split; reflexivity]).
  - unfold ret. cbn [snd]. flatten_history.
    eexists; (split; [reflexivity | split; reflexivity]).
Qed.

Lemma mint_batch_run w env tok inv i h :
  always_receipts w ->
  List.length (metadata inv) = List.length (serials inv) ->
  exists evs,
    mint_batch w env tok inv i h = (Done tt, h ++ evs)
    /\ minted_batches evs = [batch_payloads inv i]
    /\ burn_requests evs = batch_burns w env tok inv i.
Proof.
  intros [Hmint Hburn] Hlen. unfold mint_batch, batch_burns.
  rewrite (addMetadata_batch inv i Hlen).
  unfold execute_mint, bind at 1 2, ask.
  fold (mint_request w env tok (batch_payloads inv i)).
  destruct (Hmint h (mint_request w env tok (batch_payloads inv i))) as [r ->].
  unfold console_log, emit, bind at 1.
  destruct (0 <? List.length (toDelete inv i))%nat.
  - unfold execute_burn, bind, ask, ret, console_log, emit.
    fold (burn_request w env tok (toDelete inv i)).
    match goal with |- context [burn_token w ?h' ?tx] =>
      destruct (Hburn h' tx) as [status ->] end.
    flatten_history. eexists; (split; [reflexivity | split; reflexivity]).
  - unfold ret. flatten_history.
    eexists; (split; [reflexivity | split; reflexivity]).
Qed.

(** ** The outer loop *)

Lemma starts_from_done n i : (n <= i)%nat -> starts_from n i = [].
Proof.
  intros H. unfold starts_from.
  replace ((n - i + 9) / 10)%nat with 0%nat by lia. reflexivity.
Qed.

Lemma starts_from_step n i :
  (i < n)%nat -> starts_from n i = i :: starts_from n (i + batchSize).
Proof.
  intros H. unfold starts_from, batchSize.
  replace ((n - i + 9) / 10)%nat with (S ((n - (i + 10) + 9) / 10)) by lia.
  cbn [seq map]. f_equal; [lia |].
  rewrite <- seq_shift, map_map. apply map_ext. intros k. lia.
Qed.

Lemma starts_from_0 n : starts_from n 0 = batch_starts n.
Proof.
  unfold starts_from, batch_starts. rewrite Nat.sub_0_r. reflexivity.
Qed.

Lemma mint_loop_run w env tok inv (n : nat) : forall i h,
  always_receipts w ->
  List.length (metadata inv) = List.length (serials inv) ->
  (List.length (serials inv) - i <= n)%nat ->
  exists evs,
    mint_loop w env tok inv i h = (Done tt, h ++ evs)
    /\ minted_batches evs
       = map (batch_payloads inv) (starts_from (List.length (serials inv)) i)
    /\ burn_requests evs
       = flat_map (batch_burns w env tok inv)
                  (starts_from (List.length (serials inv)) i).
Proof.
  induction n as [| n IH]; intros i h Hw Hlen Hn; rewrite mint_loop_step.
  - rewrite (proj2 (Nat.ltb_nlt _ _)) by lia.
    rewrite starts_from_done by lia. exists []. now rewrite app_nil_r.
  - destruct (Nat.ltb_spec i (List.length (serials inv))) as [Hlt | Hge].
    2:{ rewrite starts_from_done by lia. exists []. now rewrite app_nil_r. }
    destruct (mint_batch_run w env tok inv i h Hw Hlen)
      as (evs1 & E1 & M1 & B1).
    rewrite (bind_Done _ _ _ _ _ E1).
    destruct (IH (i + batchSize)%nat (h ++ evs1) Hw Hlen) as (evs2 & E2 & M2 & B2).
    { unfold batchSize. lia. }
    exists (evs1 ++ evs2). rewrite E2, app_assoc.
    rewrite minted_batches_app, burn_requests_app, M1, M2, B1, B2.
    rewrite (starts_from_step _ i Hlt). cbn [map flat_map app].
    repeat split; reflexivity.
Qed.

(** ** Chunks of a list *)

Lemma concat_chunks {A} (m : nat) : forall l : list A,
  (List.length l <= 10 * m)%nat ->
  List.concat (map (fun k => slice (10 * k) (10 * k + 10) l) (seq 0 m)) = l.
Proof.
  induction m as [| m IH]; intros l Hl.
  - destruct l; [reflexivity | cbn in Hl; lia].
  - cbn [seq map List.concat]. rewrite <- seq_shift, map_map.
    transitivity (firstn 10 l ++ skipn 10 l); [| apply firstn_skipn].
    f_equal.
    rewrite <- (IH (skipn 10 l)) by (rewrite length_skipn; lia).
    f_equal. apply map_ext. intros k.
    replace (10 * S k)%nat with (10 + 10 * k)%nat by lia.
    replace (10 + 10 * k + 10)%nat with (10 + (10 * k + 10))%nat by lia.
    apply slice_shift.
Qed.

Lemma flagged_none {A} (xs : list A) : forall flags,
  Forall (fun d => d = false) flags -> at_flagged_positions xs flags = [].
Proof.
  unfold at_flagged_positions.
  induction xs as [| x xs IH]; intros flags H; [reflexivity |].
  destruct H as [| f flags -> H]; [reflexivity |].
  cbn. apply IH, H.
Qed.

Lemma Forall_firstn {A} (P : A -> Prop) (n : nat) : forall l,
  Forall P l -> Forall P (firstn n l).
Proof.
  induction n as [| n IH]; intros l H; [constructor |].
  destruct H as [| x l Hx H]; [constructor |].
  cbn. constructor; [assumption | apply IH, H].
Qed.

Lemma Forall_skipn {A} (P : A -> Prop) (n : nat) : forall l,
  Forall P l -> Forall P (skipn n l).
Proof.
  induction n as [| n IH]; intros l H; [assumption |].
  destruct H as [| x l Hx H]; [constructor |]. cbn. apply IH, H.
Qed.

Lemma Forall_slice {A} (P : A -> Prop) b e l :
  Forall P l -> Forall P (slice b e l).
Proof. intros H. unfold slice. apply Forall_firstn, Forall_skipn, H. Qed.

Lemma batch_payloads_length inv i :
  List.length (batch_payloads inv i)
  = Nat.min batchSize (List.length (metadata inv) - i).
Proof.
  unfold batch_payloads. rewrite length_map, slice_length. f_equal. lia.
Qed.

Lemma flat_map_all_nil {A B} (f : A -> list B) (l : list A) :
  (forall x, f x = []) -> flat_map f l = [].
Proof.
  intros H. induction l as [| x l IH]; [reflexivity |].
  cbn. now rewrite H, IH.
Qed.

Lemma batch_burns_none w env tok inv i :
  Forall (fun d => d = false) (deleteIds inv) -> batch_burns w env tok inv i = [].
Proof.
  intros H. unfold batch_burns.
  rewrite toDelete_flagged, flagged_none by (apply Forall_slice, H).
  reflexivity.
Qed.

(** C5.  When the ledger refuses nothing, the minting loop over an
    inventory of N records ends, having sent ceil(N/10) mint requests; the
    k-th carries the payloads of the indices 10k up to 10k+10 (or N, if
    that comes first), so every batch has between 1 and 10 payloads and the
    batches, put end to end, are the whole inventory in order.  With 25
    records the batches have 10, 10 and 5 payloads; when no deletion flag
    is set, no burn request is sent. *)
Theorem minting_partitions_inventory w env newToken inv h :
  always_receipts w ->
  List.length (metadata inv) = List.length (serials inv) ->
  exists evs,
    mint_loop w env newToken inv 0 h = (Done tt, h ++ evs)
    /\ List.length (minted_batches evs)
       = ((List.length (serials inv) + 9) / 10)%nat
    /\ (forall k, (k < List.length (minted_batches evs))%nat ->
          nth_error (minted_batches evs) k
          = Some (map Buffer.from_string
                    (slice (10 * k) (10 * k + 10) (metadata inv))))
    /\ Forall (fun b => (1 <= List.length b <= 10)%nat) (minted_batches evs)
    /\ List.concat (minted_batches evs) = map Buffer.from_string (metadata inv)
    /\ (List.length (serials inv) = 25%nat ->
          map (@List.length _) (minted_batches evs) = [10; 10; 5]%nat)
    /\ (Forall (fun d => d = false) (deleteIds inv) -> burn_requests evs = []).
Proof.
  intros Hw Hlen.
  destruct (mint_loop_run w env newToken inv (List.length (serials inv)) 0 h
              Hw Hlen) as (evs & E & HM & HB); [lia |].
  rewrite starts_from_0 in HM, HB.
  exists evs. split; [exact E |]. rewrite HM. clear E HM.
  unfold batch_starts. rewrite map_map, length_map, length_seq.
  set (N := List.length (serials inv)) in *.
  split; [reflexivity |]. split; [| split; [| split; [| split]]].
  - intros k Hk. rewrite nth_error_map, nth_error_seq.
    rewrite (proj2 (Nat.ltb_lt _ _) Hk). reflexivity.
  - apply Forall_map, Forall_forall. intros k Hk. apply in_seq in Hk.
    rewrite batch_payloads_length. unfold batchSize. lia.
  - unfold batch_payloads. rewrite <- (map_map (fun k => slice _ _ _) (map _)).
    rewrite <- concat_map. f_equal. apply concat_chunks. lia.
  - intros HN. rewrite map_map, HN.
    change ((25 + 9) / 10)%nat with 3%nat. cbn [seq map].
    rewrite !batch_payloads_length, Hlen. fold N. rewrite HN.
    reflexivity.
  - intros Hflags. rewrite HB. apply flat_map_all_nil. intros i.
    apply batch_burns_none, Hflags.
Qed.

(** ** The three arrays *)

Lemma push_nft_stored rs n : push_nft (stored rs) n = stored (rs ++ [n]).
Proof. unfold push_nft, stored. cbn. now rewrite !map_app. Qed.

Lemma fold_push_stored more : forall rs,
  fold_left push_nft more (stored rs) = stored (rs ++ more).
Proof.
  induction more as [| n more IH]; intros rs; cbn [fold_left].
  - now rewrite app_nil_r.
  - rewrite push_nft_stored, IH, <- app_assoc. reflexivity.
Qed.

Lemma reverse_all_stored rs : reverse_all (stored rs) = stored (rev rs).
Proof. unfold reverse_all, stored. cbn. now rewrite !map_rev. Qed.

Lemma stored_lengths rs :
  List.length (metadata (stored rs)) = List.length (serials (stored rs)).
Proof. cbn. now rewrite !length_map. Qed.

Lemma minting_partitions_inventory_witness :
  let inv := reverse_all (stored Scenario.twenty_five) in
  always_receipts Scenario.offline
  /\ List.length (metadata inv) = List.length (serials inv)
  /\ exists evs,
       mint_loop Scenario.offline Scenario.env "0.0.1001" inv 0 []
       = (Done tt, [] ++ evs)
       /\ map (@List.length _) (minted_batches evs) = [10; 10; 5]%nat
       /\ burn_requests evs = [].
Proof.
  intros inv.
  assert (Hw : always_receipts Scenario.offline)
    by (split; intros h tx; eexists; reflexivity).
  assert (Hlen : List.length (metadata inv) = List.length (serials inv))
    by reflexivity.
  split; [exact Hw |]. split; [exact Hlen |].
  destruct (minting_partitions_inventory Scenario.offline Scenario.env
              "0.0.1001" inv [] Hw Hlen)
    as (evs & E & _ & _ & _ & _ & H25 & Hnone).
  exists evs. split; [exact E |]. split.
  - apply H25. reflexivity.
  - apply Hnone. unfold inv. rewrite reverse_all_stored.
    cbn [stored deleteIds]. apply Forall_map, Forall_forall.
    intros n Hn. apply in_rev in Hn. unfold Scenario.twenty_five in Hn.
    apply in_map_iff in Hn as (k & <- & _). reflexivity.
Defined.

Lemma tracks_stored inv rs : tracks inv rs -> inv = stored rs.
Proof.
  induction 1 as [| inv rs n _ -> | inv rs _ ->].
  - reflexivity.
  - apply push_nft_stored.
  - apply reverse_all_stored.
Qed.

Lemma tracks_fold more : forall inv rs,
  tracks inv rs -> tracks (fold_left push_nft more inv) (rs ++ more).
Proof.
  induction more as [| n more IH]; intros inv rs H; cbn [fold_left].
  - now rewrite app_nil_r.
  - replace (rs ++ n :: more) with ((rs ++ [n]) ++ more)
      by now rewrite <- app_assoc.
    apply IH, tracks_push, H.
Qed.

Lemma fetch_page_tracks w route inv rs h :
  tracks inv rs ->
  exists route' inv' evs,
    fetch_page w route inv h = (Done (route', inv'), h ++ evs)
    /\ tracks inv'
         (rs ++ page_records (get_nfts w h (MIRROR_NODE +++ route))).
Proof.
  intros H. unfold fetch_page, bind, ask, console_error, emit, ret.
  destruct (get_nfts w h (MIRROR_NODE +++ route)); flatten_history;
    eexists; eexists; eexists; (split; [reflexivity |]); cbn [page_records].
  - now rewrite app_nil_r.
  - apply tracks_fold, H.
Qed.

Lemma fetch_loop_tracks fuel w : forall route inv rs h,
  tracks inv rs ->
  match fst (fetch_loop fuel w route inv h) with
  | Done inv' => exists more, tracks inv' (rs ++ more)
  | OutOfFuel => True
  | _ => False
  end.
Proof.
  induction fuel as [| fuel IH]; intros route inv rs h H; [exact I |].
  cbn [fetch_loop].
  destruct (fetch_page_tracks w route inv rs h H)
    as (route' & inv' & evs & E & H').
  rewrite (bind_Done _ _ _ _ _ E).
  set (page := page_records _) in H'.
  destruct route' as [route' |].
  - specialize (IH route' inv' (rs ++ page) (h ++ evs) H').
    destruct (fst (fetch_loop fuel w route' inv' (h ++ evs)));
      try exact IH.
    destruct IH as [more IH]. exists (page ++ more).
    now rewrite app_assoc.
  - exists page. exact H'.
Qed.

(** C7.  Whenever the script has brought the three arrays to a state
    [inv] while the source NFTs they stand for are [rs] (the arrays start
    empty, each turn of the loop over a page pushes one record onto all
    three, and they are reversed together), the three arrays are as long as
    [rs] and hold, at every index, the serial number, the decoded metadata
    and the deletion flag of the record of [rs] at that index.  Fetching a
    page always ends and adds the records of the page, in order, or none
    when the request failed; the pagination loop, when it ends, has added
    records only; the reversal reverses the records. *)
Theorem parallel_arrays_stay_aligned :
  (forall inv rs, tracks inv rs ->
     List.length (serials inv) = List.length rs
     /\ List.length (metadata inv) = List.length rs
     /\ List.length (deleteIds inv) = List.length rs
     /\ forall i,
          nth_error (serials inv) i
          = option_map serial_number (nth_error rs i)
          /\ nth_error (metadata inv) i = option_map decoded (nth_error rs i)
          /\ nth_error (deleteIds inv) i
             = option_map deleted (nth_error rs i))
  /\ (forall w route inv rs h, tracks inv rs ->
        exists route' inv' h',
          fetch_page w route inv h = (Done (route', inv'), h')
          /\ tracks inv'
               (rs ++ page_records (get_nfts w h (MIRROR_NODE +++ route))))
  /\ (forall fuel w route inv rs h, tracks inv rs ->
        match fst (fetch_loop fuel w route inv h) with
        | Done inv' => exists more, tracks inv' (rs ++ more)
        | OutOfFuel => True
        | _ => False
        end)
  /\ (forall inv rs, tracks inv rs -> tracks (reverse_all inv) (rev rs)).
Proof.
  split; [| split; [| split]].
  - intros inv rs H. rewrite (tracks_stored inv rs H).
    cbn [stored serials metadata deleteIds].
    rewrite !length_map. repeat split; apply nth_error_map.
  - intros w route inv rs h H.
    destruct (fetch_page_tracks w route inv rs h H)
      as (route' & inv' & evs & E & H').
    eexists; eexists; eexists. split; [exact E | exact H'].
  - intros fuel w route inv rs h H. apply fetch_loop_tracks, H.
  - intros inv rs H. apply tracks_reverse, H.
Qed.

Lemma parallel_arrays_stay_aligned_witness :
  let inv := reverse_all (push_nft empty_inventory Scenario.lone_deleted) in
  tracks inv [Scenario.lone_deleted]
  /\ List.length (serials inv) = 1%nat
  /\ nth_error (serials inv) 0 = Some 7
  /\ nth_error (deleteIds inv) 0 = Some true.
Proof.
  intros inv.
  assert (H : tracks inv [Scenario.lone_deleted])
    by (apply (tracks_reverse _ [Scenario.lone_deleted]),
          (tracks_push _ [] Scenario.lone_deleted), tracks_empty).
  split; [exact H |].
  destruct (proj1 parallel_arrays_stay_aligned inv _ H) as (L & _ & _ & N).
  split; [exact L |]. split; apply N.
Defined.

(** ** Metadata payloads *)

Lemma batch_payloads_stored rs i :
  batch_payloads (stored rs) i
  = map (fun n => Buffer.from_string (decoded n)) (slice i (i + batchSize) rs).
Proof.
  unfold batch_payloads, stored, decoded. cbn [metadata].
  rewrite slice_map, map_map. reflexivity.
Qed.

(** C3, amended.  The payloads attached to the mint request of the batch
    that starts at [i] are, record by record and oldest first, the UTF-8
    encoding of the text that the base64-decoding of the record's metadata
    decodes to.  For each record this payload is the base64-decoding itself
    exactly when that decoding is well-formed UTF-8: decoding to text and
    encoding again loses nothing on such a blob, whatever the other records
    hold, and alters every other blob.  The payload is well-formed UTF-8 in
    either case. *)
Theorem text_metadata_survives_minting (received : list nft) (i : nat) :
  addMetadata (reverse_all (fold_left push_nft received empty_inventory)) i i []
  = Some (map (fun n => Buffer.from_string (decoded n))
              (slice i (i + batchSize) (rev received)))
  /\ forall n : nft,
       (Buffer.from_string (decoded n) = Buffer.from_base64 (nft_metadata n)
        <-> Buffer.well_formed_utf8 (Buffer.from_base64 (nft_metadata n)) = true)
       /\ Buffer.well_formed_utf8 (Buffer.from_string (decoded n)) = true.
Proof.
  split.
  - change empty_inventory with (stored []).
    rewrite fold_push_stored, reverse_all_stored. cbn [app].
    rewrite addMetadata_batch by apply stored_lengths.
    rewrite batch_payloads_stored. reflexivity.
  - intros n. unfold decoded.
    pose proof (Utf8Output.recoded_is_well_formed
                  (Buffer.from_base64 (nft_metadata n))) as Hwf.
    split; [| exact Hwf]. split.
    + intros E. rewrite E in Hwf. exact Hwf.
    + apply BufferFacts.utf8_round_trip.
Qed.

Lemma text_metadata_survives_minting_witness :
  addMetadata
    (reverse_all (fold_left push_nft
                    [Scenario.binary_nft; Scenario.lone_deleted]
                    empty_inventory))
    0 0 []
  = Some [[104; 101; 108; 108; 111]; [239; 191; 189]]
  /\ Buffer.from_base64 (nft_metadata Scenario.lone_deleted)
     = [104; 101; 108; 108; 111]
  /\ Buffer.from_string (decoded Scenario.lone_deleted)
     = Buffer.from_base64 (nft_metadata Scenario.lone_deleted).
Proof.
  destruct (text_metadata_survives_minting
              [Scenario.binary_nft; Scenario.lone_deleted] 0) as [E H].
  split; [rewrite E; reflexivity |]. split; [reflexivity |].
  apply (proj1 (H Scenario.lone_deleted)). reflexivity.
Defined.

(** C3 as stated fails: metadata made of the single byte 0xFF reaches the
    mint request as the three bytes of U+FFFD. *)
Lemma binary_metadata_is_altered :
  addMetadata
    (reverse_all (fold_left push_nft [Scenario.binary_nft] empty_inventory))
    0 0 []
  = Some [[239; 191; 189]]
  /\ Buffer.from_base64 (nft_metadata Scenario.binary_nft) = [255]
  /\ addMetadata
       (reverse_all (fold_left push_nft [Scenario.binary_nft] empty_inventory))
       0 0 []
     <> Some [Buffer.from_base64 (nft_metadata Scenario.binary_nft)].
Proof.
  split; [reflexivity |]. split; [reflexivity |]. discriminate.
Qed.

(** ** First request of a computation *)

Lemma bind_ask_first {A B} e (answer : history -> A) (k : A -> M B) h :
  (forall a, extends (k a)) ->
  exists evs, snd (bind (ask e answer) k h) = h ++ e :: evs.
Proof.
  intros Hk. unfold bind, ask.
  destruct (Hk (answer h) (h ++ [e])) as [evs E]. exists evs.
  rewrite E, <- app_assoc. reflexivity.
Qed.

Lemma extends_mint_loop w env tok inv (n : nat) : forall i,
  (List.length (serials inv) - i <= n)%nat ->
  extends (mint_loop w env tok inv i).
Proof.
  induction n as [| n IH]; intros i Hn h; rewrite mint_loop_step.
  - rewrite (proj2 (Nat.ltb_nlt _ _)) by lia. exists []. now rewrite app_nil_r.
  - destruct (Nat.ltb_spec i (List.length (serials inv))).
    + apply extends_bind; [apply extends_mint_batch |].
      intros _. apply IH. unfold batchSize. lia.
    + exists []. now rewrite app_nil_r.
Qed.

Lemma extends_mint_loop_any w env tok inv i : extends (mint_loop w env tok inv i).
Proof. apply (extends_mint_loop w env tok inv (List.length (serials inv) - i)). lia. Qed.

Lemma bind_extends_first {A B} (m : M A) (k : A -> M B) h e evs :
  snd (m h) = h ++ e :: evs -> (forall a, extends (k a)) ->
  exists evs', snd (bind m k h) = h ++ e :: evs'.
Proof.
  intros E Hk. unfold bind.
  destruct (m h) as [[a | err | c |] h0]; cbn [snd] in E; subst h0;
    try (exists evs; reflexivity).
  destruct (Hk a (h ++ e :: evs)) as [evs2 E2]. exists (evs ++ evs2).
  rewrite E2, <- app_assoc. reflexivity.
Qed.

Lemma mint_batch_first_request w env tok inv i h :
  List.length (metadata inv) = List.length (serials inv) ->
  exists evs,
    snd (mint_batch w env tok inv i h)
    = h ++ TokenMint (mint_request w env tok (batch_payloads inv i)) :: evs.
Proof.
  intros Hlen. unfold mint_batch. rewrite (addMetadata_batch inv i Hlen).
  fold (mint_request w env tok (batch_payloads inv i)).
  destruct (bind_ask_first
              (TokenMint (mint_request w env tok (batch_payloads inv i)))
              (fun h => mint_token w h (mint_request w env tok (batch_payloads inv i)))
              (fun r => match r with
                        | ExecuteRejected err => throw (Rejection err)
                        | ReceiptRejected err =>
                            console_log err ;;
                            console_log "Token Mint **FAILED**" ;; process_exit 1
                        | Receipt mintReceipt => ret mintReceipt
                        end) h) as [evs E].
  { intros []; unfold console_log; extends_steps. }
  eapply bind_extends_first; [exact E |].
  intros r. unfold console_log. extends_steps.
Qed.

(** C6.  If the records arrive as [received ++ [rN]], newest first, the
    arrays after the reversal hold [rN :: rev received]; and whatever the
    ledger answers, the first request of the minting loop is a mint request
    whose first payload is the metadata of [rN]. *)
Theorem reversal_restores_mint_order (received : list nft) (rN : nft) :
  let inv := fold_left push_nft (received ++ [rN]) empty_inventory in
  reverse_all inv = stored (rN :: rev received)
  /\ forall w env newToken h,
       exists rest evs,
         snd (mint_loop w env newToken (reverse_all inv) 0 h)
         = h ++ TokenMint
                  (mint_request w env newToken
                     (Buffer.from_string (decoded rN) :: rest))
                :: evs.
Proof.
  intros inv.
  assert (E : reverse_all inv = stored (rN :: rev received)).
  { unfold inv. change empty_inventory with (stored []).
    rewrite fold_push_stored, reverse_all_stored. cbn [app].
    rewrite rev_app_distr. reflexivity. }
  split; [exact E |]. intros w env newToken h. rewrite E.
  rewrite mint_loop_step. cbn [stored serials List.length map Nat.ltb Nat.leb].
  destruct (mint_batch_first_request w env newToken
              (stored (rN :: rev received)) 0 h (stored_lengths _))
    as [evs Hevs].
  destruct (bind_extends_first _
              (fun _ => mint_loop w env newToken (stored (rN :: rev received))
                          (0 + batchSize)) _ _ _ Hevs) as [evs' Hevs'].
  { intros _. apply extends_mint_loop_any. }
  rewrite batch_payloads_stored in Hevs'.
  unfold slice in Hevs'. cbn [skipn Nat.add Nat.sub batchSize firstn map] in Hevs'.
  eexists; eexists. exact Hevs'.
Qed.

(** Two lists of the same length have the same elements at the flagged
    positions exactly when they agree at every flagged position. *)
Lemma at_flagged_positions_agree {A} (xs ys : list A) : forall flags,
  List.length xs = List.length ys ->
  at_flagged_positions xs flags = at_flagged_positions ys flags
  <-> (forall j, nth j flags false = true -> nth_error xs j = nth_error ys j).
Proof.
  unfold at_flagged_positions. revert ys.
  induction xs as [| x xs IH]; intros [| y ys] flags Hlen;
    try discriminate Hlen.
  - split; [intros _ j _; reflexivity | reflexivity].
  - destruct flags as [| flag flags].
    + split; [intros _ [| j] Hj; discriminate Hj | reflexivity].
    + injection Hlen as Hlen. specialize (IH ys flags Hlen).
      cbn [combine filter snd]. destruct flag; cbn [map fst].
      * split.
        -- intros E. injection E as -> E. intros [| j] Hj; [reflexivity |].
           cbn [nth_error]. apply (proj1 IH E j Hj).
        -- intros H. pose proof (H 0%nat eq_refl) as H0.
           injection H0 as ->. f_equal.
           apply (proj2 IH). intros j Hj. apply (H (S j) Hj).
      * split.
        -- intros E [| j] Hj; [discriminate Hj |].
           cbn [nth_error]. apply (proj1 IH E j Hj).
        -- intros H. apply (proj2 IH). intros j Hj. apply (H (S j) Hj).
Qed.

(** C1, amended.  In the batch that starts at [i], once the mint receipt
    is there, the burn request (sent when the set is not empty) carries the
    source serial numbers held in [serials] at the positions of the batch
    whose deletion flag is set; the receipt's serials play no part.  For a
    receipt with one serial for each record of the batch, the set is that
    of the newly minted serials at those positions exactly when the ledger
    assigned, at every flagged position, the serial that the source has
    there; so it is when the ledger assigned the source's serials position
    by position. *)
Theorem burn_set_is_source_serials w env newToken inv i h payloads r :
  addMetadata inv i i [] = Some payloads ->
  mint_token w h (mint_request w env newToken payloads) = Receipt r ->
  let source := slice i (i + batchSize) (serials inv) in
  let flags := slice i (i + batchSize) (deleteIds inv) in
  exists evs,
    snd (mint_batch w env newToken inv i h) = h ++ evs
    /\ burn_requests evs
       = (if (0 <? List.length (toDelete inv i))%nat
          then [burn_request w env newToken (toDelete inv i)] else [])
    /\ toDelete inv i = at_flagged_positions source flags
    /\ (List.length (receipt_serials r) = List.length source ->
        toDelete inv i = at_flagged_positions (receipt_serials r) flags
        <-> (forall j, nth j flags false = true ->
                       nth_error (receipt_serials r) j = nth_error source j))
    /\ (receipt_serials r = source ->
        toDelete inv i = at_flagged_positions (receipt_serials r) flags).
Proof.
  intros Hadd Hmint source flags.
  destruct (mint_batch_requests w env newToken inv i h payloads r Hadd Hmint)
    as (evs & E & _ & B).
  exists evs. split; [exact E |]. split; [exact B |].
  split; [apply toDelete_flagged |]. split.
  - intros Hlen. rewrite toDelete_flagged. fold source flags.
    rewrite <- (at_flagged_positions_agree (receipt_serials r) source flags Hlen).
    split; intros H; symmetry; exact H.
  - intros ->. apply toDelete_flagged.
Qed.

Lemma burn_set_is_source_serials_witness :
  let inv := reverse_all (stored [Scenario.lone_deleted]) in
  let w := Scenario.one_deleted in
  addMetadata inv 0 0 [] = Some [[104; 101; 108; 108; 111]]
  /\ mint_token w []
       (mint_request w Scenario.env "0.0.1001" [[104; 101; 108; 108; 111]])
     = Receipt {| receipt_serials := [1] |}
  /\ exists evs,
       snd (mint_batch w Scenario.env "0.0.1001" inv 0 []) = [] ++ evs
       /\ map burn_serials (burn_requests evs) = [[7]].
Proof.
  intros inv w.
  assert (Hadd : addMetadata inv 0 0 [] = Some [[104; 101; 108; 108; 111]])
    by reflexivity.
  assert (Hmint : mint_token w []
            (mint_request w Scenario.env "0.0.1001" [[104; 101; 108; 108; 111]])
          = Receipt {| receipt_serials := [1] |}) by reflexivity.
  split; [exact Hadd |]. split; [exact Hmint |].
  destruct (burn_set_is_source_serials w Scenario.env "0.0.1001" inv 0 []
              _ _ Hadd Hmint) as (evs & E & B & _).
  exists evs. split; [exact E |]. rewrite B. reflexivity.
Defined.

(** C1 as stated fails: for a collection whose only NFT has serial 7 and
    is deleted, the ledger assigns serial 1 and the burn request names
    serial 7. *)
Lemma burn_set_is_not_minted_serials :
  let inv := reverse_all (stored [Scenario.lone_deleted]) in
  let w := Scenario.one_deleted in
  mint_token w []
    (mint_request w Scenario.env "0.0.1001" [[104; 101; 108; 108; 111]])
  = Receipt {| receipt_serials := [1] |}
  /\ map burn_serials
       (burn_requests (snd (mint_batch w Scenario.env "0.0.1001" inv 0 [])))
     = [[7]]
  /\ [7] <> at_flagged_positions [1] (slice 0 batchSize (deleteIds inv))
  /\ map burn_serials
       (burn_requests
          (snd (script 1 w Scenario.env (Scenario.argv_with "0.0.111"))))
     = [[7]].
Proof.
  cbv zeta. split; [reflexivity |]. split; [reflexivity |].
  split; [discriminate |]. vm_compute. reflexivity.
Qed.

(** ** Pagination *)

Lemma mirror_requests_app h1 h2 :
  mirror_requests (h1 ++ h2) = mirror_requests h1 ++ mirror_requests h2.
Proof.
  induction h1 as [| [] h1 IH]; cbn; rewrite ?IH; reflexivity.
Qed.

Lemma fetch_page_failed w route inv h err :
  get_nfts w h (MIRROR_NODE +++ route) = Failed err ->
  fetch_page w route inv h
  = (Done (Some route, inv),
     h ++ [MirrorGet (MIRROR_NODE +++ route); ConsoleError err]).
Proof.
  intros E. unfold fetch_page, bind, ask, console_error, emit, ret.
  rewrite E. flatten_history. reflexivity.
Qed.

(** C4.  A failed page fetch leaves [route] and the arrays as they were,
    having recorded the request and printed the error.  When the page fails
    every time it is asked for, the pagination loop is still running after
    any number of turns: each turn asked for that same page, and nothing
    was sent to the ledger. *)
Theorem failing_page_is_retried_forever w route inv :
  (forall h err,
     get_nfts w h (MIRROR_NODE +++ route) = Failed err ->
     fetch_page w route inv h
     = (Done (Some route, inv),
        h ++ [MirrorGet (MIRROR_NODE +++ route); ConsoleError err]))
  /\ (page_always_fails w (MIRROR_NODE +++ route) ->
      forall fuel h,
        exists evs,
          fetch_loop fuel w route inv h = (OutOfFuel, h ++ evs)
          /\ mirror_requests evs = repeat (MIRROR_NODE +++ route) fuel
          /\ filter is_ledger_event evs = []).
Proof.
  split; [intros h err; apply fetch_page_failed |].
  intros Hfail fuel. induction fuel as [| fuel IH]; intros h.
  - exists []. cbn. now rewrite app_nil_r.
  - destruct (Hfail h) as [err E]. cbn [fetch_loop].
    rewrite (bind_Done _ _ _ _ _ (fetch_page_failed w route inv h err E)).
    destruct (IH (h ++ [MirrorGet (MIRROR_NODE +++ route); ConsoleError err]))
      as (evs & E' & R & L).
    exists ([MirrorGet (MIRROR_NODE +++ route); ConsoleError err] ++ evs).
    rewrite E', app_assoc. split; [reflexivity |].
    rewrite mirror_requests_app, filter_app, R, L. split; reflexivity.
Qed.

Lemma failing_page_is_retried_forever_witness :
  page_always_fails Scenario.offline
    (MIRROR_NODE +++ "/api/v1/tokens/0.0.111/nfts?limit=100")
  /\ exists evs,
       fetch_loop 3 Scenario.offline "/api/v1/tokens/0.0.111/nfts?limit=100"
         empty_inventory []
       = (OutOfFuel, [] ++ evs)
       /\ mirror_requests evs
          = repeat (MIRROR_NODE +++ "/api/v1/tokens/0.0.111/nfts?limit=100") 3.
Proof.
  assert (H : page_always_fails Scenario.offline
                (MIRROR_NODE +++ "/api/v1/tokens/0.0.111/nfts?limit=100"))
    by (intros h; eexists; reflexivity).
  split; [exact H |].
  destruct (proj2 (failing_page_is_retried_forever Scenario.offline
                     "/api/v1/tokens/0.0.111/nfts?limit=100" empty_inventory)
                  H 3%nat []) as (evs & E & R & _).
  exists evs. split; [exact E | exact R].
Defined.

(** ** Tokens that are skipped *)



(** ** Reading numbers *)

Ltac digit_cases d H :=
  let C := fresh "C" in
  assert (C : d = 0 \/ d = 1 \/ d = 2 \/ d = 3 \/ d = 4 \/ d = 5 \/ d = 6
              \/ d = 7 \/ d = 8 \/ d = 9) by lia;
  clear H;
  repeat (destruct C as [-> | C]); [.. | subst d].

Lemma digit_char_value d :
  0 <= d <= 9 -> digit_value 10 (digit_char d) = Some d.
Proof. intros H. digit_cases d H; reflexivity. Qed.

Lemma digit_char_plain d :
  0 <= d <= 9 ->
  is_space (digit_char d) = false
  /\ Ascii.eqb (digit_char d) "0" = (d =? 0)
  /\ forall c, In c ["-"; "+"; "x"; "X"; "o"; "O"; "b"; "B"; "I"]%char ->
               Ascii.eqb (digit_char d) c = false.
Proof.
  intros H.
  digit_cases d H; (split; [reflexivity |]); (split; [reflexivity |]);
    intros c Hc; cbn [In] in Hc;
    repeat (destruct Hc as [<- | Hc]; [reflexivity |]); contradiction.
Qed.

Lemma read_digits_text ds : forall acc count,
  Forall (fun d => 0 <= d <= 9) ds ->
  read_digits (digits_text ds) acc count
  = (fold_left (fun acc d => 10 * acc + d) ds acc,
     (count + List.length ds)%nat, EmptyString).
Proof.
  induction ds as [| d ds IH]; intros acc count Hds; cbn [digits_text].
  - cbn. now rewrite Nat.add_0_r.
  - inversion Hds as [| ? ? Hd Hrest]; subst.
    cbn [read_digits]. rewrite (digit_char_value d Hd).
    rewrite IH by exact Hrest. cbn [fold_left List.length].
    now rewrite Nat.add_succ_r.
Qed.

Lemma trim_start_text d ds :
  0 <= d <= 9 -> trim_start (digits_text (d :: ds)) = digits_text (d :: ds).
Proof.
  intros Hd. cbn [digits_text trim_start].
  now rewrite (proj1 (digit_char_plain d Hd)).
Qed.

Lemma trim_end_text ds :
  Forall (fun d => 0 <= d <= 9) ds ->
  trim_end (digits_text ds) = digits_text ds.
Proof.
  induction ds as [| d ds IH]; intros Hds; [reflexivity |].
  inversion Hds as [| ? ? Hd Hrest]; subst.
  cbn [digits_text trim_end]. rewrite (IH Hrest).
  destruct (digits_text ds); [| reflexivity].
  now rewrite (proj1 (digit_char_plain d Hd)).
Qed.

Lemma decimal_literal_text ds :
  ds <> [] -> Forall (fun d => 0 <= d <= 9) ds ->
  decimal_literal (digits_text ds) = Some (digits_value ds, 0).
Proof.
  intros Hne Hds. unfold decimal_literal.
  rewrite (read_digits_text ds 0 0%nat Hds).
  destruct ds as [| d ds]; [contradiction |].
  cbn [List.length Nat.add Nat.eqb]. reflexivity.
Qed.

Lemma signed_literal_text negative ds :
  ds <> [] -> Forall (fun d => 0 <= d <= 9) ds ->
  signed_literal negative (digits_text ds)
  = round_to_double negative (digits_value ds) 1.
Proof.
  intros Hne Hds. unfold signed_literal.
  rewrite (decimal_literal_text ds Hne Hds).
  destruct ds as [| d ds]; [contradiction |].
  inversion Hds as [| ? ? Hd Hrest]; subst.
  destruct (digit_char_plain d Hd) as (_ & _ & Hplain).
  cbn [digits_text String.eqb].
  rewrite (Hplain "I"%char) by (cbn [In]; tauto).
  unfold decimal_to_double. cbn [Z.leb Z.compare].
  change (10 ^ 0) with 1. now rewrite Z.mul_1_r.
Qed.

Lemma string_to_number_text ds :
  ds <> [] -> Forall (fun d => 0 <= d <= 9) ds ->
  string_to_number (digits_text ds) = round_to_double false (digits_value ds) 1.
Proof.
  intros Hne Hds. unfold string_to_number.
  destruct ds as [| d ds]; [contradiction |].
  inversion Hds as [| ? ? Hd Hrest]; subst.
  rewrite (trim_start_text d ds Hd), (trim_end_text (d :: ds) Hds).
  rewrite <- (signed_literal_text false (d :: ds) Hne Hds).
  destruct (digit_char_plain d Hd) as (_ & _ & Hplain).
  cbn [digits_text].
  rewrite (Hplain "-"%char), (Hplain "+"%char) by (cbn [In]; tauto).
  destruct (Ascii.eqb (digit_char d) "0"); [| reflexivity].
  destruct ds as [| r ds]; [reflexivity |].
  inversion Hrest as [| ? ? Hr _]; subst.
  destruct (digit_char_plain r Hr) as (_ & _ & Hr').
  cbn [digits_text].
  rewrite (Hr' "x"%char), (Hr' "X"%char), (Hr' "o"%char), (Hr' "O"%char),
    (Hr' "b"%char), (Hr' "B"%char) by (cbn [In]; tauto).
  reflexivity.
Qed.

(** ** Rounding integers *)

Lemma round_half_even_floor p q : p / q <= round_half_even p q.
Proof.
  unfold round_half_even.
  destruct (_ <? _); [lia |]. destruct (_ <? _); [lia |].
  destruct (Z.even _); lia.
Qed.

Lemma round_half_even_whole p : round_half_even p 1 = p.
Proof.
  unfold round_half_even. rewrite Z.mod_1_r, Z.div_1_r. reflexivity.
Qed.

Lemma binade_integer p : 0 < p -> binade p 1 = Z.log2 p.
Proof.
  intros Hp. unfold binade. change (Z.log2 1) with 0. rewrite Z.sub_0_r.
  pose proof (Z.log2_nonneg p) as Hl.
  destruct (Z.log2_spec p Hp) as [Hlo _].
  rewrite Z.max_l by lia. rewrite (Z.max_r (- Z.log2 p) 0) by lia.
  change (2 ^ 0) with 1.
  destruct (Z.leb_spec (1 * 2 ^ Z.log2 p) (p * 1)); [reflexivity | lia].
Qed.

(** The double nearest to a positive integer is positive. *)
Lemma gt0_integer n : 0 <= n -> gt0 (round_to_double false n 1) = (0 <? n).
Proof.
  intros Hn. unfold round_to_double.
  destruct (Z.eqb_spec n 0) as [-> | Hn0]; [reflexivity |].
  assert (Hp : 0 < n) by lia.
  rewrite (binade_integer n Hp).
  pose proof (Z.log2_nonneg n) as Hl.
  destruct (Z.log2_spec n Hp) as [Hlo _].
  rewrite (Z.max_l (Z.log2 n - 52) (-1074)) by lia.
  set (e := Z.log2 n - 52) in *.
  set (m := round_half_even _ _).
  assert (Hm : 0 < m).
  { pose proof (round_half_even_floor (n * 2 ^ Z.max (- e) 0)
                  (1 * 2 ^ Z.max e 0)) as Hfloor.
    fold m in Hfloor.
    enough (1 <= n * 2 ^ Z.max (- e) 0 / (1 * 2 ^ Z.max e 0)) by lia.
    rewrite Z.mul_1_l.
    assert (Hq : 0 < 2 ^ Z.max e 0) by (apply Z.pow_pos_nonneg; lia).
    apply Z.div_le_lower_bound; [exact Hq |]. rewrite Z.mul_1_r.
    destruct (Z.le_gt_cases e 0) as [He | He].
    - rewrite (Z.max_r e 0), (Z.max_l (- e) 0) by lia. change (2 ^ 0) with 1.
      assert (0 < 2 ^ (- e)) by (apply Z.pow_pos_nonneg; lia). nia.
    - rewrite (Z.max_l e 0), (Z.max_r (- e) 0) by lia. change (2 ^ 0) with 1.
      assert (2 ^ e <= 2 ^ Z.log2 n) by (apply Z.pow_le_mono_r; lia). lia. }
  destruct (Z.eqb_spec m 0); [lia |].
  destruct (Z.ltb_spec 0 n); [| lia].
  destruct (m =? 2 ^ 53); destruct (_ <? _); cbn [gt0 negb andb];
    try reflexivity.
  now apply Z.ltb_lt.
Qed.

(** An integer up to [2 ^ 53] is a double. *)
Lemma integer_is_double n :
  0 < n <= 2 ^ 53 -> integer_value (round_to_double false n 1) = Some n.
Proof.
  intros [Hp Hn].
  destruct (Z.eq_dec n (2 ^ 53)) as [-> | Hne]; [vm_compute; reflexivity |].
  assert (Hlt : n < 2 ^ 53) by lia.
  unfold round_to_double.
  destruct (Z.eqb_spec n 0); [lia |].
  rewrite (binade_integer n Hp).
  pose proof (Z.log2_nonneg n) as Hl.
  destruct (Z.log2_spec n Hp) as [Hlo Hhi].
  assert (Hl52 : Z.log2 n <= 52).
  { apply Z.lt_succ_r. apply (Z.pow_lt_mono_r_iff 2); lia. }
  rewrite (Z.max_l (Z.log2 n - 52) (-1074)) by lia.
  set (k := 52 - Z.log2 n).
  replace (Z.log2 n - 52) with (- k) by (unfold k; lia).
  assert (Hk : 0 <= k <= 52) by (unfold k; lia).
  rewrite Z.opp_involutive, (Z.max_l k 0), (Z.max_r (- k) 0) by lia.
  change (1 * 2 ^ 0) with 1. rewrite round_half_even_whole.
  assert (Hpow : 0 < 2 ^ k) by (apply Z.pow_pos_nonneg; lia).
  assert (Hm : n * 2 ^ k < 2 ^ 53).
  { replace 53 with (Z.succ (Z.log2 n) + k) by (unfold k; lia).
    rewrite Z.pow_add_r by lia. nia. }
  destruct (Z.eqb_spec (n * 2 ^ k) 0); [nia |].
  destruct (Z.eqb_spec (n * 2 ^ k) (2 ^ 53)); [lia |].
  destruct (Z.ltb_spec 971 (- k)); [lia |].
  unfold integer_value. rewrite Z.opp_involutive.
  destruct (Z.leb_spec 0 (- k)).
  - replace k with 0 by lia. change (2 ^ (- 0)) with 1. change (2 ^ 0) with 1.
    f_equal. lia.
  - rewrite Z.mod_mul by lia. cbn [Z.eqb]. rewrite Z.div_mul by lia.
    f_equal. lia.
Qed.

(** ** Texts that are not numbers *)

Lemma occurs_trim_start c s :
  is_space c = false -> occurs c s = true -> occurs c (trim_start s) = true.
Proof.
  intros Hc. induction s as [| a s IH]; intros H; [discriminate H |].
  cbn [trim_start]. destruct (is_space a) eqn:Ha; [| exact H].
  cbn [occurs] in H. destruct (Ascii.eqb_spec a c) as [-> | _].
  - congruence.
  - apply IH, H.
Qed.

Lemma occurs_trim_end c s :
  is_space c = false -> occurs c s = true -> occurs c (trim_end s) = true.
Proof.
  intros Hc. induction s as [| a s IH]; intros H; [discriminate H |].
  cbn [trim_end]. cbn [occurs] in H.
  destruct (Ascii.eqb_spec a c) as [-> | Hac].
  - destruct (trim_end s); [rewrite Hc |]; cbn [occurs];
      now rewrite Ascii.eqb_refl.
  - cbn [orb] in H. specialize (IH H).
    destruct (trim_end s); [discriminate IH |].
    cbn [occurs] in *. rewrite IH. apply orb_true_r.
Qed.

Lemma digit_value_numeric radix c v :
  digit_value radix c = Some v -> numeric_char c = true.
Proof.
  unfold digit_value, numeric_char.
  destruct (Buffer.between 48 57 _); [intros _; apply orb_true_iff; left;
    rewrite !orb_true_r; reflexivity |].
  destruct (Buffer.between 97 102 _); [intros _; apply orb_true_iff; left;
    rewrite !orb_true_r; reflexivity |].
  destruct (Buffer.between 65 70 _); [intros _; apply orb_true_iff; left;
    rewrite !orb_true_r; reflexivity |].
  rewrite Z.ltb_irrefl. discriminate.
Qed.

Lemma radix_value_numeric radix s : forall acc v,
  radix_value radix s acc = Some v ->
  forall c, occurs c s = true -> numeric_char c = true.
Proof.
  induction s as [| a s IH]; intros acc v H c Hc; [discriminate Hc |].
  cbn [radix_value] in H. destruct (digit_value radix a) as [d |] eqn:Ha;
    [| discriminate H].
  cbn [occurs] in Hc. destruct (Ascii.eqb_spec a c) as [E | _].
  - subst a. apply (digit_value_numeric radix c d Ha).
  - apply (IH _ _ H c Hc).
Qed.

Lemma read_digits_numeric s : forall acc count v count' rest,
  read_digits s acc count = (v, count', rest) ->
  forall c, occurs c s = true -> numeric_char c = true \/ occurs c rest = true.
Proof.
  induction s as [| a s IH]; intros acc count v count' rest H c Hc;
    [discriminate Hc |].
  cbn [read_digits] in H. destruct (digit_value 10 a) as [d |] eqn:Ha.
  - cbn [occurs] in Hc. destruct (Ascii.eqb_spec a c) as [E | _].
    + subst a. left. apply (digit_value_numeric 10 c d Ha).
    + apply (IH _ _ _ _ _ H c Hc).
  - injection H as _ _ <-. right. exact Hc.
Qed.

Ltac listed := vm_compute; reflexivity.

Lemma decimal_literal_numeric s x :
  decimal_literal s = Some x ->
  forall c, occurs c s = true -> numeric_char c = true.
Proof.
  unfold decimal_literal.
  destruct (read_digits s 0 0) as [[whole n_whole] s1] eqn:E1.
  intros H c Hc.
  destruct (read_digits_numeric s _ _ _ _ _ E1 c Hc) as [Hn | Hc1];
    [exact Hn |]. clear E1 Hc.
  destruct (match s1 with EmptyString => _ | String _ _ => _ end)
    as [[mantissa n_fraction] s2] eqn:E2.
  assert (Hfrac : numeric_char c = true \/ occurs c s2 = true).
  { destruct s1 as [| c' rest]; [discriminate Hc1 |].
    destruct (Ascii.eqb_spec c' ".") as [-> | _].
    - cbn [occurs] in Hc1. destruct (Ascii.eqb_spec "." c) as [E | _].
      + subst c. left. listed.
      + apply (read_digits_numeric rest _ _ _ _ _ E2 c Hc1).
    - injection E2 as _ _ <-. right. exact Hc1. }
  destruct Hfrac as [Hn | Hc2]; [exact Hn |]. clear E2 Hc1.
  destruct (_ =? _)%nat; [discriminate H |].
  destruct s2 as [| e rest]; [discriminate Hc2 |].
  destruct (Ascii.eqb e "e" || Ascii.eqb e "E") eqn:He; [| discriminate H].
  cbn [occurs] in Hc2. destruct (Ascii.eqb_spec e c) as [E | _].
  { subst c. apply (digit_value_numeric 16 e (if Ascii.eqb e "e" then 14 else 14)).
    apply orb_true_iff in He as [He | He]; apply Ascii.eqb_eq in He;
      subst e; reflexivity. }
  cbn [orb] in Hc2.
  destruct (match rest with EmptyString => _ | String _ _ => _ end)
    as [minus rest'] eqn:E3.
  assert (Hsign : numeric_char c = true \/ occurs c rest' = true).
  { destruct rest as [| sign r]; [discriminate Hc2 |].
    cbn [occurs] in Hc2.
    destruct (Ascii.eqb_spec sign "-") as [-> | _].
    - injection E3 as _ <-. destruct (Ascii.eqb_spec "-" c) as [E | _];
        [subst c; left; listed | right; exact Hc2].
    - destruct (Ascii.eqb_spec sign "+") as [-> | _].
      + injection E3 as _ <-. destruct (Ascii.eqb_spec "+" c) as [E | _];
          [subst c; left; listed | right; exact Hc2].
      + injection E3 as _ <-. right. exact Hc2. }
  destruct Hsign as [Hn | Hc3]; [exact Hn |]. clear E3 Hc2.
  destruct (read_digits rest' 0 0) as [[ev n_e] s3] eqn:E4.
  destruct (read_digits_numeric rest' _ _ _ _ _ E4 c Hc3) as [Hn | Hc4];
    [exact Hn |].
  destruct n_e; [discriminate H |]. destruct s3; [discriminate Hc4 |].
  discriminate H.
Qed.

Lemma signed_literal_numeric negative s :
  signed_literal negative s <> NaN ->
  forall c, occurs c s = true -> numeric_char c = true.
Proof.
  unfold signed_literal. intros H c Hc.
  destruct (String.eqb s "Infinity") eqn:E.
  - apply String.eqb_eq in E. subst s. cbn [occurs] in Hc.
    repeat (apply orb_true_iff in Hc as [Hc | Hc];
            [apply Ascii.eqb_eq in Hc; subst c; listed |]).
    discriminate Hc.
  - destruct (decimal_literal s) as [x |] eqn:E'; [| contradiction].
    apply (decimal_literal_numeric s x E' c Hc).
Qed.

Lemma radix_literal_numeric radix s :
  radix_literal radix s <> NaN ->
  forall c, occurs c s = true -> numeric_char c = true.
Proof.
  unfold radix_literal. intros H c Hc.
  destruct s as [| a s]; [discriminate Hc |].
  destruct (radix_value radix (String a s) 0) as [v |] eqn:E;
    [| contradiction].
  apply (radix_value_numeric radix _ _ _ E c Hc).
Qed.

(** A text with a character that no number is written with is not a
    number. *)
Lemma string_to_number_NaN s c :
  occurs c s = true -> numeric_char c = false -> string_to_number s = NaN.
Proof.
  intros Hc Hn.
  assert (Hsp : is_space c = false).
  { unfold numeric_char in Hn. destruct (is_space c); [discriminate Hn |].
    reflexivity. }
  apply (occurs_trim_start c s Hsp) in Hc.
  apply (occurs_trim_end c _ Hsp) in Hc.
  unfold string_to_number. set (text := trim_end (trim_start s)) in *.
  assert (Hsigned : forall negative t,
            occurs c t = true -> signed_literal negative t = NaN).
  { intros negative t Ht.
    destruct (signed_literal negative t) eqn:E; [reflexivity | |];
      (assert (Hne : signed_literal negative t <> NaN)
         by (rewrite E; discriminate));
      pose proof (signed_literal_numeric negative t Hne c Ht); congruence. }
  assert (Hradix : forall radix t,
            occurs c t = true -> radix_literal radix t = NaN).
  { intros radix t Ht.
    destruct (radix_literal radix t) eqn:E; [reflexivity | |];
      (assert (Hne : radix_literal radix t <> NaN)
         by (rewrite E; discriminate));
      pose proof (radix_literal_numeric radix t Hne c Ht); congruence. }
  assert (Hnot : forall a, numeric_char a = true -> Ascii.eqb a c = false).
  { intros a Ha. destruct (Ascii.eqb_spec a c); [congruence | reflexivity]. }
  destruct text as [| a rest]; [discriminate Hc |].
  cbn [occurs] in Hc.
  destruct (Ascii.eqb_spec a "0") as [-> | _].
  - rewrite (Hnot "0"%char eq_refl) in Hc. cbn [orb] in Hc.
    destruct rest as [| r digits]; [discriminate Hc |].
    cbn [occurs] in Hc.
    assert (Hdigits : forall b, Ascii.eqb r b = true ->
              numeric_char b = true -> occurs c digits = true).
    { intros b Hb Hnb. apply Ascii.eqb_eq in Hb. subst r.
      now rewrite (Hnot b Hnb) in Hc. }
    assert (Hwhole : occurs c (String "0" (String r digits)) = true).
    { cbn [occurs]. rewrite (Hnot "0"%char eq_refl). exact Hc. }
    destruct (Ascii.eqb r "x") eqn:E1;
      [apply Hradix, (Hdigits "x"%char E1 eq_refl) |].
    destruct (Ascii.eqb r "X") eqn:E2;
      [apply Hradix, (Hdigits "X"%char E2 eq_refl) |].
    destruct (Ascii.eqb r "o") eqn:E3;
      [apply Hradix, (Hdigits "o"%char E3 eq_refl) |].
    destruct (Ascii.eqb r "O") eqn:E4;
      [apply Hradix, (Hdigits "O"%char E4 eq_refl) |].
    destruct (Ascii.eqb r "b") eqn:E5;
      [apply Hradix, (Hdigits "b"%char E5 eq_refl) |].
    destruct (Ascii.eqb r "B") eqn:E6;
      [apply Hradix, (Hdigits "B"%char E6 eq_refl) |].
    apply Hsigned, Hwhole.
  - destruct (Ascii.eqb_spec a "-") as [-> | _].
    { rewrite (Hnot "-"%char eq_refl) in Hc. apply Hsigned, Hc. }
    destruct (Ascii.eqb_spec a "+") as [-> | _].
    { rewrite (Hnot "+"%char eq_refl) in Hc. apply Hsigned, Hc. }
    apply Hsigned. cbn [occurs]. exact Hc.
Qed.

Lemma digits_value_nonneg ds :
  Forall (fun d => 0 <= d <= 9) ds -> 0 <= digits_value ds.
Proof.
  unfold digits_value.
  assert (H : forall acc, 0 <= acc ->
            Forall (fun d => 0 <= d <= 9) ds ->
            0 <= fold_left (fun acc d => 10 * acc + d) ds acc).
  { induction ds as [| d ds IH]; intros acc Hacc Hds; [exact Hacc |].
    inversion Hds; subst. cbn [fold_left]. apply IH; [lia | assumption]. }
  apply H. lia.
Qed.

(** ** Token creation *)

Lemma mint_loop_nothing w env tok inv h :
  serials inv = [] -> mint_loop w env tok inv 0 h = (Done tt, h).
Proof. intros E. rewrite mint_loop_step, E. reflexivity. Qed.

(** What lines 80 to 86 make of [Number(max_supply)]. *)
Lemma creation_follows_Number w env d :
  supplyType (tokenCreateTx w env d)
  = (if gt0 (Number (max_supply d)) then Finite else Infinite)
  /\ maxSupply (tokenCreateTx w env d)
     = (if gt0 (Number (max_supply d)) then Some (Number (max_supply d))
        else None).
Proof. split; reflexivity. Qed.

(** C9, amended.  The creation request has supply type Finite, with the
    double [Number(max_supply)] as its maximal supply, exactly when that
    double is greater than 0, and Infinite with no maximal supply otherwise.
    For a text of decimal digits that spells [n]: the type is Infinite when
    [n] is 0; when [n] is positive it is Finite, the maximal supply is the
    double nearest to [n], and that double is [n] itself when [n] is at most
    [2 ^ 53].  The type is Infinite for an absent value, for [null], for a
    text that is not a number, and so for any text with a character that no
    number is written with.  For a token
    whose inventory is one empty page, the creation request is all that the
    ledger receives, and the line "Mainnet Token <source> migrated to
    Testnet <newId>" is appended to [strOutput]. *)
Theorem supply_type_follows_max_supply :
  (forall w env d,
     supplyType (tokenCreateTx w env d)
     = (if gt0 (Number (max_supply d)) then Finite else Infinite)
     /\ maxSupply (tokenCreateTx w env d)
        = (if gt0 (Number (max_supply d)) then Some (Number (max_supply d))
           else None))
  /\ (forall w env d ds,
        max_supply d = JString (digits_text ds) ->
        ds <> [] ->
        Forall (fun digit => 0 <= digit <= 9) ds ->
        let n := digits_value ds in
        (n = 0 ->
         supplyType (tokenCreateTx w env d) = Infinite
         /\ maxSupply (tokenCreateTx w env d) = None)
        /\ (0 < n ->
            supplyType (tokenCreateTx w env d) = Finite
            /\ maxSupply (tokenCreateTx w env d)
               = Some (round_to_double false n 1)
            /\ (n <= 2 ^ 53 ->
                integer_value (round_to_double false n 1) = Some n)))
  /\ (forall w env d,
        max_supply d = JUndefined \/ max_supply d = JNull
        \/ Number (max_supply d) = NaN
        \/ (exists s c, max_supply d = JString s
                        /\ occurs c s = true /\ numeric_char c = false) ->
        supplyType (tokenCreateTx w env d) = Infinite
        /\ maxSupply (tokenCreateTx w env d) = None)
  /\ (forall fuel w env token strOutput h d newToken,
        get_token w h (MIRROR_NODE +++ "/api/v1/tokens/" +++ token) = Replied d ->
        type d = "NON_FUNGIBLE_UNIQUE"%string ->
        (forall h', create_token w h' (tokenCreateTx w env d) = Receipt newToken) ->
        (forall h',
           get_nfts w h'
             (MIRROR_NODE +++ "/api/v1/tokens/" +++ token +++ "/nfts?limit=100")
           = Replied {| nfts := []; links_next := None |}) ->
        exists evs,
          migrate_token (S fuel) w env token strOutput h
          = (Done (strOutput
                   ++ ["Mainnet Token " +++ token +++ " migrated to Testnet "
                       +++ newToken]),
             h ++ evs)
          /\ filter is_ledger_event evs = [TokenCreate (tokenCreateTx w env d)]).
Proof.
  split; [intros w env d; apply creation_follows_Number |].
  split; [| split].
  - intros w env d ds E Hne Hds n.
    destruct (creation_follows_Number w env d) as [-> ->].
    rewrite E. cbn [Number]. rewrite (string_to_number_text ds Hne Hds).
    fold n. pose proof (digits_value_nonneg ds Hds) as Hn. fold n in Hn.
    rewrite (gt0_integer n Hn). split.
    + intros ->. split; reflexivity.
    + intros Hpos. destruct (Z.ltb_spec 0 n); [| lia].
      split; [reflexivity |]. split; [reflexivity |].
      intros Hle. apply integer_is_double. lia.
  - intros w env d H.
    destruct (creation_follows_Number w env d) as [-> ->].
    destruct H as [-> | [-> | [-> | (s & c & -> & Hc & Hn)]]];
      [split; reflexivity | split; reflexivity | split; reflexivity |].
    cbn [Number]. rewrite (string_to_number_NaN s c Hc Hn).
    split; reflexivity.
  - intros fuel w env token strOutput h d newToken Hget Hty Hcreate Hnfts.
    unfold migrate_token, getTokenDetails.
    unfold bind at 1 2. unfold ask at 1. rewrite Hget. unfold ret at 1.
    cbn [type]. rewrite Hty. cbn [String.eqb Ascii.eqb Bool.eqb negb].
    replace {| symbol := symbol d; name := name d; max_supply := max_supply d;
               type := "NON_FUNGIBLE_UNIQUE"; custom_fees := custom_fees d;
               memo := memo d |} with d by (destruct d; cbn in *; now subst).
    unfold console_log, emit, bind at 1.
    unfold execute_create, bind at 1 2, ask at 1. rewrite Hcreate.
    unfold ret at 1, bind at 1.
    cbn [fetch_loop]. unfold fetch_page, bind at 1 2 3, ask at 1.
    rewrite Hnfts. cbn [nfts links_next fold_left]. unfold ret at 1 2.
    unfold bind at 1. cbn [serials empty_inventory List.length].
    unfold bind at 1.
    rewrite mint_loop_nothing by reflexivity. unfold ret.
    flatten_history. eexists. split; [reflexivity | reflexivity].
Qed.

Lemma supply_type_follows_max_supply_witness :
  let w := Scenario.issuing "0.0.1001" Scenario.empty_collection in
  Scenario.capped "1000" = Scenario.capped (digits_text [1; 0; 0; 0])
  /\ supplyType (tokenCreateTx w Scenario.env (Scenario.capped "1000")) = Finite
  /\ option_map integer_value
       (maxSupply (tokenCreateTx w Scenario.env (Scenario.capped "1000")))
     = Some (Some 1000)
  /\ supplyType (tokenCreateTx w Scenario.env Scenario.foo) = Infinite
  /\ supplyType (tokenCreateTx w Scenario.env (Scenario.capped "unlimited"))
     = Infinite
  /\ get_token w [] (Scenario.token_url "0.0.111") = Replied Scenario.foo
  /\ exists evs,
       migrate_token 1 w Scenario.env "0.0.111" [] []
       = (Done ["Mainnet Token 0.0.111 migrated to Testnet 0.0.1001"%string],
          [] ++ evs)
       /\ filter is_ledger_event evs
          = [TokenCreate (tokenCreateTx w Scenario.env Scenario.foo)].
Proof.
  intros w.
  destruct supply_type_follows_max_supply as (_ & Hdigits & Hnone & Hempty).
  assert (Hds : Forall (fun digit => 0 <= digit <= 9) [1; 0; 0; 0])
    by (repeat (apply Forall_cons; [lia |]); apply Forall_nil).
  destruct (Hdigits w Scenario.env (Scenario.capped "1000") [1; 0; 0; 0]
              eq_refl ltac:(discriminate) Hds) as [_ Hpos].
  destruct (Hpos ltac:(reflexivity)) as (Hfinite & Hmax & Hint).
  split; [reflexivity |]. split; [exact Hfinite |].
  split; [rewrite Hmax; cbn [option_map]; rewrite Hint; [reflexivity |];
          vm_compute; discriminate |].
  split.
  { destruct (Hdigits w Scenario.env Scenario.foo [0] eq_refl
                ltac:(discriminate)
                ltac:(apply Forall_cons; [lia | apply Forall_nil]))
      as [Hzero _].
    apply (Hzero eq_refl). }
  split.
  { apply (Hnone w Scenario.env (Scenario.capped "unlimited")).
    right. right. right. exists "unlimited"%string, "u"%char.
    split; [reflexivity |]. split; reflexivity. }
  split; [reflexivity |].
  apply (Hempty 0%nat w Scenario.env "0.0.111"%string [] []
           Scenario.foo "0.0.1001"%string);
    [reflexivity | reflexivity | intros h'; reflexivity
    | intros h'; reflexivity].
Defined.

(** C9 as stated fails: for the maximal supply 9007199254740993 the
    request is Finite with the maximal supply 9007199254740992, the nearest
    double, which is not the source's; and the positive value 1e-400, which
    rounds to 0, gives the type Infinite. *)
Lemma large_max_supply_is_rounded :
  let tx := tokenCreateTx Scenario.offline Scenario.env
              (Scenario.capped "9007199254740993") in
  supplyType tx = Finite
  /\ option_map integer_value (maxSupply tx) = Some (Some 9007199254740992)
  /\ option_map integer_value (maxSupply tx) <> Some (Some 9007199254740993)
  /\ supplyType (tokenCreateTx Scenario.offline Scenario.env
                   (Scenario.capped "1e-400")) = Infinite.
Proof.
  vm_compute. split; [reflexivity |]. split; [reflexivity |].
  split; [discriminate | reflexivity].
Qed.

(** ** The command line *)

Lemma split_not_empty sep s : (1 <= List.length (split sep s))%nat.
Proof.
  induction s as [| c s IH]; cbn [split]; [cbn; lia |].
  destruct (Ascii.eqb c sep); [cbn; lia |].
  destruct (split sep s); cbn in *; lia.
Qed.

Lemma extends_migrate_token fuel w env token strOutput :
  extends (migrate_token fuel w env token strOutput).
Proof.
  unfold migrate_token, console_log, console_error.
  apply extends_bind; [apply extends_getTokenDetails |].
  intros [d |]; [| extends_steps].
  destruct (negb _); [extends_steps |].
  apply extends_bind; [apply extends_emit | intros _].
  apply extends_bind; [apply extends_execute_create | intros newToken].
  apply extends_bind; [apply extends_emit | intros _].
  apply extends_bind; [apply extends_fetch_loop | intros inv].
  apply extends_bind; [apply extends_emit | intros _].
  apply extends_bind; [apply extends_mint_loop_any | intros _].
  apply extends_ret.
Qed.

Lemma extends_migrate_tokens fuel w env tokenList : forall strOutput,
  extends (migrate_tokens fuel w env tokenList strOutput).
Proof.
  induction tokenList as [| token rest IH]; intros strOutput;
    cbn [migrate_tokens]; [apply extends_ret |].
  apply extends_bind; [apply extends_migrate_token | apply IH].
Qed.

Lemma migrate_token_first_request fuel w env token strOutput h :
  exists evs,
    snd (migrate_token fuel w env token strOutput h)
    = h ++ MirrorGet (MIRROR_NODE +++ "/api/v1/tokens/" +++ token) :: evs.
Proof.
  unfold migrate_token.
  assert (E : exists evs,
             snd (getTokenDetails w token h)
             = h ++ MirrorGet (MIRROR_NODE +++ "/api/v1/tokens/" +++ token)
                 :: evs).
  { unfold getTokenDetails. apply bind_ask_first.
    intros []; unfold console_error; extends_steps. }
  destruct E as [evs E]. eapply bind_extends_first; [exact E |].
  intros [d |]; unfold console_log, console_error; [| extends_steps].
  destruct (negb _); [extends_steps |].
  apply extends_bind; [apply extends_emit | intros _].
  apply extends_bind; [apply extends_execute_create | intros newToken].
  apply extends_bind; [apply extends_emit | intros _].
  apply extends_bind; [apply extends_fetch_loop | intros inv].
  apply extends_bind; [apply extends_emit | intros _].
  apply extends_bind; [apply extends_mint_loop_any | intros _].
  apply extends_ret.
Qed.

Lemma migration_first_request fuel w env token rest h :
  exists evs,
    snd (migration fuel w env (token :: rest) h) = h ++ evs
    /\ In (MirrorGet (MIRROR_NODE +++ "/api/v1/tokens/" +++ token)) evs.
Proof.
  unfold migration.
  set (prologue := if negb (truthy (SUPPLY_KEY_env env)) then _ else _).
  assert (Hp : exists pre, prologue h = (Done tt, h ++ pre)).
  { unfold prologue. destruct (negb _).
    - unfold saveKeyToFile, console_log, bind, emit. flatten_history.
      eexists. reflexivity.
    - exists []. unfold ret. now rewrite app_nil_r. }
  destruct Hp as [pre Hp]. rewrite (bind_Done _ _ _ _ _ Hp).
  cbn [migrate_tokens].
  destruct (migrate_token_first_request fuel w env token [] (h ++ pre))
    as [evs E].
  destruct (bind_extends_first (migrate_token fuel w env token [])
              (fun s => migrate_tokens fuel w env rest s) (h ++ pre) _ _ E
              (fun s => extends_migrate_tokens fuel w env rest s))
    as [evs1 E1].
  destruct (bind_extends_first
              (bind (migrate_token fuel w env token [])
                    (fun s => migrate_tokens fuel w env rest s))
              (fun strOutput =>
                 console_log "Migration complete" ;;
                 console_log (String.concat newline strOutput))
              (h ++ pre) _ _ E1) as [evs' E'].
  { intros s. unfold console_log. extends_steps. }
  exists (pre ++ MirrorGet (MIRROR_NODE +++ "/api/v1/tokens/" +++ token)
              :: evs').
  rewrite E', <- app_assoc. split; [reflexivity |].
  apply in_or_app. right. left. reflexivity.
Qed.

(** C10.  Splitting any string on commas gives at least one element, so
    with an argument present [main] is the migration of the split list and
    the branch that throws 'Token list is empty' is never taken; the empty
    string splits into the list of the empty string, and [main] then asks
    the mirror node for the token named by the empty string. *)
Theorem token_list_is_never_empty :
  (forall s, (1 <= List.length (split "," s))%nat)
  /\ (forall fuel w env argv arg,
        includes "-h" argv = false ->
        nth_error argv 2 = Some arg ->
        main fuel w env argv = migration fuel w env (split "," arg))
  /\ split "," "" = [""%string]
  /\ (forall fuel w env node file h,
        includes "-h" [node; file; ""%string] = false ->
        exists evs,
          snd (main fuel w env [node; file; ""%string] h) = h ++ evs
          /\ In (MirrorGet (MIRROR_NODE +++ "/api/v1/tokens/" +++ "")) evs).
Proof.
  assert (Hmain : forall fuel w env argv arg,
            includes "-h" argv = false ->
            nth_error argv 2 = Some arg ->
            main fuel w env argv = migration fuel w env (split "," arg)).
  { intros fuel w env argv arg Hh Harg. unfold main. rewrite Hh, Harg.
    pose proof (split_not_empty "," arg) as Hlen.
    destruct (split "," arg); [cbn in Hlen; lia | reflexivity]. }
  split; [apply split_not_empty |]. split; [exact Hmain |].
  split; [reflexivity |].
  intros fuel w env node file h Hh.
  rewrite (Hmain fuel w env _ ""%string Hh eq_refl).
  apply migration_first_request.
Qed.

Lemma token_list_is_never_empty_witness :
  includes "-h" (Scenario.argv_with "") = false
  /\ nth_error (Scenario.argv_with "") 2 = Some ""%string
  /\ main 1 Scenario.offline Scenario.env (Scenario.argv_with "")
     = migration 1 Scenario.offline Scenario.env [""%string].
Proof.
  split; [reflexivity |]. split; [reflexivity |].
  exact (proj1 (proj2 token_list_is_never_empty) 1%nat Scenario.offline
           Scenario.env (Scenario.argv_with "") ""%string eq_refl eq_refl).
Defined.

(** C2, amended.  When both operator variables are set and the library
    reads the account and the key they hold, as well as the supply key if
    one is given, a run without the [-h] flag and without a token-list
    argument goes as follows: [main] fails with a TypeError before anything
    is printed or asked of the mirror node or the ledger; the handler
    attached to [main] catches the failure and prints it; the script does
    not end the process, which gets no exit status from it and stays
    alive. *)
Theorem missing_argument_is_caught fuel w env argv :
  operator_accepted w env = true ->
  supply_key_accepted w env = true ->
  includes "-h" argv = false ->
  nth_error argv 2 = None ->
  main fuel w env argv []
  = (Thrown (TypeError "Cannot read properties of undefined (reading 'split')"),
     [])
  /\ script fuel w env argv
     = (StaysAlive,
        [ConsoleError
           "TypeError: Cannot read properties of undefined (reading 'split')"]).
Proof.
  intros Ho Hs Hh Harg. unfold script. rewrite Ho, Hs. cbn [andb].
  unfold main. rewrite Hh, Harg. split; reflexivity.
Qed.

Lemma missing_argument_is_caught_witness :
  operator_accepted Scenario.offline Scenario.env = true
  /\ supply_key_accepted Scenario.offline Scenario.env = true
  /\ includes "-h" Scenario.argv_bare = false
  /\ nth_error Scenario.argv_bare 2 = None
  /\ script 1 Scenario.offline Scenario.env Scenario.argv_bare
     = (StaysAlive,
        [ConsoleError
           "TypeError: Cannot read properties of undefined (reading 'split')"]).
Proof.
  split; [reflexivity |]. split; [reflexivity |].
  split; [reflexivity |]. split; [reflexivity |].
  apply (missing_argument_is_caught 1 Scenario.offline Scenario.env
           Scenario.argv_bare); reflexivity.
Defined.

(** C2 as stated fails: with operator credentials that the library reads,
    the script with the argument missing does not end the process with
    status 1, nor with any status; with the empty string as argument it
    looks up the token named by the empty string, and does not end the
    process either. *)
Lemma missing_or_empty_argument_does_not_exit :
  operator_accepted Scenario.offline Scenario.env = true
  /\ fst (script 1 Scenario.offline Scenario.env Scenario.argv_bare)
     = StaysAlive
  /\ fst (script 1 Scenario.offline Scenario.env Scenario.argv_bare)
     <> Exits 1
  /\ fst (script 1 Scenario.offline Scenario.env (Scenario.argv_with ""))
     = StaysAlive
  /\ mirror_requests
       (snd (script 1 Scenario.offline Scenario.env (Scenario.argv_with "")))
     = [Scenario.token_url ""].
Proof.
  vm_compute. split; [reflexivity |]. split; [reflexivity |].
  split; [discriminate |]. split; reflexivity.
Qed.

(* ===================================================================== *)
(** ** Events of a run                                                    *)
(* ===================================================================== *)

Lemma keeps_ret {A} P (V : A -> Prop) a : V a -> keeps P V (ret a).
Proof.
  intros Ha h. exists []. cbn. rewrite app_nil_r. repeat split; auto.
Qed.

Lemma keeps_out_of_fuel {A} P (V : A -> Prop) : keeps P V out_of_fuel.
Proof.
  intros h. exists []. cbn. rewrite app_nil_r. repeat split; auto.
Qed.

Lemma keeps_emit P (V : unit -> Prop) e : P e -> V tt -> keeps P V (emit e).
Proof.
  intros He Hv h. exists [e]. cbn. repeat split; auto.
Qed.

Lemma keeps_ask {A} P (V : A -> Prop) e (answer : history -> A) :
  P e -> (forall h, V (answer h)) -> keeps P V (ask e answer).
Proof.
  intros He Hv h. exists [e]. cbn. repeat split; auto.
Qed.

Lemma ends_well_later {A} (V : A -> Prop) o evs1 evs2 :
  ends_well V o evs2 -> ends_well V o (evs1 ++ evs2).
Proof.
  destruct o as [a | e | c |]; cbn; auto.
  - intros (msg & pre & request & -> & -> & H).
    exists msg, (evs1 ++ pre), request. now rewrite app_assoc.
  - intros (-> & pre & err & line & -> & H). split; [reflexivity |].
    exists (evs1 ++ pre), err, line. now rewrite app_assoc.
Qed.

Lemma keeps_bind {A B} P (V : A -> Prop) (V' : B -> Prop) (m : M A)
  (k : A -> M B) :
  keeps P V m -> (forall a, V a -> keeps P V' (k a)) -> keeps P V' (bind m k).
Proof.
  intros Hm Hk h. unfold bind. destruct (Hm h) as (evs1 & E1 & F1 & W1).
  destruct (m h) as [[a | e | c |] h0]; cbn [fst snd] in *; subst h0;
    try (exists evs1; split; [reflexivity | split; [assumption | exact W1]]).
  destruct (Hk a W1 (h ++ evs1)) as (evs2 & E2 & F2 & W2).
  exists (evs1 ++ evs2). rewrite E2, app_assoc.
  split; [reflexivity |]. split; [apply Forall_app; split; assumption |].
  apply ends_well_later, W2.
Qed.

Lemma keeps_weaken {A} (P P' : event -> Prop) (V V' : A -> Prop) m :
  (forall e, P e -> P' e) -> (forall a, V a -> V' a) ->
  keeps P V m -> keeps P' V' m.
Proof.
  intros HP HV Hm h. destruct (Hm h) as (evs & E & F & W).
  exists evs. split; [assumption |]. split.
  - revert F. apply Forall_impl, HP.
  - destruct (fst (m h)); cbn in *; auto.
Qed.

Lemma keeps_submit {R} P (request : event) (answer : history -> submitted R)
  line :
  P request -> is_ledger_event request = true -> failure_line line ->
  (forall text, P (ConsoleLog text)) ->
  keeps P anything (submit request answer line).
Proof.
  intros Hp Hl Hf Hlog h.
  unfold submit, bind, ask, throw, console_log, emit, process_exit, ret.
  destruct (answer h) as [err | err | x]; cbn [fst snd]; flatten_history.
  - exists [request]. repeat split; [repeat constructor; assumption |].
    exists err, [], request. repeat split. assumption.
  - exists [request; ConsoleLog err; ConsoleLog line].
    repeat split; [repeat constructor; auto |].
    exists [request], err, line. split; [reflexivity | assumption].
  - exists [request]. repeat split. repeat constructor; assumption.
Qed.

Lemma keeps_getTokenDetails w env token :
  keeps (orderly w env) anything (getTokenDetails w token).
Proof.
  unfold getTokenDetails.
  eapply keeps_bind; [apply (keeps_ask _ anything); [exact I | intros; exact I] |].
  intros [err | d] _.
  - eapply keeps_bind; [apply (keeps_emit _ anything); exact I |].
    intros _ _. apply keeps_ret. exact I.
  - apply keeps_ret. exact I.
Qed.

Lemma keeps_execute_create w env d :
  keeps (orderly w env) anything (execute_create w (tokenCreateTx w env d)).
Proof.
  apply (keeps_submit (orderly w env)
           (TokenCreate (tokenCreateTx w env d))
           (fun h => create_token w h (tokenCreateTx w env d))
           "Token Create **FAILED*").
  - cbn. repeat split; reflexivity.
  - reflexivity.
  - left. reflexivity.
  - intros text. exact I.
Qed.

Lemma routine_orderly w env e : routine w env e -> orderly w env e.
Proof. destruct e; cbn; tauto. Qed.

Lemma keeps_fetch_page w env route inv rs :
  tracks inv rs ->
  keeps (routine w env)
        (fun s => exists more, tracks (snd s) (rs ++ more))
        (fetch_page w route inv).
Proof.
  intros H h. destruct (fetch_page_tracks w route inv rs h H)
    as (route' & inv' & evs & E & H').
  assert (F : Forall (routine w env) evs).
  { revert E. unfold fetch_page, bind, ask, console_error, emit, ret.
    destruct (get_nfts w h _); flatten_history; intros E;
      injection E as _ _ E; apply app_inv_head in E; subst evs;
      repeat constructor. }
  exists evs. rewrite E. cbn [fst snd]. repeat split; [exact F |].
  eexists. exact H'.
Qed.

Lemma keeps_fetch_loop fuel w env : forall route inv rs,
  tracks inv rs ->
  keeps (routine w env) (fun inv' => exists more, tracks inv' (rs ++ more))
        (fetch_loop fuel w route inv).
Proof.
  induction fuel as [| fuel IH]; intros route inv rs H; cbn [fetch_loop].
  - apply keeps_out_of_fuel.
  - eapply keeps_bind; [apply (keeps_fetch_page w env route inv rs H) |].
    intros [[route' |] inv'] [more H']; cbn [snd] in H'.
    + eapply keeps_weaken; [intros e He; exact He | | apply (IH _ _ _ H')].
      intros inv'' [more' H'']. exists (more ++ more').
      now rewrite app_assoc.
    + apply keeps_ret. exists more. exact H'.
Qed.

Lemma toDelete_length inv i : (List.length (toDelete inv i) <= batchSize)%nat.
Proof.
  rewrite toDelete_flagged. unfold at_flagged_positions.
  rewrite length_map.
  eapply Nat.le_trans; [apply filter_length_le |].
  rewrite length_combine, !slice_length. lia.
Qed.

Lemma holds_text_stored rs : holds_text (stored rs).
Proof.
  split; [apply stored_lengths |]. cbn [stored metadata].
  apply Forall_map, Forall_forall. intros n _. eexists. reflexivity.
Qed.

Lemma batch_payloads_text inv i :
  holds_text inv ->
  Forall (fun payload => Buffer.well_formed_utf8 payload = true)
         (batch_payloads inv i).
Proof.
  intros [_ Htext]. unfold batch_payloads.
  apply Forall_map, Forall_slice. revert Htext. apply Forall_impl.
  intros text [bs ->]. apply Utf8Output.recoded_is_well_formed.
Qed.

Lemma keeps_mint_batch w env tok inv i :
  holds_text inv ->
  (i < List.length (serials inv))%nat ->
  keeps (routine w env) anything (mint_batch w env tok inv i).
Proof.
  intros Htext Hi. pose proof (proj1 Htext) as Hlen.
  unfold mint_batch. rewrite (addMetadata_batch inv i Hlen).
  eapply keeps_bind.
  { apply (keeps_submit (routine w env)
             (TokenMint (mint_request w env tok (batch_payloads inv i)))
             (fun h => mint_token w h
                         (mint_request w env tok (batch_payloads inv i)))
             "Token Mint **FAILED**").
    - cbn. rewrite batch_payloads_length. unfold batchSize.
      split; [lia |]. split; [reflexivity |]. split; [reflexivity |].
      apply batch_payloads_text, Htext.
    - reflexivity.
    - right. left. reflexivity.
    - intros text. exact I. }
  intros r _.
  eapply keeps_bind; [apply (keeps_emit _ anything); exact I |].
  intros _ _.
  destruct (Nat.ltb_spec 0 (List.length (toDelete inv i))) as [Hpos | _];
    [| apply keeps_ret; exact I].
  eapply keeps_bind.
  { apply (keeps_submit (routine w env)
             (TokenBurn (burn_request w env tok (toDelete inv i)))
             (fun h => burn_token w h (burn_request w env tok (toDelete inv i)))
             "Token Burn **FAILED**").
    - cbn. pose proof (toDelete_length inv i). repeat split; lia.
    - reflexivity.
    - right. right. reflexivity.
    - intros text. exact I. }
  intros status _. apply keeps_emit; exact I.
Qed.

Lemma keeps_mint_loop w env tok inv (n : nat) : forall i,
  holds_text inv ->
  (List.length (serials inv) - i <= n)%nat ->
  keeps (routine w env) anything (mint_loop w env tok inv i).
Proof.
  induction n as [| n IH]; intros i Htext Hn h; rewrite mint_loop_step.
  - rewrite (proj2 (Nat.ltb_nlt _ _)) by lia.
    exists []. cbn. rewrite app_nil_r. repeat split; constructor.
  - destruct (Nat.ltb_spec i (List.length (serials inv))) as [Hi | Hi].
    + revert h. change (keeps (routine w env) anything
        (bind (mint_batch w env tok inv i)
              (fun _ => mint_loop w env tok inv (i + batchSize)))).
      eapply keeps_bind; [apply keeps_mint_batch; assumption |].
      intros _ _. apply IH; [assumption | unfold batchSize; lia].
    + exists []. cbn. rewrite app_nil_r. repeat split; constructor.
Qed.

Lemma keeps_migrate_token fuel w env token strOutput :
  keeps (orderly w env) anything (migrate_token fuel w env token strOutput).
Proof.
  unfold migrate_token.
  eapply keeps_bind; [apply keeps_getTokenDetails |].
  intros [d |] _.
  2:{ eapply keeps_bind; [apply (keeps_emit _ anything); exact I |].
      intros _ _. apply keeps_ret. exact I. }
  destruct (negb _).
  { eapply keeps_bind; [apply (keeps_emit _ anything); exact I |].
    intros _ _. apply keeps_ret. exact I. }
  eapply keeps_bind; [apply (keeps_emit _ anything); exact I |].
  intros _ _.
  eapply keeps_bind; [apply keeps_execute_create |].
  intros newToken _.
  eapply keeps_bind; [apply (keeps_emit _ anything); exact I |].
  intros _ _.
  eapply keeps_bind.
  { eapply keeps_weaken; [apply routine_orderly | intros a Ha; exact Ha |].
    apply (keeps_fetch_loop fuel w env _ _ [] tracks_empty). }
  intros inv [more Hinv]. cbn [app] in Hinv.
  eapply keeps_bind; [apply (keeps_emit _ anything); exact I |].
  intros _ _.
  eapply keeps_bind.
  { eapply keeps_weaken; [apply routine_orderly | intros a Ha; exact Ha |].
    apply (keeps_mint_loop w env newToken (reverse_all inv)
             (List.length (serials (reverse_all inv)))); [| lia].
    rewrite (tracks_stored _ _ Hinv), reverse_all_stored.
    apply holds_text_stored. }
  intros _ _. apply keeps_ret. exact I.
Qed.

Lemma keeps_migrate_tokens fuel w env tokenList : forall strOutput,
  keeps (orderly w env) anything (migrate_tokens fuel w env tokenList strOutput).
Proof.
  induction tokenList as [| token rest IH]; intros strOutput;
    cbn [migrate_tokens]; [apply keeps_ret; exact I |].
  eapply keeps_bind; [apply keeps_migrate_token |].
  intros s _. apply IH.
Qed.

(* ===================================================================== *)
(** ** The whole run                                                      *)
(* ===================================================================== *)

Lemma keeps_epilogue fuel w env tokenList :
  keeps (orderly w env) anything (epilogue fuel w env tokenList).
Proof.
  unfold epilogue.
  eapply keeps_bind; [apply keeps_migrate_tokens |].
  intros strOutput _.
  eapply keeps_bind; [apply (keeps_emit _ anything); exact I |].
  intros _ _. apply keeps_emit; exact I.
Qed.

Lemma main_is_migration fuel w env argv arg :
  includes "-h" argv = false -> nth_error argv 2 = Some arg ->
  main fuel w env argv = migration fuel w env (split "," arg).
Proof.
  intros Hh Harg. unfold main. rewrite Hh, Harg.
  pose proof (split_not_empty "," arg) as Hlen.
  destruct (split "," arg); [cbn in Hlen; lia | reflexivity].
Qed.

Lemma migration_with_key fuel w env tokenList h :
  truthy (SUPPLY_KEY_env env) = true ->
  migration fuel w env tokenList h = epilogue fuel w env tokenList h.
Proof. intros H. unfold migration. rewrite H. reflexivity. Qed.

Lemma migration_without_key fuel w env tokenList h :
  truthy (SUPPLY_KEY_env env) = false ->
  migration fuel w env tokenList h
  = epilogue fuel w env tokenList
      (h ++ key_notice tokenList (generated_key w)).
Proof.
  intros H. unfold migration, key_notice. rewrite H. cbn [negb].
  unfold saveKeyToFile, console_log, bind at 1 2, emit.
  flatten_history.
  replace (SUPPLY_KEY w env) with (generated_key w); [reflexivity |].
  unfold SUPPLY_KEY. destruct (SUPPLY_KEY_env env) as [k |]; [| reflexivity].
  rewrite H. reflexivity.
Qed.

(** What [main] adds to the history: the notice of a generated key, unless
    the key is given, then events that are all orderly. *)
Lemma main_run fuel w env argv arg h :
  includes "-h" argv = false -> nth_error argv 2 = Some arg ->
  exists evs,
    snd (main fuel w env argv h)
    = h ++ (if truthy (SUPPLY_KEY_env env) then []
            else key_notice (split "," arg) (generated_key w))
        ++ evs
    /\ Forall (orderly w env) evs
    /\ ends_well anything (fst (main fuel w env argv h)) evs.
Proof.
  intros Hh Harg. rewrite (main_is_migration fuel w env argv arg Hh Harg).
  destruct (truthy (SUPPLY_KEY_env env)) eqn:K.
  - rewrite (migration_with_key _ _ _ _ _ K).
    destruct (keeps_epilogue fuel w env (split "," arg) h) as (evs & E & F & W).
    exists evs. cbn [app]. auto.
  - rewrite (migration_without_key _ _ _ _ _ K).
    destruct (keeps_epilogue fuel w env (split "," arg)
                (h ++ key_notice (split "," arg) (generated_key w)))
      as (evs & E & F & W).
    exists evs. rewrite E, <- app_assoc. auto.
Qed.

Lemma main_events fuel w env argv h :
  exists evs,
    snd (main fuel w env argv h) = h ++ evs /\ Forall (expected w env) evs.
Proof.
  destruct (includes "-h" argv) eqn:Hh.
  - unfold main. rewrite Hh. unfold console_log, bind, emit.
    flatten_history. eexists. split; [reflexivity |].
    repeat constructor; left; exact I.
  - destruct (nth_error argv 2) as [arg |] eqn:Harg.
    + destruct (main_run fuel w env argv arg h Hh Harg) as (evs & E & F & _).
      eexists. split; [exact E |]. apply Forall_app. split.
      * destruct (truthy (SUPPLY_KEY_env env)) eqn:K; [constructor |].
        unfold key_notice. constructor; [left; exact I |].
        constructor; [| constructor]. right. split; [exact K | eauto].
      * revert F. apply Forall_impl. intros e He. left. exact He.
    + unfold main. rewrite Hh, Harg. exists []. cbn.
      now rewrite app_nil_r.
Qed.

Lemma script_events fuel w env argv :
  Forall (expected w env) (snd (script fuel w env argv)).
Proof.
  unfold script.
  destruct (operator_accepted w env && supply_key_accepted w env);
    [| constructor].
  destruct (main_events fuel w env argv []) as (evs & E & F).
  destruct (main fuel w env argv []) as [[[] | e | c |] h'];
    cbn [snd app] in *; subst h'; try exact F.
  apply Forall_app. split; [exact F |]. repeat constructor.
Qed.

(** X1.  In every run of the script, whatever the mirror node and the
    ledger answer, each mint request carries between 1 and 10 metadata
    payloads, caps its fee at 80 and is signed with the supply key. *)
Theorem mint_requests_are_bounded fuel w env argv tx :
  In (TokenMint tx) (snd (script fuel w env argv)) ->
  (1 <= List.length (mint_metadata tx) <= 10)%nat
  /\ mint_maxTransactionFee tx = 80
  /\ mint_signer tx = SUPPLY_KEY w env.
Proof.
  intros Hin.
  pose proof (proj1 (Forall_forall _ _) (script_events fuel w env argv) _ Hin)
    as [(H1 & H2 & H3 & _) | (_ & tokens & H)]; [auto | discriminate].
Qed.

Lemma mint_requests_are_bounded_witness :
  let tx := mint_request Scenario.one_deleted Scenario.env "0.0.1001"
              [[104; 101; 108; 108; 111]] in
  In (TokenMint tx)
     (snd (script 1 Scenario.one_deleted Scenario.env
             (Scenario.argv_with "0.0.111")))
  /\ (1 <= List.length (mint_metadata tx) <= 10)%nat
  /\ mint_maxTransactionFee tx = 80.
Proof.
  intros tx.
  assert (Hin : In (TokenMint tx)
                  (snd (script 1 Scenario.one_deleted Scenario.env
                          (Scenario.argv_with "0.0.111"))))
    by (vm_compute; repeat (first [left; reflexivity | right])).
  split; [exact Hin |].
  destruct (mint_requests_are_bounded 1 Scenario.one_deleted Scenario.env
              (Scenario.argv_with "0.0.111") tx Hin) as (H1 & H2 & _).
  split; [exact H1 | exact H2].
Defined.

(** X4.  In every run of the script, each payload of each mint request is
    well-formed UTF-8, whatever bytes the metadata of the source holds. *)
Theorem minted_payloads_are_text fuel w env argv tx :
  In (TokenMint tx) (snd (script fuel w env argv)) ->
  Forall (fun payload => Buffer.well_formed_utf8 payload = true)
         (mint_metadata tx).
Proof.
  intros Hin.
  pose proof (proj1 (Forall_forall _ _) (script_events fuel w env argv) _ Hin)
    as [(_ & _ & _ & H) | (_ & tokens & H)]; [exact H | discriminate].
Qed.

Lemma minted_payloads_are_text_witness :
  let w := Scenario.table_world
             [(Scenario.token_url "0.0.111", Scenario.foo)]
             [(Scenario.nfts_url "0.0.111",
               {| nfts := [Scenario.binary_nft]; links_next := None |})] in
  let tx := mint_request w Scenario.env "0.0.1001" [[239; 191; 189]] in
  In (TokenMint tx)
     (snd (script 1 w Scenario.env (Scenario.argv_with "0.0.111")))
  /\ Forall (fun payload => Buffer.well_formed_utf8 payload = true)
            (mint_metadata tx).
Proof.
  intros w tx.
  assert (Hin : In (TokenMint tx)
                  (snd (script 1 w Scenario.env (Scenario.argv_with "0.0.111"))))
    by (vm_compute; repeat (first [left; reflexivity | right])).
  split; [exact Hin |].
  exact (minted_payloads_are_text 1 w Scenario.env
           (Scenario.argv_with "0.0.111") tx Hin).
Defined.

(** X2.  In every run of the script, each burn request names between 1 and
    10 serial numbers and is signed with the supply key. *)
Theorem burn_requests_are_bounded fuel w env argv tx :
  In (TokenBurn tx) (snd (script fuel w env argv)) ->
  (1 <= List.length (burn_serials tx) <= 10)%nat
  /\ burn_signer tx = SUPPLY_KEY w env.
Proof.
  intros Hin.
  pose proof (proj1 (Forall_forall _ _) (script_events fuel w env argv) _ Hin)
    as [H | (_ & tokens & H)]; [exact H | discriminate].
Qed.

Lemma burn_requests_are_bounded_witness :
  let tx := burn_request Scenario.one_deleted Scenario.env "0.0.1001" [7] in
  In (TokenBurn tx)
     (snd (script 1 Scenario.one_deleted Scenario.env
             (Scenario.argv_with "0.0.111")))
  /\ (1 <= List.length (burn_serials tx) <= 10)%nat.
Proof.
  intros tx.
  assert (Hin : In (TokenBurn tx)
                  (snd (script 1 Scenario.one_deleted Scenario.env
                          (Scenario.argv_with "0.0.111"))))
    by (vm_compute; repeat (first [left; reflexivity | right])).
  split; [exact Hin |].
  exact (proj1 (burn_requests_are_bounded 1 Scenario.one_deleted Scenario.env
                  (Scenario.argv_with "0.0.111") tx Hin)).
Defined.

(** X3.  In every run of the script, each token-creation request has an
    initial supply of 0, caps its fee at 80, names the operator account as
    treasury and as auto-renew account, and carries the supply key. *)
Theorem creation_requests_are_uniform fuel w env argv tx :
  In (TokenCreate tx) (snd (script fuel w env argv)) ->
  initialSupply tx = 0
  /\ create_maxTransactionFee tx = 80
  /\ treasuryAccountId tx = testnetOperatorId env
  /\ autoRenewAccountId tx = testnetOperatorId env
  /\ supplyKey tx = SUPPLY_KEY w env.
Proof.
  intros Hin.
  pose proof (proj1 (Forall_forall _ _) (script_events fuel w env argv) _ Hin)
    as [H | (_ & tokens & H)]; [exact H | discriminate].
Qed.

Lemma creation_requests_are_uniform_witness :
  let tx := tokenCreateTx Scenario.one_deleted Scenario.env Scenario.foo in
  In (TokenCreate tx)
     (snd (script 1 Scenario.one_deleted Scenario.env
             (Scenario.argv_with "0.0.111")))
  /\ initialSupply tx = 0
  /\ treasuryAccountId tx = "0.0.2"%string.
Proof.
  intros tx.
  assert (Hin : In (TokenCreate tx)
                  (snd (script 1 Scenario.one_deleted Scenario.env
                          (Scenario.argv_with "0.0.111"))))
    by (vm_compute; repeat (first [left; reflexivity | right])).
  split; [exact Hin |].
  destruct (creation_requests_are_uniform 1 Scenario.one_deleted Scenario.env
              (Scenario.argv_with "0.0.111") tx Hin) as (H1 & _ & H3 & _).
  split; [exact H1 | exact H3].
Defined.

(** X5.  When the environment provides a supply key, no run of the script
    ever calls [saveKeyToFile]. *)
Theorem given_key_is_never_saved fuel w env argv tokens key :
  truthy (SUPPLY_KEY_env env) = true ->
  ~ In (SaveKeyToFile tokens key) (snd (script fuel w env argv)).
Proof.
  intros K Hin.
  pose proof (proj1 (Forall_forall _ _) (script_events fuel w env argv) _ Hin)
    as [H | (K' & _)]; [exact H | congruence].
Qed.

Lemma given_key_is_never_saved_witness :
  truthy (SUPPLY_KEY_env Scenario.env) = true
  /\ ~ In (SaveKeyToFile ["0.0.111"%string] Scenario.supply_key)
          (snd (script 1 Scenario.one_deleted Scenario.env
                  (Scenario.argv_with "0.0.111"))).
Proof.
  split; [reflexivity |].
  apply given_key_is_never_saved. reflexivity.
Defined.

Lemma generated_key_is_accepted w env :
  truthy (SUPPLY_KEY_env env) = false -> supply_key_accepted w env = true.
Proof.
  unfold supply_key_accepted. destruct (SUPPLY_KEY_env env); [| reflexivity].
  now intros ->.
Qed.

(** X6.  When both operator variables are set and the library reads the
    account and the key they hold, the environment provides no supply key
    (or an empty one), the [-h] flag is not given and a token list is, the
    first two things the script does are to announce the generated key and
    to call [saveKeyToFile] with the whole token list and that key; it does
    so before any request to the mirror node or the ledger, and never calls
    [saveKeyToFile] again. *)
Theorem generated_key_is_saved_first fuel w env argv arg :
  operator_accepted w env = true ->
  truthy (SUPPLY_KEY_env env) = false ->
  includes "-h" argv = false -> nth_error argv 2 = Some arg ->
  exists evs,
    snd (script fuel w env argv)
    = [ConsoleLog "No supply key provided. Generating a new one and saving it to file";
       SaveKeyToFile (split "," arg) (generated_key w)] ++ evs
    /\ (forall tokens key, ~ In (SaveKeyToFile tokens key) evs).
Proof.
  intros Ho K Hh Harg. unfold script.
  rewrite Ho, (generated_key_is_accepted w env K). cbn [andb].
  destruct (main_run fuel w env argv arg [] Hh Harg) as (evs & E & F & _).
  rewrite K in E. cbn [app] in E. fold (key_notice (split "," arg) (generated_key w)).
  assert (N : forall l, Forall (orderly w env) l ->
              forall tokens key, ~ In (SaveKeyToFile tokens key) l).
  { intros l Hl tokens key Hin.
    exact (proj1 (Forall_forall _ _) Hl _ Hin). }
  destruct (main fuel w env argv []) as [[[] | e | c |] h'];
    cbn [snd] in *; subst h'.
  - exists evs. split; [reflexivity | apply N, F].
  - exists (evs ++ [ConsoleError (show_error e)]).
    split; [unfold key_notice; cbn [app]; reflexivity |].
    apply N, Forall_app. split; [exact F | repeat constructor].
  - exists evs. split; [reflexivity | apply N, F].
  - exists evs. split; [reflexivity | apply N, F].
Qed.

Lemma generated_key_is_saved_first_witness :
  operator_accepted Scenario.offline Scenario.env_without_key = true
  /\ truthy (SUPPLY_KEY_env Scenario.env_without_key) = false
  /\ exists evs,
       snd (script 1 Scenario.offline Scenario.env_without_key
              (Scenario.argv_with "0.0.1,0.0.2"))
       = [ConsoleLog "No supply key provided. Generating a new one and saving it to file";
          SaveKeyToFile ["0.0.1"; "0.0.2"]%string
            (generated_key Scenario.offline)] ++ evs.
Proof.
  split; [reflexivity |]. split; [reflexivity |].
  destruct (generated_key_is_saved_first 1 Scenario.offline
              Scenario.env_without_key (Scenario.argv_with "0.0.1,0.0.2")
              "0.0.1,0.0.2"%string)
    as (evs & E & _);
    [reflexivity | reflexivity | reflexivity | reflexivity |].
  exists evs. exact E.
Defined.

(** X7.  When a token list is given, the only failure that [main] raises is
    the rejection of a request it has just sent to the ledger: it never
    fails with a TypeError or with an Error of its own. *)
Theorem main_fails_only_on_rejected_submission fuel w env argv arg h e :
  nth_error argv 2 = Some arg ->
  fst (main fuel w env argv h) = Thrown e ->
  exists msg pre request,
    e = Rejection msg
    /\ snd (main fuel w env argv h) = h ++ pre ++ [request]
    /\ is_ledger_event request = true.
Proof.
  intros Harg Hthrown.
  destruct (includes "-h" argv) eqn:Hh.
  { unfold main in Hthrown. rewrite Hh in Hthrown. discriminate. }
  destruct (main_run fuel w env argv arg h Hh Harg) as (evs & E & _ & W).
  rewrite Hthrown in W. destruct W as (msg & pre & request & -> & -> & L).
  exists msg. eexists. exists request.
  split; [reflexivity |]. split; [| exact L].
  rewrite E. rewrite (app_assoc _ pre). reflexivity.
Qed.

Lemma main_fails_only_on_rejected_submission_witness :
  let w := Scenario.answering (ExecuteRejected "BUSY") Scenario.empty_collection in
  fst (main 1 w Scenario.env (Scenario.argv_with "0.0.111") [])
  = Thrown (Rejection "BUSY")
  /\ exists msg pre request,
       Rejection "BUSY" = Rejection msg
       /\ snd (main 1 w Scenario.env (Scenario.argv_with "0.0.111") [])
          = [] ++ pre ++ [request]
       /\ is_ledger_event request = true.
Proof.
  intros w.
  assert (H : fst (main 1 w Scenario.env (Scenario.argv_with "0.0.111") [])
              = Thrown (Rejection "BUSY")) by reflexivity.
  split; [exact H |].
  exact (main_fails_only_on_rejected_submission 1 w Scenario.env
           (Scenario.argv_with "0.0.111") "0.0.111"%string [] _ eq_refl H).
Defined.

(** X8.  The script ends the process with no other status than 1, and in
    two ways only.  When an operator variable is missing, or the library
    does not read the operator's account, the operator's key or the supply
    key that is given, the process ends with status 1 before [main] is
    called: nothing is printed or requested, whatever the command line.
    Otherwise the process ends only right after an error and one of the
    three failure lines were printed, that is after a receipt was refused
    for a creation, a mint or a burn.  In particular the script never ends
    the process with status 0. *)
Theorem script_exits_only_with_1 fuel w env argv :
  (operator_accepted w env && supply_key_accepted w env = false ->
   script fuel w env argv = (Exits 1, []))
  /\ (forall code,
        fst (script fuel w env argv) = Exits code ->
        code = 1
        /\ (operator_accepted w env && supply_key_accepted w env = false
            \/ exists pre err line,
                 snd (script fuel w env argv)
                 = pre ++ [ConsoleLog err; ConsoleLog line]
                 /\ failure_line line)).
Proof.
  unfold script.
  destruct (operator_accepted w env && supply_key_accepted w env).
  2:{ split; [reflexivity |]. intros code [= <-].
      split; [reflexivity | left; reflexivity]. }
  split; [discriminate |]. intros code.
  destruct (includes "-h" argv) eqn:Hh.
  { unfold main. rewrite Hh. cbn. discriminate. }
  destruct (nth_error argv 2) as [arg |] eqn:Harg.
  2:{ unfold main. rewrite Hh, Harg. cbn. discriminate. }
  destruct (main_run fuel w env argv arg [] Hh Harg) as (evs & E & _ & W).
  destruct (main fuel w env argv []) as [[[] | e | c |] h'];
    cbn [fst snd] in *; try discriminate. intros [= <-].
  destruct W as (-> & pre & err & line & -> & Hline).
  split; [reflexivity |]. right.
  eexists. exists err, line. split; [| exact Hline].
  rewrite E. rewrite (app_assoc _ pre). reflexivity.
Qed.

Lemma script_exits_only_with_1_witness :
  let w := Scenario.answering (ReceiptRejected "INSUFFICIENT_PAYER_BALANCE")
             Scenario.empty_collection in
  operator_accepted w Scenario.env_with_short_key
  && supply_key_accepted w Scenario.env_with_short_key = false
  /\ script 1 w Scenario.env_with_short_key (Scenario.argv_with "0.0.111")
     = (Exits 1, [])
  /\ fst (script 1 w Scenario.env (Scenario.argv_with "0.0.111")) = Exits 1
  /\ exists pre err line,
       snd (script 1 w Scenario.env (Scenario.argv_with "0.0.111"))
       = pre ++ [ConsoleLog err; ConsoleLog line]
       /\ failure_line line.
Proof.
  intros w.
  assert (H : fst (script 1 w Scenario.env (Scenario.argv_with "0.0.111"))
              = Exits 1) by reflexivity.
  split; [reflexivity |].
  split; [apply (proj1 (script_exits_only_with_1 1 w
                          Scenario.env_with_short_key
                          (Scenario.argv_with "0.0.111"))); reflexivity |].
  split; [exact H |].
  destruct (proj2 (script_exits_only_with_1 1 w Scenario.env
                     (Scenario.argv_with "0.0.111")) 1 H)
    as (_ & [Hrefused | Hfailed]); [discriminate Hrefused | exact Hfailed].
Defined.

(* ===================================================================== *)
(** ** Pagination that succeeds                                           *)
(* ===================================================================== *)

Lemma fetch_page_replied w route inv h page :
  get_nfts w h (MIRROR_NODE +++ route) = Replied page ->
  fetch_page w route inv h
  = (Done (links_next page, fold_left push_nft (nfts page) inv),
     h ++ [MirrorGet (MIRROR_NODE +++ route)]).
Proof.
  intros E. unfold fetch_page, bind, ask, ret. rewrite E. reflexivity.
Qed.

Lemma fetch_loop_S fuel w route inv :
  fetch_loop (S fuel) w route inv
  = (s <- fetch_page w route inv ;;
     match s with
     | (Some route', inv') => fetch_loop fuel w route' inv'
     | (None, inv') => ret inv'
     end).
Proof. reflexivity. Qed.

Lemma fetch_loop_served w pages : forall route extra inv h,
  served w route pages ->
  fetch_loop (List.length pages + extra) w route inv h
  = (Done (fold_left push_nft (List.concat (map nfts pages)) inv),
     h ++ page_requests (route :: next_routes pages)).
Proof.
  induction pages as [| page rest IH]; intros route extra inv h H;
    [contradiction |].
  destruct H as [Hpage Hrest]. cbn [List.length Nat.add fetch_loop].
  rewrite (bind_Done _ _ _ _ _ (fetch_page_replied w route inv h page (Hpage h))).
  cbn [map List.concat]. rewrite fold_left_app.
  unfold next_routes. cbn [flat_map]. fold (next_routes rest).
  destruct rest as [| page' rest'].
  - rewrite Hrest. cbn. rewrite ?app_nil_r. reflexivity.
  - destruct Hrest as (route' & -> & Hserved).
    rewrite (IH route' extra _ _ Hserved).
    unfold page_requests. cbn [map app]. rewrite <- app_assoc. reflexivity.
Qed.

(** X9.  When the mirror node serves a chain of pages, each naming the
    route of the next and the last naming none, the pagination loop ends
    after one request per page, in the order of the chain and with nothing
    else added to the history, and the arrays have gained the records of the
    pages in the order received. *)
Theorem pagination_follows_links w route pages extra inv h :
  served w route pages ->
  fetch_loop (List.length pages + extra) w route inv h
  = (Done (fold_left push_nft (List.concat (map nfts pages)) inv),
     h ++ page_requests (route :: next_routes pages))
  /\ List.length (route :: next_routes pages) = List.length pages.
Proof.
  intros H. split; [apply fetch_loop_served, H |].
  revert route H. induction pages as [| page rest IH]; intros route H;
    [contradiction |].
  destruct H as [_ Hrest]. unfold next_routes. cbn [flat_map List.length].
  fold (next_routes rest). destruct rest as [| page' rest'].
  - rewrite Hrest. reflexivity.
  - destruct Hrest as (route' & -> & Hserved).
    cbn [app]. rewrite (IH route' Hserved). reflexivity.
Qed.

Lemma pagination_follows_links_witness :
  served Scenario.two_pages "/api/v1/tokens/0.0.111/nfts?limit=100"
    [Scenario.newest_page; Scenario.oldest_page]
  /\ fetch_loop 2 Scenario.two_pages "/api/v1/tokens/0.0.111/nfts?limit=100"
       empty_inventory []
     = (Done (stored [Scenario.third; Scenario.second; Scenario.first]),
        [MirrorGet (Scenario.nfts_url "0.0.111");
         MirrorGet (MIRROR_NODE +++ Scenario.next_route)]).
Proof.
  assert (H : served Scenario.two_pages "/api/v1/tokens/0.0.111/nfts?limit=100"
                [Scenario.newest_page; Scenario.oldest_page]).
  { split; [intros h; reflexivity |]. exists Scenario.next_route.
    split; [reflexivity |]. split; [intros h; reflexivity | reflexivity]. }
  split; [exact H |].
  exact (proj1 (pagination_follows_links Scenario.two_pages _ _ 0
                  empty_inventory [] H)).
Defined.

(** X10.  When a page fails some number of times and is then served, as the
    last page, the pagination loop asks for it once more than it failed,
    prints each error, and ends with the records of the page added exactly
    once: nothing is lost and nothing is doubled by the retries. *)
Theorem transient_failures_lose_nothing w route errs : forall extra inv h page,
  (forall n err,
     nth_error errs n = Some err ->
     get_nfts w (h ++ retries (MIRROR_NODE +++ route) (firstn n errs))
       (MIRROR_NODE +++ route)
     = Failed err) ->
  get_nfts w (h ++ retries (MIRROR_NODE +++ route) errs) (MIRROR_NODE +++ route)
  = Replied page ->
  links_next page = None ->
  fetch_loop (S (List.length errs) + extra) w route inv h
  = (Done (fold_left push_nft (nfts page) inv),
     h ++ retries (MIRROR_NODE +++ route) errs
       ++ [MirrorGet (MIRROR_NODE +++ route)]).
Proof.
  induction errs as [| err errs IH]; intros extra inv h page Hfail Hok Hlast.
  - cbn [retries flat_map] in *. rewrite app_nil_r in Hok.
    cbn [List.length Nat.add fetch_loop].
    rewrite (bind_Done _ _ _ _ _ (fetch_page_replied w route inv h page Hok)).
    rewrite Hlast. reflexivity.
  - cbn [List.length]. change (S (S (List.length errs)) + extra)%nat
      with (S (S (List.length errs) + extra)).
    rewrite fetch_loop_S.
    pose proof (Hfail 0%nat err eq_refl) as H0.
    cbn [firstn retries flat_map] in H0. rewrite app_nil_r in H0.
    rewrite (bind_Done _ _ _ _ _ (fetch_page_failed w route inv h err H0)).
    rewrite (IH extra inv _ page).
    + unfold retries. cbn [flat_map app]. rewrite <- !app_assoc. reflexivity.
    + intros n e Hn. specialize (Hfail (S n) e Hn).
      cbn [firstn retries flat_map] in Hfail.
      rewrite <- app_assoc. exact Hfail.
    + unfold retries in *. cbn [flat_map] in Hok.
      rewrite <- app_assoc. exact Hok.
    + exact Hlast.
Qed.

Lemma transient_failures_lose_nothing_witness :
  let w := Scenario.flaky 2 Scenario.one_deleted in
  let route := "/api/v1/tokens/0.0.111/nfts?limit=100"%string in
  fetch_loop 3 w route empty_inventory []
  = (Done (stored [Scenario.lone_deleted]),
     [MirrorGet (MIRROR_NODE +++ route); ConsoleError "socket hang up";
      MirrorGet (MIRROR_NODE +++ route); ConsoleError "socket hang up";
      MirrorGet (MIRROR_NODE +++ route)]).
Proof.
  intros w route.
  apply (transient_failures_lose_nothing w route
           ["socket hang up"; "socket hang up"]%string 0 empty_inventory []
           {| nfts := [Scenario.lone_deleted]; links_next := None |}).
  - intros [| [| n]] err H; cbn in H;
      try (destruct n; discriminate);
      injection H as <-; reflexivity.
  - reflexivity.
  - reflexivity.
Defined.

(* ===================================================================== *)
(** ** Failures of the creation                                           *)
(* ===================================================================== *)

Lemma same_details d :
  {| symbol := symbol d; name := name d; max_supply := max_supply d;
     type := type d; custom_fees := custom_fees d; memo := memo d |} = d.
Proof. destruct d. reflexivity. Qed.

(** The run of one token up to the answer of the ledger to the creation
    request. *)
Lemma migrate_token_until_creation fuel w env token strOutput h d :
  get_token w h (MIRROR_NODE +++ "/api/v1/tokens/" +++ token) = Replied d ->
  type d = "NON_FUNGIBLE_UNIQUE"%string ->
  migrate_token fuel w env token strOutput h
  = (newToken <- execute_create w (tokenCreateTx w env d) ;;
     console_log ("Token " +++ token +++ " created with ID " +++ newToken) ;;
     inv <- fetch_loop fuel w
              ("/api/v1/tokens/" +++ token +++ "/nfts?limit=100")
              empty_inventory ;;
     console_log ("Found " +++ show_nat (List.length (serials inv))
                  +++ " NFTs to migrate") ;;
     mint_loop w env newToken (reverse_all inv) 0 ;;
     ret (strOutput ++ [migrated_line token newToken]))
      (h ++ [MirrorGet (MIRROR_NODE +++ "/api/v1/tokens/" +++ token);
             ConsoleLog (migrating_line token d)]).
Proof.
  intros Hget Hty. unfold migrate_token, getTokenDetails.
  unfold bind at 1 2. unfold ask at 1. rewrite Hget. unfold ret at 1.
  rewrite same_details, Hty. cbn [String.eqb Ascii.eqb Bool.eqb negb].
  unfold bind at 1. unfold console_log at 1, emit at 1.
  flatten_history. reflexivity.
Qed.

(** X11.  When the ledger refuses the receipt of a token creation, the
    error and the line 'Token Create **FAILED*' are printed and the process
    exits with status 1; when the submission itself is rejected, the
    rejection is thrown.  Either way nothing more is done for this token,
    and the tokens that follow in the list are not looked at. *)
Theorem creation_failure_stops_the_run fuel w env token rest strOutput h d :
  let url := MIRROR_NODE +++ "/api/v1/tokens/" +++ token in
  let h1 := h ++ [MirrorGet url; ConsoleLog (migrating_line token d)] in
  get_token w h url = Replied d ->
  type d = "NON_FUNGIBLE_UNIQUE"%string ->
  (forall err,
     create_token w h1 (tokenCreateTx w env d) = ReceiptRejected err ->
     migrate_tokens fuel w env (token :: rest) strOutput h
     = (Exited 1,
        h1 ++ [TokenCreate (tokenCreateTx w env d); ConsoleLog err;
               ConsoleLog "Token Create **FAILED*"]))
  /\ (forall err,
        create_token w h1 (tokenCreateTx w env d) = ExecuteRejected err ->
        migrate_tokens fuel w env (token :: rest) strOutput h
        = (Thrown (Rejection err),
           h1 ++ [TokenCreate (tokenCreateTx w env d)])).
Proof.
  intros url h1 Hget Hty. split; intros err E; cbn [migrate_tokens];
    unfold bind at 1;
    rewrite (migrate_token_until_creation fuel w env token strOutput h d
               Hget Hty);
    fold url; fold h1;
    unfold bind at 1; unfold execute_create, bind at 1, ask; rewrite E.
  - unfold console_log, emit, bind, process_exit. flatten_history.
    reflexivity.
  - reflexivity.
Qed.

Lemma creation_failure_stops_the_run_witness :
  let w := Scenario.answering (ReceiptRejected "INSUFFICIENT_PAYER_BALANCE")
             Scenario.empty_collection in
  get_token w [] (Scenario.token_url "0.0.111") = Replied Scenario.foo
  /\ fst (migrate_tokens 1 w Scenario.env ["0.0.111"; "0.0.222"]%string [] [])
     = Exited 1
  /\ mirror_requests
       (snd (migrate_tokens 1 w Scenario.env ["0.0.111"; "0.0.222"]%string [] []))
     = [Scenario.token_url "0.0.111"].
Proof.
  intros w. split; [reflexivity |].
  rewrite (proj1 (creation_failure_stops_the_run 1 w Scenario.env
                    "0.0.111" ["0.0.222"%string] [] [] Scenario.foo
                    eq_refl eq_refl)
                 "INSUFFICIENT_PAYER_BALANCE"%string eq_refl).
  split; reflexivity.
Defined.

(** *** Fees *)




(* ===================================================================== *)
(** ** Accounting                                                         *)
(* ===================================================================== *)

Lemma creations_app evs1 evs2 :
  creations (evs1 ++ evs2) = (creations evs1 + creations evs2)%nat.
Proof. unfold creations. now rewrite filter_app, length_app. Qed.

Lemma creations_routine w env evs :
  Forall (routine w env) evs -> creations evs = 0%nat.
Proof.
  unfold creations. induction 1 as [| e evs He _ IH]; [reflexivity |].
  destruct e; cbn in *; try exact IH. contradiction.
Qed.

Lemma accounts_bind {A B} (m : M A) (k : A -> M B) Q1 Q :
  accounts m Q1 ->
  (forall a evs1, Q1 a evs1 ->
     accounts (k a) (fun b evs2 => Q b (evs1 ++ evs2))) ->
  accounts (bind m k) Q.
Proof.
  intros Hm Hk h. unfold bind. destruct (Hm h) as (evs1 & E1 & Q1a).
  destruct (m h) as [[a | e | c |] h0]; cbn [fst snd] in *; subst h0;
    try (exists evs1; split; [reflexivity | discriminate]).
  destruct (Hk a evs1 (Q1a a eq_refl) (h ++ evs1)) as (evs2 & E2 & Q2).
  exists (evs1 ++ evs2). rewrite E2, app_assoc. split; [reflexivity |].
  exact Q2.
Qed.

Lemma keeps_accounts {A} P (V : A -> Prop) m :
  keeps P V m -> accounts m (fun a evs => V a /\ Forall P evs).
Proof.
  intros Hm h. destruct (Hm h) as (evs & E & F & W). exists evs.
  split; [exact E |]. intros a Ha. rewrite Ha in W. split; assumption.
Qed.

Lemma accounts_emit e : accounts (emit e) (fun _ evs => evs = [e]).
Proof. intros h. exists [e]. split; [reflexivity | reflexivity]. Qed.

Lemma accounts_ret {A} (a : A) : accounts (ret a) (fun b evs => b = a /\ evs = []).
Proof.
  intros h. exists []. cbn. rewrite app_nil_r. split; [reflexivity |].
  intros b [= <-]. split; reflexivity.
Qed.

Lemma accounts_weaken {A} (m : M A) (Q Q' : A -> list event -> Prop) :
  (forall a evs, Q a evs -> Q' a evs) -> accounts m Q -> accounts m Q'.
Proof.
  intros HQ Hm h. destruct (Hm h) as (evs & E & H). exists evs.
  split; [exact E |]. intros a Ha. apply HQ, H, Ha.
Qed.

Lemma accounts_getTokenDetails w token :
  accounts (getTokenDetails w token) (fun _ evs => creations evs = 0%nat).
Proof.
  intros h. unfold getTokenDetails, bind, ask, console_error, emit, ret.
  destruct (get_token w h _); flatten_history; eexists;
    (split; [reflexivity | intros; reflexivity]).
Qed.

Lemma accounts_execute_create w tx :
  accounts (execute_create w tx) (fun _ evs => creations evs = 1%nat).
Proof.
  intros h.
  unfold execute_create, bind, ask, throw, console_log, emit, process_exit, ret.
  destruct (create_token w h tx); flatten_history; eexists;
    (split; [reflexivity | intros; try discriminate; reflexivity]).
Qed.

Lemma accounts_migrate_token fuel w env token strOutput :
  accounts (migrate_token fuel w env token strOutput)
    (fun strOutput' evs =>
       exists lines, strOutput' = strOutput ++ lines
                     /\ List.length lines = creations evs
                     /\ (List.length lines <= 1)%nat).
Proof.
  unfold migrate_token.
  eapply accounts_bind; [apply accounts_getTokenDetails |].
  intros [d |] evs0 C0; cbn beta.
  2:{ eapply accounts_bind; [apply accounts_emit |]. intros _ evs1 ->.
      eapply accounts_weaken; [| apply accounts_ret].
      intros s evs [-> ->]. exists []. rewrite !app_nil_r, creations_app, C0.
      cbn. repeat split; lia. }
  destruct (negb _).
  { eapply accounts_bind; [apply accounts_emit |]. intros _ evs1 ->.
    eapply accounts_weaken; [| apply accounts_ret].
    intros s evs [-> ->]. exists []. rewrite !app_nil_r, creations_app, C0.
    cbn. repeat split; lia. }
  eapply accounts_bind; [apply accounts_emit |]. intros _ evs1 ->.
  eapply accounts_bind; [apply accounts_execute_create |].
  intros newToken evs2 C2.
  eapply accounts_bind; [apply accounts_emit |]. intros _ evs3 ->.
  eapply accounts_bind.
  { apply keeps_accounts,
      (keeps_fetch_loop fuel w env _ _ [] tracks_empty). }
  intros inv evs4 [[more Hinv] F4]. cbn [app] in Hinv.
  eapply accounts_bind; [apply accounts_emit |]. intros _ evs5 ->.
  eapply accounts_bind.
  { apply keeps_accounts,
      (keeps_mint_loop w env newToken (reverse_all inv)
         (List.length (serials (reverse_all inv)))); [| lia].
    rewrite (tracks_stored _ _ Hinv), reverse_all_stored.
    apply holds_text_stored. }
  intros _ evs6 [_ F6].
  eapply accounts_weaken; [| apply accounts_ret].
  intros s evs [-> ->]. exists [migrated_line token newToken].
  split; [reflexivity |].
  rewrite !creations_app, C0, C2,
    (creations_routine w env _ F4), (creations_routine w env _ F6).
  cbn. split; lia.
Qed.

(** X13.  When the loop over the tokens completes, [strOutput] has gained
    exactly one line for each creation request that was sent, and no more
    lines than there are tokens in the list: a token is reported exactly
    when it was created on the ledger. *)
Theorem every_created_token_is_reported fuel w env tokenList :
  forall strOutput h strOutput',
    fst (migrate_tokens fuel w env tokenList strOutput h) = Done strOutput' ->
    exists lines evs,
      strOutput' = strOutput ++ lines
      /\ snd (migrate_tokens fuel w env tokenList strOutput h) = h ++ evs
      /\ List.length lines = creations evs
      /\ (List.length lines <= List.length tokenList)%nat.
Proof.
  induction tokenList as [| token rest IH]; intros strOutput h strOutput' Hd.
  - cbn in *. injection Hd as <-. exists [], [].
    rewrite !app_nil_r. repeat split; reflexivity.
  - cbn [migrate_tokens] in *. unfold bind in *.
    destruct (accounts_migrate_token fuel w env token strOutput h)
      as (evs1 & E1 & Q1).
    destruct (migrate_token fuel w env token strOutput h)
      as [[s1 | e | c |] h1]; cbn [fst snd] in *; try discriminate.
    subst h1. destruct (Q1 s1 eq_refl) as (lines1 & -> & L1 & B1).
    destruct (IH _ _ _ Hd) as (lines2 & evs2 & -> & E2 & L2 & B2).
    exists (lines1 ++ lines2), (evs1 ++ evs2).
    rewrite E2, <- !app_assoc, length_app, creations_app.
    cbn [List.length]. repeat split; try reflexivity; lia.
Qed.

Lemma every_created_token_is_reported_witness :
  fst (migrate_tokens 1 Scenario.one_deleted Scenario.env
         ["0.0.111"; "0.0.9"]%string [] [])
  = Done ["Mainnet Token 0.0.111 migrated to Testnet 0.0.1001"%string]
  /\ exists lines evs,
       ["Mainnet Token 0.0.111 migrated to Testnet 0.0.1001"%string]
       = [] ++ lines
       /\ List.length lines = creations evs.
Proof.
  assert (H : fst (migrate_tokens 1 Scenario.one_deleted Scenario.env
                     ["0.0.111"; "0.0.9"]%string [] [])
              = Done ["Mainnet Token 0.0.111 migrated to Testnet 0.0.1001"%string])
    by reflexivity.
  split; [exact H |].
  destruct (every_created_token_is_reported 1 Scenario.one_deleted
              Scenario.env ["0.0.111"; "0.0.9"]%string [] [] _ H)
    as (lines & evs & E & _ & L & _).
  exists lines, evs. split; [exact E | exact L].
Defined.

(* ===================================================================== *)
(** ** A migration that succeeds                                          *)
(* ===================================================================== *)

Lemma skipn_combine {A B} (n : nat) : forall (l : list A) (l' : list B),
  skipn n (combine l l') = combine (skipn n l) (skipn n l').
Proof.
  induction n as [| n IH]; intros l l'; [reflexivity |].
  destruct l as [| x l]; [reflexivity |].
  destruct l' as [| y l']; [cbn; now rewrite combine_nil |].
  cbn. apply IH.
Qed.

Lemma slice_combine {A B} b e (l : list A) (l' : list B) :
  slice b e (combine l l') = combine (slice b e l) (slice b e l').
Proof. unfold slice. now rewrite skipn_combine, combine_firstn. Qed.

Lemma concat_batch_payloads inv :
  List.length (metadata inv) = List.length (serials inv) ->
  List.concat (map (batch_payloads inv)
                   (batch_starts (List.length (serials inv))))
  = map Buffer.from_string (metadata inv).
Proof.
  intros Hlen. unfold batch_starts, batch_payloads. rewrite map_map.
  rewrite <- (map_map (fun k => slice (batchSize * k) (batchSize * k + batchSize)
                                      (metadata inv))
                      (map Buffer.from_string)).
  rewrite <- concat_map. f_equal. apply concat_chunks. lia.
Qed.

Lemma concat_batch_burns w env tok inv starts :
  List.concat (map burn_serials (flat_map (batch_burns w env tok inv) starts))
  = List.concat (map (toDelete inv) starts).
Proof.
  induction starts as [| i starts IH]; [reflexivity |].
  cbn [flat_map map List.concat]. rewrite map_app, concat_app, IH. f_equal.
  unfold batch_burns.
  destruct (toDelete inv i) as [| s l] eqn:E; cbn; [reflexivity |].
  now rewrite app_nil_r.
Qed.

Lemma concat_toDelete inv :
  List.concat (map (toDelete inv) (batch_starts (List.length (serials inv))))
  = at_flagged_positions (serials inv) (deleteIds inv).
Proof.
  unfold batch_starts, at_flagged_positions. rewrite map_map.
  transitivity
    (List.concat
       (map (fun k => map fst (filter snd
               (slice (10 * k) (10 * k + 10)
                      (combine (serials inv) (deleteIds inv)))))
            (seq 0 ((List.length (serials inv) + 9) / 10)))).
  - f_equal. apply map_ext. intros k. rewrite toDelete_flagged.
    unfold at_flagged_positions. now rewrite slice_combine.
  - rewrite <- (map_map (fun k => filter snd (slice _ _ _)) (map fst)).
    rewrite <- concat_map. f_equal.
    rewrite <- (map_map (fun k => slice _ _ _) (filter snd)).
    rewrite concat_filter_map. f_equal.
    apply concat_chunks. rewrite length_combine. lia.
Qed.

Lemma flagged_stored rs :
  at_flagged_positions (map serial_number rs) (map deleted rs)
  = map serial_number (filter deleted rs).
Proof.
  unfold at_flagged_positions.
  induction rs as [| r rs IH]; [reflexivity |].
  cbn. destruct (deleted r); cbn; now rewrite IH.
Qed.

Lemma mint_requests_page_requests routes :
  mint_requests (page_requests routes) = [].
Proof. induction routes; [reflexivity | exact IHroutes]. Qed.

Lemma burn_requests_page_requests routes :
  burn_requests (page_requests routes) = [].
Proof. induction routes; [reflexivity | exact IHroutes]. Qed.

Lemma creations_page_requests routes : creations (page_requests routes) = 0%nat.
Proof. induction routes; [reflexivity | exact IHroutes]. Qed.

(** X14.  When the lookup gives an NFT token, the ledger creates it, the
    mirror node serves the inventory as a chain of pages and the ledger
    refuses no mint and no burn, the migration of the token ends with its
    line appended to [strOutput], having sent one creation request.  The
    payloads of the mint requests, put end to end, are the metadata of all
    the records, oldest first; the serials of the burn requests, put end to
    end, are the source serials of the records flagged deleted, oldest
    first. *)
Theorem successful_migration_replays_the_collection
  w env token strOutput h d newToken pages extra :
  get_token w h (MIRROR_NODE +++ "/api/v1/tokens/" +++ token) = Replied d ->
  type d = "NON_FUNGIBLE_UNIQUE"%string ->
  (forall h', create_token w h' (tokenCreateTx w env d) = Receipt newToken) ->
  served w ("/api/v1/tokens/" +++ token +++ "/nfts?limit=100") pages ->
  always_receipts w ->
  let records := rev (List.concat (map nfts pages)) in
  exists evs,
    migrate_token (List.length pages + extra) w env token strOutput h
    = (Done (strOutput ++ [migrated_line token newToken]), h ++ evs)
    /\ filter is_creation evs = [TokenCreate (tokenCreateTx w env d)]
    /\ List.concat (minted_batches evs)
       = map (fun n => Buffer.from_string (decoded n)) records
    /\ List.concat (map burn_serials (burn_requests evs))
       = map serial_number (filter deleted records).
Proof.
  intros Hget Hty Hcreate Hserved Hw records.
  rewrite (migrate_token_until_creation _ w env token strOutput h d Hget Hty).
  set (h1 := h ++ _).
  unfold execute_create, bind at 1 2, ask at 1. rewrite Hcreate.
  unfold ret at 1, bind at 1, console_log at 1, emit at 1, bind at 1.
  rewrite (fetch_loop_served w pages _ extra empty_inventory _ Hserved).
  change empty_inventory with (stored []). rewrite fold_push_stored.
  cbn [app]. unfold bind at 1, console_log at 1, emit at 1.
  rewrite reverse_all_stored. fold records. unfold bind at 1.
  match goal with |- context [mint_loop w env newToken (stored records) 0 ?h0] =>
    destruct (mint_loop_run w env newToken (stored records)
                (List.length (serials (stored records))) 0 h0 Hw
                (stored_lengths records)) as (evsM & EM & MM & BM); [lia |];
    destruct (keeps_mint_loop w env newToken (stored records)
                (List.length (serials (stored records))) 0
                (holds_text_stored records) ltac:(lia) h0) as (evs' & E' & F' & _);
    rewrite EM in E'; cbn [snd] in E'; apply app_inv_head in E'; subst evs'
  end.
  rewrite EM. unfold ret. rewrite starts_from_0 in MM, BM.
  unfold h1. flatten_history. eexists. split; [reflexivity |].
  split; [| split].
  - cbn [filter is_creation]. rewrite !filter_app. cbn [filter is_creation].
    replace (filter is_creation (page_requests _)) with (@nil event)
      by (symmetry; apply length_zero_iff_nil, creations_page_requests).
    replace (filter is_creation evsM) with (@nil event)
      by (symmetry; apply length_zero_iff_nil,
            (creations_routine w env), F').
    reflexivity.
  - unfold minted_batches in *. cbn [mint_requests].
    rewrite !mint_requests_app, mint_requests_page_requests.
    cbn [mint_requests app].
    rewrite MM. rewrite (concat_batch_payloads (stored records) (stored_lengths _)).
    cbn [stored metadata]. rewrite map_map. reflexivity.
  - cbn [burn_requests].
    rewrite !burn_requests_app, burn_requests_page_requests.
    cbn [burn_requests app].
    rewrite BM, concat_batch_burns, concat_toDelete.
    cbn [stored serials deleteIds]. apply flagged_stored.
Qed.

Lemma successful_migration_replays_the_collection_witness :
  let w := Scenario.issuing "0.0.1001" Scenario.two_pages in
  always_receipts w
  /\ exists evs,
       migrate_token 2 w Scenario.env "0.0.111" [] []
       = (Done ["Mainnet Token 0.0.111 migrated to Testnet 0.0.1001"%string],
          [] ++ evs)
       /\ List.concat (minted_batches evs) = [[97]; [98]; [99]]
       /\ List.concat (map burn_serials (burn_requests evs)) = [2].
Proof.
  intros w.
  assert (Hw : always_receipts w)
    by (split; intros h tx; eexists; reflexivity).
  split; [exact Hw |].
  destruct (successful_migration_replays_the_collection w Scenario.env
              "0.0.111" [] [] Scenario.foo "0.0.1001"
              [Scenario.newest_page; Scenario.oldest_page] 0)
    as (evs & E & _ & M & B);
    [reflexivity | reflexivity | intros h'; reflexivity | | exact Hw |].
  - split; [intros h; reflexivity |]. exists Scenario.next_route.
    split; [reflexivity |]. split; [intros h; reflexivity | reflexivity].
  - exists evs. split; [exact E |]. split; [exact M | exact B].
Defined.

(* ===================================================================== *)
(** ** Splitting and joining                                              *)
(* ===================================================================== *)

Lemma concat_cons sep x y rest :
  String.concat sep (x :: y :: rest)
  = (x +++ sep +++ String.concat sep (y :: rest)).
Proof. reflexivity. Qed.

(** X15.  Joining the pieces of a split with the separator gives back the
    string that was split, and no piece contains the separator: the token
    list is cut at every comma and nowhere else. *)
Theorem split_then_join_is_identity sep s :
  String.concat (String sep EmptyString) (split sep s) = s
  /\ Forall (fun piece => occurs sep piece = false) (split sep s).
Proof.
  induction s as [| c s [IHj IHf]]; [split; [reflexivity | repeat constructor] |].
  cbn [split]. destruct (Ascii.eqb c sep) eqn:E.
  - apply Ascii.eqb_eq in E. subst c.
    destruct (split sep s) as [| piece pieces] eqn:S.
    + pose proof (split_not_empty sep s) as H. rewrite S in H. cbn in H. lia.
    + split.
      * rewrite concat_cons, IHj. reflexivity.
      * constructor; [reflexivity | exact IHf].
  - destruct (split sep s) as [| piece pieces] eqn:S.
    + pose proof (split_not_empty sep s) as H. rewrite S in H. cbn in H. lia.
    + split.
      * destruct pieces as [| piece' pieces'].
        -- cbn in *. now rewrite IHj.
        -- rewrite concat_cons. rewrite concat_cons in IHj.
           cbn [String.append]. f_equal. exact IHj.
      * inversion IHf as [| ? ? Hp Hps]; subst.
        constructor; [| exact Hps]. cbn [occurs]. now rewrite E, Hp.
Qed.

(** X16.  Decoding the bytes of a minted payload and encoding them again
    gives the same bytes: metadata that went through one migration goes
    through a second one unchanged. *)
Theorem second_pass_changes_nothing bs :
  Buffer.from_string
    (Buffer.to_utf8_string (Buffer.from_string (Buffer.to_utf8_string bs)))
  = Buffer.from_string (Buffer.to_utf8_string bs).
Proof.
  apply BufferFacts.utf8_round_trip, Utf8Output.recoded_is_well_formed.
Qed.

(** *** The key file *)

Lemma occurs_append c a b : occurs c (a +++ b) = occurs c a || occurs c b.
Proof.
  induction a as [| c' a IH]; [reflexivity |].
  cbn. now rewrite IH, orb_assoc.
Qed.

Lemma occurs_replaceAll from to s :
  from <> to -> occurs from (replaceAll from to s) = false.
Proof.
  intros Hne. induction s as [| c s IH]; [reflexivity |].
  cbn [replaceAll occurs]. rewrite IH, orb_false_r.
  destruct (Ascii.eqb_spec c from) as [-> | Hc].
  - apply Ascii.eqb_neq. congruence.
  - apply Ascii.eqb_neq. exact Hc.
Qed.

Lemma split_head sep a b :
  occurs sep a = false ->
  hd EmptyString (split sep (a +++ String sep b)) = a.
Proof.
  induction a as [| c a IH]; intros H; cbn [String.append split].
  - rewrite Ascii.eqb_refl. reflexivity.
  - cbn [occurs] in H. apply orb_false_iff in H as [Hc Ha].
    rewrite Hc. specialize (IH Ha).
    destruct (split sep (a +++ String sep b)) as [| piece pieces];
      cbn [hd] in *; now subst.
Qed.

(** X17.  The name of the key file contains no colon, whatever the time
    stamp; for a time stamp made of a date and time without a point,
    followed by a point and the milliseconds, it is ./migration-keys-
    followed by the date and time with a dash for each colon, and .txt. *)
Theorem key_file_is_named_after_the_time :
  (forall iso, occurs ":" (filename iso) = false)
  /\ (forall date millis,
        occurs "." date = false ->
        filename (date +++ String "." millis)
        = ("./migration-keys-" +++ replaceAll ":" "-" date +++ ".txt")).
Proof.
  split.
  - intros iso. unfold filename, timestamp.
    rewrite !occurs_append, occurs_replaceAll by discriminate. reflexivity.
  - intros date millis H. unfold filename, timestamp.
    now rewrite split_head.
Qed.

Lemma key_file_is_named_after_the_time_witness :
  occurs "." "2024-05-06T07:08:09" = false
  /\ filename "2024-05-06T07:08:09.123Z"
     = "./migration-keys-2024-05-06T07-08-09.txt"%string.
Proof.
  split; [reflexivity |].
  exact (proj2 key_file_is_named_after_the_time "2024-05-06T07:08:09"%string
           "123Z"%string eq_refl).
Defined.
